(** * GeocoderApp: the streaming-ingestion and progress pipeline

    A shallow embedding of [src/components/GeocoderApp.tsx].  The file holds
    two revisions of the component: the streaming one (server-sent frames,
    [processFile] / [handleSSEEvent]) and the one-shot one (simulated
    progress, summary taken from response headers).  Host facilities the
    component calls (TextDecoder, String.prototype.split, JSON.parse, atob,
    Math.round, the Number type) are modelled after their standards. *)

From Stdlib Require Import List ZArith NArith PArith Bool Lia String Ascii.
From Stdlib.Strings Require Import Byte.
From Stdlib Require Import SpecFloat.
Import ListNotations.

Set Implicit Arguments.

(* ===================================================================== *)
(** * Host model: strings *)
(* ===================================================================== *)

(** A JavaScript string is a sequence of UTF-16 code units. *)
Abbreviation jsstring := (list N).

Definition js (s : string) : jsstring :=
  map N_of_ascii (list_ascii_of_string s).

Fixpoint jsstring_eqb (a b : jsstring) : bool :=
  match a, b with
  | [], [] => true
  | x :: a', y :: b' => N.eqb x y && jsstring_eqb a' b'
  | _, _ => false
  end.

(** [s.startsWith(p)] *)
Fixpoint startsWith (s p : jsstring) : bool :=
  match p with
  | [] => true
  | c :: p' =>
      match s with
      | [] => false
      | d :: s' => N.eqb d c && startsWith s' p'
      end
  end.

(** [s.slice(n)] for a non-negative [n]. *)
Definition slice (s : jsstring) (n : nat) : jsstring := skipn n s.

(** [s.split(sep)] for a one-unit separator: never empty. *)
Fixpoint split (sep : N) (s : jsstring) : list jsstring :=
  match s with
  | [] => [[]]
  | c :: s' =>
      if N.eqb c sep then [] :: split sep s'
      else match split sep s' with
           | l :: ls => (c :: l) :: ls
           | [] => [[c]]
           end
  end.

(** [a.pop()]: the array without its last element, and that element
    ([None] is JavaScript's [undefined], for the empty array). *)
Fixpoint pop (A : Type) (l : list A) : list A * option A :=
  match l with
  | [] => ([], None)
  | [x] => ([], Some x)
  | x :: l' => let (r, o) := pop l' in (x :: r, o)
  end.

(** [x || ''] on the result of [pop]: the empty string and [undefined]
    are falsy. *)
Definition or_empty (o : option jsstring) : jsstring :=
  match o with
  | Some (c :: s) => c :: s
  | _ => []
  end.

Definition LF : N := 10.
Definition data_prefix : jsstring := js "data: ".

(* ===================================================================== *)
(** * Host model: the streaming UTF-8 decoder behind [TextDecoder] *)
(* ===================================================================== *)

(** The decoder of the Encoding Standard, with its five state variables,
    and the [BOM seen] flag of [TextDecoder] (ignoreBOM is false). *)
Record utf8_decoder := {
  code_point : N;
  bytes_seen : N;
  bytes_needed : N;
  lower_boundary : N;
  upper_boundary : N;
  bom_seen : bool
}.

Definition new_TextDecoder : utf8_decoder :=
  {| code_point := 0; bytes_seen := 0; bytes_needed := 0;
     lower_boundary := 0x80; upper_boundary := 0xBF; bom_seen := false |}.

Inductive handler_result :=
| Continue
| Emit (cp : N)
| DecodeError
| DecodeErrorRestore.   (* error, and the byte goes back to the queue *)

Definition in_range (lo hi b : N) : bool := N.leb lo b && N.leb b hi.

Definition reset_decoder (d : utf8_decoder) : utf8_decoder :=
  {| code_point := 0; bytes_seen := 0; bytes_needed := 0;
     lower_boundary := 0x80; upper_boundary := 0xBF; bom_seen := bom_seen d |}.

Definition utf8_handler (d : utf8_decoder) (b : N) : utf8_decoder * handler_result :=
  if N.eqb (bytes_needed d) 0 then
    if in_range 0x00 0x7F b then (d, Emit b)
    else if in_range 0xC2 0xDF b then
      ({| code_point := N.land b 0x1F; bytes_seen := bytes_seen d; bytes_needed := 1;
          lower_boundary := lower_boundary d; upper_boundary := upper_boundary d;
          bom_seen := bom_seen d |}, Continue)
    else if in_range 0xE0 0xEF b then
      ({| code_point := N.land b 0xF; bytes_seen := bytes_seen d; bytes_needed := 2;
          lower_boundary := if N.eqb b 0xE0 then 0xA0 else lower_boundary d;
          upper_boundary := if N.eqb b 0xED then 0x9F else upper_boundary d;
          bom_seen := bom_seen d |}, Continue)
    else if in_range 0xF0 0xF4 b then
      ({| code_point := N.land b 0x7; bytes_seen := bytes_seen d; bytes_needed := 3;
          lower_boundary := if N.eqb b 0xF0 then 0x90 else lower_boundary d;
          upper_boundary := if N.eqb b 0xF4 then 0x8F else upper_boundary d;
          bom_seen := bom_seen d |}, Continue)
    else (d, DecodeError)
  else if negb (in_range (lower_boundary d) (upper_boundary d) b) then
    (reset_decoder d, DecodeErrorRestore)
  else
    let cp := N.lor (N.shiftl (code_point d) 6) (N.land b 0x3F) in
    let seen := N.succ (bytes_seen d) in
    if negb (N.eqb seen (bytes_needed d)) then
      ({| code_point := cp; bytes_seen := seen; bytes_needed := bytes_needed d;
          lower_boundary := 0x80; upper_boundary := 0xBF; bom_seen := bom_seen d |},
       Continue)
    else (reset_decoder d, Emit cp).

Definition REPLACEMENT : N := 0xFFFD.

(** One byte through the handler in replacement error mode; a restored
    byte is read again at once, by a decoder that expects a lead byte. *)
Definition decode_byte (d : utf8_decoder) (b : N) : utf8_decoder * list N :=
  match utf8_handler d b with
  | (d1, Continue) => (d1, [])
  | (d1, Emit c) => (d1, [c])
  | (d1, DecodeError) => (d1, [REPLACEMENT])
  | (d1, DecodeErrorRestore) =>
      match utf8_handler d1 b with
      | (d2, Continue) => (d2, [REPLACEMENT])
      | (d2, Emit c) => (d2, [REPLACEMENT; c])
      | (d2, _) => (d2, [REPLACEMENT; REPLACEMENT])
      end
  end.

(** A scalar value as UTF-16 code units. *)
Definition utf16_units (c : N) : jsstring :=
  if N.ltb c 0x10000 then [c]
  else let c' := (c - 0x10000)%N in
       [(0xD800 + N.shiftr c' 10)%N; (0xDC00 + N.land c' 0x3FF)%N].

(** Serialising the decoded code points: the first one is dropped when it
    is U+FEFF, and [BOM seen] is set by the first one whatever it is. *)
Fixpoint serialize (seen : bool) (cps : list N) : bool * jsstring :=
  match cps with
  | [] => (seen, [])
  | c :: cps' =>
      if seen then
        let (s', out) := serialize true cps' in (s', utf16_units c ++ out)
      else if N.eqb c 0xFEFF then serialize true cps'
      else let (s', out) := serialize true cps' in (s', utf16_units c ++ out)
  end.

Definition set_bom_seen (d : utf8_decoder) (b : bool) : utf8_decoder :=
  {| code_point := code_point d; bytes_seen := bytes_seen d;
     bytes_needed := bytes_needed d; lower_boundary := lower_boundary d;
     upper_boundary := upper_boundary d; bom_seen := b |}.

Fixpoint decode_bytes (d : utf8_decoder) (bs : list byte) : utf8_decoder * list N :=
  match bs with
  | [] => (d, [])
  | b :: bs' =>
      let (d1, out1) := decode_byte d (Byte.to_N b) in
      let (d2, out2) := decode_bytes d1 bs' in
      (d2, out1 ++ out2)
  end.

(** [decoder.decode(value, { stream: true })]: nothing is flushed, the
    bytes of an unfinished character stay in the decoder. *)
Definition decode_stream (d : utf8_decoder) (value : list byte) : utf8_decoder * jsstring :=
  let (d1, cps) := decode_bytes d value in
  let (seen, out) := serialize (bom_seen d1) cps in
  (set_bom_seen d1 seen, out).

(* ===================================================================== *)
(** * Host model: the Number type (IEEE 754 binary64) *)
(* ===================================================================== *)

Definition float := spec_float.
Definition prec : Z := 53.
Definition emax : Z := 1024.

Definition NaN : float := S754_nan.
Definition pos_zero : float := S754_zero false.
Definition neg_zero : float := S754_zero true.

Definition fadd : float -> float -> float := SFadd prec emax.
Definition fmul : float -> float -> float := SFmul prec emax.
Definition fdiv : float -> float -> float := SFdiv prec emax.
Definition flt : float -> float -> bool := SFltb.
Definition fle : float -> float -> bool := SFleb.
Definition valid (x : float) : bool := valid_binary prec emax x.

(** The Number value of an integer (round to nearest, ties to even). *)
Definition float_of_Z (z : Z) : float := binary_normalize prec emax z 0 false.

(** The Number value of the decimal [m * 10^e], correctly rounded (the
    value of a numeric literal). *)
Definition float_of_decimal (neg : bool) (m : N) (e : Z) : float :=
  match m with
  | N0 => S754_zero neg
  | Npos p =>
      match e with
      | Zneg k =>
          let '(q, e', l) :=
            SFdiv_core_binary prec emax (Zpos p) 0 (Z.pow 10 (Zpos k)) 0 in
          binary_round_aux prec emax neg q e' l
      | _ => binary_round prec emax neg (p * Z.to_pos (Z.pow 10 e)) 0
      end
  end.

Definition is_finite (x : float) : bool :=
  match x with
  | S754_zero _ | S754_finite _ _ _ => true
  | _ => false
  end.

(** [Math.round]: the closest integer, ties towards +Infinity; the sign of
    a zero result is the sign of the argument. *)
Definition Math_round (x : float) : float :=
  match x with
  | S754_finite s m (Zneg k) =>
      let half := Z.pow 2 (Zpos k - 1) in
      let n := if s then Z.shiftr (Zpos m + half - 1) (Zpos k)
               else Z.shiftr (Zpos m + half) (Zpos k) in
      match n with
      | Z0 => S754_zero s
      | _ => float_of_Z (if s then Z.opp n else n)
      end
  | _ => x
  end.

(** [Math.min] of two Numbers: NaN is contagious, -0 is below +0. *)
Definition Math_min (a b : float) : float :=
  match a, b with
  | S754_nan, _ | _, S754_nan => S754_nan
  | S754_zero sa, S754_zero sb => S754_zero (sa || sb)
  | _, _ => if flt b a then b else a
  end.

Definition f0 : float := pos_zero.
Definition f100 : float := float_of_Z 100.
Definition f99 : float := float_of_Z 99.
Definition f1 : float := float_of_Z 1.

(** ** Rounding, seen on integers

    Views for reasoning about [binary_round_aux] with integer arithmetic:
    the rounded quotient of a shift, the float a rounded mantissa makes,
    and the value of a mantissa and exponent as a scaled integer. *)

Local Open Scope Z_scope.

Definition rnd_m (mrs : shr_record) : Z :=
  round_nearest_even (shr_m mrs) (loc_of_shr_record mrs).

(** The float made of a rounded mantissa [q] at exponent [e]. *)
Definition round_result (q e : Z) : float :=
  if q =? 0 then S754_zero false
  else if q <? 2 ^ 53 then
    if e <=? 971 then S754_finite false (Z.to_pos q) e else S754_infinity false
  else
    if e + 1 <=? 971 then S754_finite false (Z.to_pos (2 ^ 52)) (e + 1)
    else S754_infinity false.

(** The value [m * 2^e], scaled to an integer. *)
Definition sval (m e : Z) : Z := m * 2 ^ (e + 2200).

(** Zero, a positive finite number or +Infinity. *)
Definition nonneg (x : float) : bool :=
  match x with
  | S754_zero false | S754_finite false _ _ | S754_infinity false => true
  | _ => false
  end.

Local Close Scope Z_scope.

(* ===================================================================== *)
(** * Host model: Number to String and String to Number *)
(* ===================================================================== *)

Definition ch (a : ascii) : N := N_of_ascii a.

Definition is_digit (c : N) : bool := in_range 48 57 c.
Definition ZERO : N := 48.
Definition QUOTE : N := 34.
Definition digit_value (c : N) : N := (c - 48)%N.

(** The decimal digits of a natural number, most significant first. *)
Fixpoint digits_of_aux (fuel : nat) (n : N) (acc : jsstring) : jsstring :=
  match fuel with
  | O => acc
  | S f =>
      let acc' := (48 + N.modulo n 10)%N :: acc in
      if N.ltb n 10 then acc' else digits_of_aux f (N.div n 10) acc'
  end.

Definition digits_of (n : N) : jsstring :=
  digits_of_aux (S (N.to_nat (N.log2 n))) n [].

Definition repeat_unit (c : N) (n : Z) : jsstring := repeat c (Z.to_nat n).

Local Open Scope Z_scope.

(** Is [num/den < 10^n], for positive [num] and [den]? *)
Definition below_pow10 (num den n : Z) : bool :=
  if Z.leb 0 n then Z.ltb num (den * Z.pow 10 n)
  else Z.ltb (num * Z.pow 10 (- n)) den.

(** The least [n] with [num/den < 10^n], searched upwards from [n]. *)
Fixpoint magnitude10_up (fuel : nat) (num den n : Z) : Z :=
  match fuel with
  | O => n
  | S f => if below_pow10 num den n then n else magnitude10_up f num den (n + 1)
  end.

Definition magnitude10 (num den : Z) : Z :=
  magnitude10_up 700 num den (-330).

(** [floor (num/den / 10^p)] *)
Definition scaled_floor (num den p : Z) : Z :=
  if Z.leb 0 p then Z.div num (den * Z.pow 10 p)
  else Z.div (num * Z.pow 10 (- p)) den.

(** The distance between [s * 10^p] and [num/den], up to a positive
    factor that depends on [p] and [den] only. *)
Definition distance (num den s p : Z) : Z :=
  if Z.leb 0 p then Z.abs (s * Z.pow 10 p * den - num)
  else Z.abs (s * den - num * Z.pow 10 (- p)).

(** The digit string [s], the exponent [n] and the digit count [k] of
    Number::toString: the fewest digits whose Number value is [x]. *)
Fixpoint shortest_digits (fuel : nat) (k : Z) (x : float) (num den n0 : Z)
  : Z * Z * Z :=
  let p := n0 - k in
  let lo := scaled_floor num den p in
  let hi := lo + 1 in
  let ok s := Z.leb (Z.pow 10 (k - 1)) s && Z.leb s (Z.pow 10 k) &&
              match float_of_decimal false (Z.to_N s) p with
              | S754_finite _ m e =>
                  match x with
                  | S754_finite _ m' e' => Pos.eqb m m' && Z.eqb e e'
                  | _ => false
                  end
              | _ => false
              end in
  let norm s := if Z.eqb s (Z.pow 10 k) then (Z.pow 10 (k - 1), n0 + 1, k)
                else (s, n0, k) in
  let pick :=
    match ok lo, ok hi with
    | true, false => Some lo
    | false, true => Some hi
    | true, true =>
        match Z.compare (distance num den lo p) (distance num den hi p) with
        | Lt => Some lo
        | Gt => Some hi
        | Eq => Some (if Z.even lo then lo else hi)
        end
    | false, false => None
    end in
  match pick with
  | Some s => norm s
  | None =>
      match fuel with
      | O => norm lo
      | S f => shortest_digits f (k + 1) x num den n0
      end
  end.

Definition Number_toString_pos (m : positive) (e : Z) : jsstring :=
  let num := match e with Zneg _ => Zpos m | _ => Zpos m * Z.pow 2 e end in
  let den := match e with Zneg k => Z.pow 2 (Zpos k) | _ => 1 end in
  let n0 := magnitude10 num den in
  let '(s, n, k) := shortest_digits 17 1 (S754_finite false m e) num den n0 in
  let ds := digits_of (Z.to_N s) in
  if Z.leb (-5) n && Z.leb n 21 then
    if Z.leb k n then ds ++ repeat_unit ZERO (n - k)
    else if Z.ltb 0 n then
      firstn (Z.to_nat n) ds ++ [ch "."] ++ skipn (Z.to_nat n) ds
    else [ZERO; ch "."] ++ repeat_unit ZERO (- n) ++ ds
  else
    let ex := [ch "e"; if Z.leb 0 (n - 1) then ch "+" else ch "-"] ++
              digits_of (Z.to_N (Z.abs (n - 1))) in
    match ds with
    | d :: (_ :: _) as rest => [d; ch "."] ++ rest ++ ex
    | _ => ds ++ ex
    end.

(** Number::toString, radix 10. *)
Definition Number_toString (x : float) : jsstring :=
  match x with
  | S754_nan => js "NaN"
  | S754_zero _ => js "0"
  | S754_infinity s => (if s then [ch "-"] else []) ++ js "Infinity"
  | S754_finite s m e => (if s then [ch "-"] else []) ++ Number_toString_pos m e
  end.

Local Close Scope Z_scope.

(** White space and line terminators trimmed by StringToNumber. *)
Definition is_StrWhiteSpaceChar (c : N) : bool :=
  in_range 0x09 0x0D c || N.eqb c 0x20 || N.eqb c 0xA0 || N.eqb c 0xFEFF ||
  N.eqb c 0x1680 || in_range 0x2000 0x200A c || N.eqb c 0x2028 ||
  N.eqb c 0x2029 || N.eqb c 0x202F || N.eqb c 0x205F || N.eqb c 0x3000.

Fixpoint trim_start (s : jsstring) : jsstring :=
  match s with
  | c :: r => if is_StrWhiteSpaceChar c then trim_start r else s
  | [] => []
  end.

Definition trim (s : jsstring) : jsstring :=
  rev (trim_start (rev (trim_start s))).

(** A run of decimal digits: its value, its length and what follows. *)
Fixpoint take_digits (s : jsstring) (acc : N) (len : nat) : N * nat * jsstring :=
  match s with
  | c :: r =>
      if is_digit c then take_digits r (acc * 10 + digit_value c)%N (S len)
      else (acc, len, s)
  | [] => (acc, len, [])
  end.

Definition digit_in_radix (radix c : N) : option N :=
  let v := if is_digit c then Some (digit_value c)
           else if in_range 97 122 c then Some (c - 87)%N
           else if in_range 65 90 c then Some (c - 55)%N
           else None in
  match v with
  | Some d => if N.ltb d radix then Some d else None
  | None => None
  end.

(** A non-empty run of digits in a radix up to the end of the string. *)
Fixpoint radix_digits (radix : N) (s : jsstring) (acc : N) : option N :=
  match s with
  | [] => Some acc
  | c :: r =>
      match digit_in_radix radix c with
      | Some d => radix_digits radix r (acc * radix + d)%N
      | None => None
      end
  end.

(** The optional exponent part, then the end of the string. *)
Definition exponent_to_end (s : jsstring) : option Z :=
  match s with
  | [] => Some 0%Z
  | c :: r =>
      if N.eqb c (ch "e") || N.eqb c (ch "E") then
        let '(neg, r1) :=
          match r with
          | d :: r' => if N.eqb d (ch "-") then (true, r')
                       else if N.eqb d (ch "+") then (false, r') else (false, r)
          | [] => (false, r)
          end in
        match take_digits r1 0 0 with
        | (_, O, _) => None
        | (v, _, []) => Some (if neg then (- Z.of_N v)%Z else Z.of_N v)
        | _ => None
        end
      else None
  end.

(** StrUnsignedDecimalLiteral up to the end of the string. *)
Definition unsigned_decimal (neg : bool) (s : jsstring) : float :=
  if jsstring_eqb s (js "Infinity") then S754_infinity neg
  else
    let '(ip, ilen, r) := take_digits s 0 0 in
    let '(m, flen, r1) :=
      match r with
      | c :: r' =>
          if N.eqb c (ch ".") then
            let '(m, len, r'') := take_digits r' ip ilen in
            (m, (len - ilen)%nat, r'')
          else (ip, O, r)
      | [] => (ip, O, r)
      end in
    let ndigits := (ilen + flen)%nat in
    match ndigits with
    | O => NaN
    | _ =>
        match exponent_to_end r1 with
        | Some e => float_of_decimal neg m (e - Z.of_nat flen)
        | None => NaN
        end
    end.

(** StringToNumber *)
Definition StringToNumber (str : jsstring) : float :=
  match trim str with
  | [] => pos_zero
  | c :: r =>
      let prefixed radix body :=
        match body with
        | [] => NaN
        | _ => match radix_digits radix body 0 with
               | Some v => float_of_Z (Z.of_N v)
               | None => NaN
               end
        end in
      match r with
      | x :: body =>
          if N.eqb c ZERO && (N.eqb x (ch "x") || N.eqb x (ch "X")) then prefixed 16%N body
          else if N.eqb c ZERO && (N.eqb x (ch "o") || N.eqb x (ch "O")) then prefixed 8%N body
          else if N.eqb c ZERO && (N.eqb x (ch "b") || N.eqb x (ch "B")) then prefixed 2%N body
          else if N.eqb c (ch "-") then unsigned_decimal true r
          else if N.eqb c (ch "+") then unsigned_decimal false r
          else unsigned_decimal false (c :: r)
      | [] => unsigned_decimal false [c]
      end
  end.

(* ===================================================================== *)
(** * Host model: values, coercions and property access *)
(* ===================================================================== *)

(** The values [JSON.parse] produces, and [undefined]. *)
#[warnings="-register-all"]
Inductive value :=
| Undefined
| Null
| Bool (b : bool)
| Num (x : float)
| Str (s : jsstring)
| Arr (elements : list value)
| Obj (props : list (jsstring * value)).

Definition ToBoolean (v : value) : bool :=
  match v with
  | Undefined | Null => false
  | Bool b => b
  | Num (S754_zero _) | Num S754_nan => false
  | Num _ => true
  | Str [] => false
  | Str _ => true
  | Arr _ | Obj _ => true
  end.

(** What the component's handlers can throw. *)
Inductive exn :=
| SyntaxError             (* JSON.parse *)
| TypeError               (* reading a property of null or undefined;
                             converting an object that yields no primitive *)
| InvalidCharacterError.  (* atob *)

Fixpoint lookup (k : jsstring) (props : list (jsstring * value)) : option value :=
  match props with
  | [] => None
  | (k', v) :: rest =>
      match lookup k rest with
      | Some w => Some w
      | None => if jsstring_eqb k' k then Some v else None
      end
  end.

(** [ToString].  An object is converted by calling its [toString] and
    then its [valueOf], and the conversion throws a TypeError when
    neither is a function that returns a primitive.  The values here
    come from [JSON.parse], so an own property is never a function: an
    object with an own [toString] key hides [Object.prototype.toString],
    its [valueOf] (own, or the inherited one, which returns the object)
    yields no primitive either, and the conversion throws; any other
    object is converted by [Object.prototype.toString].  An array has
    index properties only and is converted by [Array.prototype.join],
    which converts the elements in order, [undefined] and [null] to the
    empty string. *)
Definition join_elements (convert : value -> exn + jsstring)
  : bool -> list value -> exn + jsstring :=
  fix join (first : bool) (l : list value) : exn + jsstring :=
    match l with
    | [] => inr []
    | e :: l' =>
        match match e with
              | Undefined | Null => inr []
              | _ => convert e
              end with
        | inl x => inl x
        | inr s =>
            match join false l' with
            | inl x => inl x
            | inr r => inr ((if first then [] else [ch ","]) ++ s ++ r)
            end
        end
    end.

Fixpoint ToString (v : value) : exn + jsstring :=
  match v with
  | Undefined => inr (js "undefined")
  | Null => inr (js "null")
  | Bool true => inr (js "true")
  | Bool false => inr (js "false")
  | Num x => inr (Number_toString x)
  | Str s => inr s
  | Arr l => join_elements ToString true l
  | Obj props =>
      match lookup (js "toString") props with
      | Some _ => inl TypeError
      | None => inr (js "[object Object]")
      end
  end.

(** [ToNumber].  An object or an array is first converted to a
    primitive, [valueOf] before [toString]: the inherited [valueOf]
    returns the object itself and an own one is no function, so the
    primitive is the string [toString] gives, or the conversion
    throws as above. *)
Definition ToNumber (v : value) : exn + float :=
  match v with
  | Undefined => inr NaN
  | Null => inr pos_zero
  | Bool true => inr (float_of_Z 1)
  | Bool false => inr pos_zero
  | Num x => inr x
  | Str s => inr (StringToNumber s)
  | Arr _ | Obj _ =>
      match ToString v with
      | inl e => inl e
      | inr s => inr (StringToNumber s)
      end
  end.

(** [v.k] for the property names the component reads; none of them is
    defined on a prototype, so only objects' own properties answer.  A
    key written twice keeps its last value. *)
Definition get (v : value) (k : string) : exn + value :=
  match v with
  | Undefined | Null => inl TypeError
  | Obj props =>
      match lookup (js k) props with
      | Some w => inr w
      | None => inr Undefined
      end
  | _ => inr Undefined
  end.

(** [v.k] when it does not throw. *)
Definition field (v : value) (k : string) : value :=
  match get v k with
  | inr w => w
  | inl _ => Undefined
  end.

Definition nullish (v : value) : bool :=
  match v with
  | Undefined | Null => true
  | _ => false
  end.

(** [v === 'lit'] *)
Definition strict_eq_str (v : value) (lit : string) : bool :=
  match v with
  | Str s => jsstring_eqb s (js lit)
  | _ => false
  end.

(** [v ?? d] *)
Definition nullish_or (v d : value) : value :=
  match v with
  | Undefined | Null => d
  | _ => v
  end.

(** A payload whose [type] is the given discriminator. *)
Definition is_event (data : value) (discriminator : string) : bool :=
  strict_eq_str (field data "type") discriminator.

(* ===================================================================== *)
(** * Host model: [JSON.parse] *)
(* ===================================================================== *)

Definition is_json_ws (c : N) : bool :=
  N.eqb c 0x20 || N.eqb c 0x09 || N.eqb c 0x0A || N.eqb c 0x0D.

Fixpoint skip_ws (s : jsstring) : jsstring :=
  match s with
  | c :: r => if is_json_ws c then skip_ws r else s
  | [] => []
  end.

Definition hex4 (a b c d : N) : option N :=
  match digit_in_radix 16 a, digit_in_radix 16 b,
        digit_in_radix 16 c, digit_in_radix 16 d with
  | Some x, Some y, Some z, Some w => Some (((x * 16 + y) * 16 + z) * 16 + w)%N
  | _, _, _, _ => None
  end.

(** The characters of a string literal after its opening quote. *)
Fixpoint json_string (s : jsstring) (acc : jsstring) : option (jsstring * jsstring) :=
  match s with
  | [] => None
  | c :: r =>
      if N.eqb c (QUOTE) then Some (rev acc, r)
      else if N.eqb c (ch "\") then
        match r with
        | e :: r' =>
            if N.eqb e (ch "u") then
              match r' with
              | h1 :: h2 :: h3 :: h4 :: r'' =>
                  match hex4 h1 h2 h3 h4 with
                  | Some u => json_string r'' (u :: acc)
                  | None => None
                  end
              | _ => None
              end
            else
              let simple :=
                if N.eqb e (QUOTE) then Some (QUOTE)
                else if N.eqb e (ch "\") then Some (ch "\")
                else if N.eqb e (ch "/") then Some (ch "/")
                else if N.eqb e (ch "b") then Some 8%N
                else if N.eqb e (ch "f") then Some 12%N
                else if N.eqb e (ch "n") then Some 10%N
                else if N.eqb e (ch "r") then Some 13%N
                else if N.eqb e (ch "t") then Some 9%N
                else None in
              match simple with
              | Some u => json_string r' (u :: acc)
              | None => None
              end
        | [] => None
        end
      else if N.ltb c 0x20 then None
      else json_string r (c :: acc)
  end.

(** A number literal at the head of [s]. *)
Definition json_number (s : jsstring) : option (float * jsstring) :=
  let '(neg, s1) :=
    match s with
    | c :: r => if N.eqb c (ch "-") then (true, r) else (false, s)
    | [] => (false, s)
    end in
  let int_part :=
    match s1 with
    | c :: r =>
        if N.eqb c ZERO then Some (0%N, 1%nat, r)
        else if is_digit c then Some (take_digits s1 0 0)
        else None
    | [] => None
    end in
  match int_part with
  | None => None
  | Some (ip, ilen, r) =>
      let frac :=
        match r with
        | c :: r' =>
            if N.eqb c (ch ".") then
              match take_digits r' ip ilen with
              | (m, len, r'') =>
                  if Nat.eqb len ilen then None
                  else Some (m, (len - ilen)%nat, r'')
              end
            else Some (ip, O, r)
        | [] => Some (ip, O, r)
        end in
      match frac with
      | None => None
      | Some (m, flen, r1) =>
          let expo :=
            match r1 with
            | c :: r' =>
                if N.eqb c (ch "e") || N.eqb c (ch "E") then
                  let '(eneg, r2) :=
                    match r' with
                    | d :: r'' => if N.eqb d (ch "-") then (true, r'')
                                  else if N.eqb d (ch "+") then (false, r'')
                                  else (false, r')
                    | [] => (false, r')
                    end in
                  match take_digits r2 0 0 with
                  | (_, O, _) => None
                  | (v, _, r3) =>
                      Some (if eneg then (- Z.of_N v)%Z else Z.of_N v, r3)
                  end
                else Some (0%Z, r1)
            | [] => Some (0%Z, r1)
            end in
          match expo with
          | None => None
          | Some (e, rest) =>
              Some (float_of_decimal neg m (e - Z.of_nat flen), rest)
          end
      end
  end.

Definition expect (lit : string) (v : value) (s : jsstring)
  : option (value * jsstring) :=
  if startsWith s (js lit) then Some (v, skipn (String.length lit) s) else None.

(** Recursive descent; every call consumes fuel, and a text of [n] code
    units needs fewer than [2 * n + 2] calls. *)
Fixpoint json_value (fuel : nat) (s : jsstring) : option (value * jsstring) :=
  match fuel with
  | O => None
  | S f =>
      match skip_ws s with
      | [] => None
      | c :: r =>
          if N.eqb c (ch "{") then
            match skip_ws r with
            | d :: r' =>
                if N.eqb d (ch "}") then Some (Obj [], r')
                else json_members f (d :: r') []
            | [] => None
            end
          else if N.eqb c (ch "[") then
            match skip_ws r with
            | d :: r' =>
                if N.eqb d (ch "]") then Some (Arr [], r')
                else json_elements f (d :: r') []
            | [] => None
            end
          else if N.eqb c (QUOTE) then
            match json_string r [] with
            | Some (str, rest) => Some (Str str, rest)
            | None => None
            end
          else if N.eqb c (ch "t") then expect "true" (Bool true) (c :: r)
          else if N.eqb c (ch "f") then expect "false" (Bool false) (c :: r)
          else if N.eqb c (ch "n") then expect "null" Null (c :: r)
          else
            match json_number (c :: r) with
            | Some (x, rest) => Some (Num x, rest)
            | None => None
            end
      end
  end

with json_elements (fuel : nat) (s : jsstring) (acc : list value)
  : option (value * jsstring) :=
  match fuel with
  | O => None
  | S f =>
      match json_value f s with
      | None => None
      | Some (v, rest) =>
          match skip_ws rest with
          | c :: r =>
              if N.eqb c (ch ",") then json_elements f r (v :: acc)
              else if N.eqb c (ch "]") then Some (Arr (rev (v :: acc)), r)
              else None
          | [] => None
          end
      end
  end

with json_members (fuel : nat) (s : jsstring) (acc : list (jsstring * value))
  : option (value * jsstring) :=
  match fuel with
  | O => None
  | S f =>
      match skip_ws s with
      | q :: r0 =>
          if N.eqb q (QUOTE) then
            match json_string r0 [] with
            | None => None
            | Some (key, r1) =>
                match skip_ws r1 with
                | c :: r2 =>
                    if N.eqb c (ch ":") then
                      match json_value f r2 with
                      | None => None
                      | Some (v, rest) =>
                          match skip_ws rest with
                          | d :: r =>
                              if N.eqb d (ch ",") then json_members f r ((key, v) :: acc)
                              else if N.eqb d (ch "}") then
                                Some (Obj (rev ((key, v) :: acc)), r)
                              else None
                          | [] => None
                          end
                      end
                    else None
                | [] => None
                end
            end
          else None
      | [] => None
      end
  end.

(** [JSON.parse(text)]: the value, or a SyntaxError. *)
Definition JSON_parse (text : jsstring) : exn + value :=
  match json_value (2 * List.length text + 2) text with
  | Some (v, rest) =>
      match skip_ws rest with
      | [] => inr v
      | _ => inl SyntaxError
      end
  | None => inl SyntaxError
  end.

(* ===================================================================== *)
(** * Host model: [atob], typed arrays and blobs *)
(* ===================================================================== *)

Definition is_ascii_ws (c : N) : bool :=
  N.eqb c 0x09 || N.eqb c 0x0A || N.eqb c 0x0C || N.eqb c 0x0D || N.eqb c 0x20.

Definition base64_value (c : N) : option N :=
  if in_range 65 90 c then Some (c - 65)%N
  else if in_range 97 122 c then Some (c - 71)%N
  else if in_range 48 57 c then Some (c + 4)%N
  else if N.eqb c (ch "+") then Some 62%N
  else if N.eqb c (ch "/") then Some 63%N
  else None.

Fixpoint base64_values (s : jsstring) : option (list N) :=
  match s with
  | [] => Some []
  | c :: r =>
      match base64_value c, base64_values r with
      | Some v, Some vs => Some (v :: vs)
      | _, _ => None
      end
  end.

(** Groups of four sextets give three bytes; two left over give one byte,
    three give two, the spare bits are dropped. *)
Fixpoint base64_bytes (vs : list N) : jsstring :=
  match vs with
  | a :: b :: c :: d :: rest =>
      let w := (((a * 64 + b) * 64 + c) * 64 + d)%N in
      N.shiftr w 16 :: N.land (N.shiftr w 8) 0xFF :: N.land w 0xFF ::
      base64_bytes rest
  | [a; b; c] =>
      let w := ((a * 64 + b) * 64 + c)%N in
      [N.shiftr w 10; N.land (N.shiftr w 2) 0xFF]
  | [a; b] => [N.shiftr (a * 64 + b)%N 4]
  | _ => []
  end.

Definition strip_padding (s : jsstring) : jsstring :=
  if Nat.eqb (Nat.modulo (List.length s) 4) 0 then
    match rev s with
    | a :: b :: r =>
        if N.eqb a (ch "=") then
          if N.eqb b (ch "=") then rev r else rev (b :: r)
        else s
    | _ => s
    end
  else s.

(** [atob(data)] on a string: forgiving-base64 decode, giving a string of
    code units below 256. *)
Definition atob (data : jsstring) : exn + jsstring :=
  let d := strip_padding (filter (fun c => negb (is_ascii_ws c)) data) in
  if Nat.eqb (Nat.modulo (List.length d) 4) 1 then inl InvalidCharacterError
  else match base64_values d with
       | Some vs => inr (base64_bytes vs)
       | None => inl InvalidCharacterError
       end.

(** [atob(v)] on a value: the argument is converted to a string first,
    and the conversion may throw. *)
Definition atob_value (v : value) : exn + jsstring :=
  match ToString v with
  | inl e => inl e
  | inr data => atob data
  end.

(** [new Uint8Array(numbers)]: every element modulo 256. *)
Definition Uint8Array (numbers : list N) : list byte :=
  map (fun n => match Byte.of_N (N.modulo n 256) with
                | Some b => b
                | None => x00
                end) numbers.

Record Blob := { blob_parts : list byte; blob_type : jsstring }.

(** An object URL stands for the blob it was created from. *)
Definition createObjectURL (b : Blob) : Blob := b.

Definition xlsx_mime : jsstring :=
  js "application/vnd.openxmlformats-officedocument.spreadsheetml.sheet".

(* ===================================================================== *)
(** * Types shared by the two revisions of the component *)
(* ===================================================================== *)

(** The interface declares numbers; what is stored is whatever the
    payload held. *)
Record ProcessingResult := {
  total : value;
  encontrados : value;
  noEncontrados : value;
  errores : value
}.

Module ApiError.
Record t := {
  message : value;
  status : option N;
  details : option jsstring
}.
End ApiError.

Inductive ApiStatus := checking | online | offline.

Record File := { name : jsstring }.

(** What a [catch] clause can receive from the transport. *)
Inductive thrown :=
| ErrorObject (msg : jsstring)    (* err instanceof Error *)
| OtherThrown.

Definition error_message_of (err : thrown) : jsstring :=
  match err with
  | ErrorObject m => m
  | OtherThrown => js "Error desconocido"
  end.

(* ===================================================================== *)
(** * Choosing a file: [isValidFile] and [formatFileSize] *)
(* ===================================================================== *)

(** [s.toLowerCase()] on a name of ASCII code units: the letters A to Z
    move to a to z and every other unit stays.  The host also maps
    letters beyond ASCII; what is proved of a name assumes [is_ascii]. *)
Definition toLowerCase_unit (c : N) : N :=
  if in_range 65 90 c then (c + 32)%N else c.

Definition toLowerCase (s : jsstring) : jsstring := map toLowerCase_unit s.

Definition is_ascii (s : jsstring) : bool := forallb (fun c => N.ltb c 128) s.

(** [s.endsWith(suffix)] *)
Definition endsWith (s suffix : jsstring) : bool :=
  Nat.leb (List.length suffix) (List.length s) &&
  jsstring_eqb (skipn (List.length s - List.length suffix) s) suffix.

Definition validExtensions : list jsstring :=
  [js ".xlsx"; js ".xls"; js ".xlsm"].

Definition isValidFile (file : File) : bool :=
  existsb (fun ext => endsWith (toLowerCase (name file)) ext) validExtensions.

Local Open Scope Z_scope.

(** [x.toFixed(f)] works on the exact value of [x].  For [x = m * 2^e]
    this is the integer [n] for which [n / 10^f - x] is closest to zero,
    the larger of the two on a tie. *)
Definition nearest_scaled (f : nat) (m : positive) (e : Z) : Z :=
  let scaled := Z.pos m * 10 ^ Z.of_nat f in
  if 0 <=? e then scaled * 2 ^ e
  else (2 * scaled + 2 ^ (- e)) / 2 ^ (1 - e).

(** [m * 2^e >= 10^21] *)
Definition at_least_1e21 (m : positive) (e : Z) : bool :=
  if 0 <=? e then 10 ^ 21 <=? Z.pos m * 2 ^ e
  else 10 ^ 21 * 2 ^ (- e) <=? Z.pos m.

(** The digits of [n] with a point before the last [f] of them, zeros
    put in front when there are too few. *)
Definition fixed_point (f : nat) (n : Z) : jsstring :=
  let m := digits_of (Z.to_N n) in
  match f with
  | O => m
  | _ =>
      let m := repeat ZERO (f + 1 - List.length m) ++ m in
      let k := List.length m in
      firstn (k - f) m ++ ch "." :: skipn (k - f) m
  end.

Definition toFixed (fractionDigits : nat) (x : float) : jsstring :=
  match x with
  | S754_zero _ => fixed_point fractionDigits 0
  | S754_finite s m e =>
      (if s then [ch "-"] else []) ++
      (if at_least_1e21 m e then Number_toString (S754_finite false m e)
       else fixed_point fractionDigits (nearest_scaled fractionDigits m e))
  | _ => Number_toString x
  end.

Local Close Scope Z_scope.

Definition f1024 : float := float_of_Z 1024.

Definition formatFileSize (bytes : float) : jsstring :=
  if flt bytes f1024 then Number_toString bytes ++ js " B"
  else if flt bytes (fmul f1024 f1024) then
    toFixed 1 (fdiv bytes f1024) ++ js " KB"
  else toFixed 1 (fdiv bytes (fmul f1024 f1024)) ++ js " MB".

(* ===================================================================== *)
(** * The streaming revision: [processFile] and [handleSSEEvent] *)
(* ===================================================================== *)

Module LogEntry.
Inductive kind := info | found | not_found | error | complete.

(** [timestamp] is a wall-clock reading and is left out.  Optional
    fields that an entry does not set are [Undefined]. *)
Record t := {
  id : N;
  type : kind;
  row : value;
  direccion : value;
  municipio : value;
  cp : value;
  message : value
}.
End LogEntry.

(** What [addLogEntry] is given: an entry without [id] and [timestamp]. *)
Definition entry (k : LogEntry.kind) (row direccion municipio cp message : value)
  (i : N) : LogEntry.t :=
  {| LogEntry.id := i; LogEntry.type := k; LogEntry.row := row;
     LogEntry.direccion := direccion; LogEntry.municipio := municipio;
     LogEntry.cp := cp; LogEntry.message := message |}.

Definition message_entry (k : LogEntry.kind) (message : value) : N -> LogEntry.t :=
  entry k Undefined Undefined Undefined Undefined message.

Module Stream.

(** One line of [console.warn]: its label and the exception caught. *)
Record warning := { label : jsstring; caught : exn }.

(** The component's state variables and refs, and the console. *)
Record AppState := {
  apiStatus : ApiStatus;
  file : option File;
  isProcessing : bool;
  progress : float;
  totalRows : value;
  result : option ProcessingResult;
  downloadUrl : option Blob;
  downloadFilename : value;
  error : option ApiError.t;
  elapsedTime : float;
  logEntries : list LogEntry.t;
  showLog : bool;
  timerInterval : bool;      (* timerIntervalRef holds a live interval *)
  logId : N;                 (* logIdRef.current *)
  console : list warning
}.

(** A computation over the state that may throw; the state reached at
    the throw is kept, as the setters already ran. *)
Definition M (A : Type) : Type := AppState -> AppState * (exn + A).

Definition ret {A} (a : A) : M A := fun st => (st, inr a).

Definition bind {A B} (c : M A) (k : A -> M B) : M B :=
  fun st =>
    match c st with
    | (st', inr a) => k a st'
    | (st', inl e) => (st', inl e)
    end.

Definition lift {A} (r : exn + A) : M A := fun st => (st, r).

Definition modify (f : AppState -> AppState) : M unit :=
  fun st => (f st, inr tt).

Notation "x <- c ;; k" := (bind c (fun x => k))
  (at level 61, c at next level, right associativity).
Notation "c ;;; k" := (bind c (fun _ => k))
  (at level 61, right associativity).

(** The setters. *)
Definition setProgress (x : float) (st : AppState) : AppState :=
  {| apiStatus := apiStatus st; file := file st; isProcessing := isProcessing st;
     progress := x; totalRows := totalRows st; result := result st;
     downloadUrl := downloadUrl st; downloadFilename := downloadFilename st;
     error := error st; elapsedTime := elapsedTime st;
     logEntries := logEntries st; showLog := showLog st;
     timerInterval := timerInterval st; logId := logId st; console := console st |}.

Definition setTotalRows (v : value) (st : AppState) : AppState :=
  {| apiStatus := apiStatus st; file := file st; isProcessing := isProcessing st;
     progress := progress st; totalRows := v; result := result st;
     downloadUrl := downloadUrl st; downloadFilename := downloadFilename st;
     error := error st; elapsedTime := elapsedTime st;
     logEntries := logEntries st; showLog := showLog st;
     timerInterval := timerInterval st; logId := logId st; console := console st |}.

Definition setResult (r : option ProcessingResult) (st : AppState) : AppState :=
  {| apiStatus := apiStatus st; file := file st; isProcessing := isProcessing st;
     progress := progress st; totalRows := totalRows st; result := r;
     downloadUrl := downloadUrl st; downloadFilename := downloadFilename st;
     error := error st; elapsedTime := elapsedTime st;
     logEntries := logEntries st; showLog := showLog st;
     timerInterval := timerInterval st; logId := logId st; console := console st |}.

Definition setDownloadUrl (u : option Blob) (st : AppState) : AppState :=
  {| apiStatus := apiStatus st; file := file st; isProcessing := isProcessing st;
     progress := progress st; totalRows := totalRows st; result := result st;
     downloadUrl := u; downloadFilename := downloadFilename st;
     error := error st; elapsedTime := elapsedTime st;
     logEntries := logEntries st; showLog := showLog st;
     timerInterval := timerInterval st; logId := logId st; console := console st |}.

Definition setDownloadFilename (v : value) (st : AppState) : AppState :=
  {| apiStatus := apiStatus st; file := file st; isProcessing := isProcessing st;
     progress := progress st; totalRows := totalRows st; result := result st;
     downloadUrl := downloadUrl st; downloadFilename := v;
     error := error st; elapsedTime := elapsedTime st;
     logEntries := logEntries st; showLog := showLog st;
     timerInterval := timerInterval st; logId := logId st; console := console st |}.

Definition setError (e : option ApiError.t) (st : AppState) : AppState :=
  {| apiStatus := apiStatus st; file := file st; isProcessing := isProcessing st;
     progress := progress st; totalRows := totalRows st; result := result st;
     downloadUrl := downloadUrl st; downloadFilename := downloadFilename st;
     error := e; elapsedTime := elapsedTime st;
     logEntries := logEntries st; showLog := showLog st;
     timerInterval := timerInterval st; logId := logId st; console := console st |}.

Definition console_warn (l : string) (e : exn) (st : AppState) : AppState :=
  {| apiStatus := apiStatus st; file := file st; isProcessing := isProcessing st;
     progress := progress st; totalRows := totalRows st; result := result st;
     downloadUrl := downloadUrl st; downloadFilename := downloadFilename st;
     error := error st; elapsedTime := elapsedTime st;
     logEntries := logEntries st; showLog := showLog st;
     timerInterval := timerInterval st; logId := logId st;
     console := console st ++ [{| label := js l; caught := e |}] |}.

(** [addLogEntry]: the ref is incremented and the entry, numbered with
    it, is appended (the state updater is taken to run at the call). *)
Definition addLogEntry (e : N -> LogEntry.t) (st : AppState) : AppState :=
  let i := (logId st + 1)%N in
  {| apiStatus := apiStatus st; file := file st; isProcessing := isProcessing st;
     progress := progress st; totalRows := totalRows st; result := result st;
     downloadUrl := downloadUrl st; downloadFilename := downloadFilename st;
     error := error st; elapsedTime := elapsedTime st;
     logEntries := logEntries st ++ [e i]; showLog := showLog st;
     timerInterval := timerInterval st; logId := i; console := console st |}.

Definition api_error (m : value) : ApiError.t :=
  {| ApiError.message := m; ApiError.status := None; ApiError.details := None |}.

(** [handleSSEEvent]: a [switch] on [data.type] without a default.  The
    arguments of a call are evaluated before it: a template literal or a
    division whose operand does not convert throws after the setters
    above it ran and before the call it is an argument of. *)
Definition handleSSEEvent (data : value) : M unit :=
  ty <- lift (get data "type") ;;
  if strict_eq_str ty "start" then
    t <- lift (get data "total") ;;
    modify (setTotalRows t) ;;;
    t' <- lift (get data "total") ;;
    text <- lift (ToString t') ;;
    modify (addLogEntry (message_entry LogEntry.info
      (Str (js "Archivo cargado: " ++ text ++ js " filas detectadas"))))
  else if strict_eq_str ty "progress" then
    stats <- lift (get data "stats") ;;
    procesadas <- lift (get stats "procesadas") ;;
    t <- lift (get data "total") ;;
    p <- lift (ToNumber procesadas) ;;
    n <- lift (ToNumber t) ;;
    modify (setProgress (Math_round (fmul (fdiv p n) f100))) ;;;
    st <- lift (get data "status") ;;
    r <- lift (get data "row") ;;
    d <- lift (get data "direccion") ;;
    m <- lift (get data "municipio") ;;
    c <- lift (get data "cp") ;;
    modify (addLogEntry
      (entry (if strict_eq_str st "found" then LogEntry.found
              else LogEntry.not_found) r d m c Undefined))
  else if strict_eq_str ty "row_error" then
    r <- lift (get data "row") ;;
    e <- lift (get data "error") ;;
    modify (addLogEntry
      (entry LogEntry.error r Undefined Undefined Undefined e))
  else if strict_eq_str ty "error" then
    m <- lift (get data "message") ;;
    modify (addLogEntry (message_entry LogEntry.error m)) ;;;
    m' <- lift (get data "message") ;;
    modify (setError (Some (api_error m')))
  else if strict_eq_str ty "complete" then
    modify (setProgress f100) ;;;
    stats <- lift (get data "stats") ;;
    p <- lift (get stats "procesadas") ;;
    stats <- lift (get data "stats") ;;
    e <- lift (get stats "encontradas") ;;
    stats <- lift (get data "stats") ;;
    n <- lift (get stats "no_encontradas") ;;
    stats <- lift (get data "stats") ;;
    r <- lift (get stats "errores") ;;
    modify (setResult (Some {| total := p; encontrados := e;
                               noEncontrados := n; errores := r |})) ;;;
    el <- lift (get data "elapsed") ;;
    text <- lift (ToString el) ;;
    modify (addLogEntry (message_entry LogEntry.complete
      (Str (js "Completado en " ++ text)))) ;;;
    f <- lift (get data "file") ;;
    if ToBoolean f then
      f' <- lift (get data "file") ;;
      byteCharacters <- lift (atob_value f') ;;
      let byteArray := Uint8Array byteCharacters in
      let blob := {| blob_parts := byteArray; blob_type := xlsx_mime |} in
      modify (setDownloadUrl (Some (createObjectURL blob))) ;;;
      fn <- lift (get data "filename") ;;
      modify (setDownloadFilename fn)
    else ret tt
  else ret tt.

(** What [reader.read()] resolves to. *)
Record read_result := { done : bool; value_ : option (list byte) }.

(** The body of the response: the chunks the reader hands out, then
    either the end of the stream or a read that rejects. *)
Inductive stream_end := EndOfStream | ReadRejects (err : thrown).

Record body_stream := { chunks : list (list byte); ending : stream_end }.

(** The fetch of [/procesar-excel-stream]. *)
Record Response := {
  response_status : N;
  statusText : jsstring;
  body : option body_stream     (* response.body?.getReader() *)
}.

Definition response_ok (r : Response) : bool :=
  in_range 200 299 (response_status r).

Inductive fetch_outcome :=
| FetchRejects (err : thrown)
| FetchResolves (r : Response).

Section ReadLoop.
(** The loop of [processFile] over what it does with a frame; [final]
    tells the frame left in the buffer at the end of the stream. *)
Variable A : Type.
Variable on_frame : bool -> A -> jsstring -> A.

Record loop_state := { decoder : utf8_decoder; buffer : jsstring; acc : A }.

Definition for_lines (lines : list jsstring) (a : A) : A :=
  fold_left
    (fun a line =>
       if startsWith line data_prefix then on_frame false a line else a)
    lines a.

(** One turn of [while (true)], from the [read] to the [break] test. *)
Definition iteration (st : loop_state) (r : read_result) : loop_state :=
  let '(dec, buf) :=
    match value_ r with
    | Some v =>
        let (d, text) := decode_stream (decoder st) v in
        (d, buffer st ++ text)
    | None => (decoder st, buffer st)
    end in
  let '(lines, last) := pop (split LF buf) in
  let buf' := or_empty last in
  let a := for_lines lines (acc st) in
  if done r then
    {| decoder := dec; buffer := buf';
       acc := if startsWith buf' data_prefix then on_frame true a buf' else a |}
  else {| decoder := dec; buffer := buf'; acc := a |}.

Fixpoint read_chunks (st : loop_state) (cs : list (list byte)) : loop_state :=
  match cs with
  | [] => st
  | c :: cs' =>
      read_chunks (iteration st {| done := false; value_ := Some c |}) cs'
  end.

(** The whole loop: the accumulator it ends with and, when a read
    rejects, what it throws. *)
Definition read_loop (a : A) (b : body_stream) : A * option thrown :=
  let st := read_chunks
              {| decoder := new_TextDecoder; buffer := []; acc := a |}
              (chunks b) in
  match ending b with
  | EndOfStream =>
      (acc (iteration st {| done := true; value_ := None |}), None)
  | ReadRejects err => (acc st, Some err)
  end.
End ReadLoop.

(** The frames of a stream, in the order the loop reaches them. *)
Definition frames_of (b : body_stream) : list jsstring :=
  fst (read_loop (fun _ fs line => fs ++ [line]) [] b).

(** FrameDecoder of the specification: [feed] for each chunk, [finish]
    once at the end. *)
Definition frames (cs : list (list byte)) : list jsstring :=
  frames_of {| chunks := cs; ending := EndOfStream |}.

(** The [try]/[catch] around each frame. *)
Definition process_frame (final : bool) (st : AppState) (line : jsstring)
  : AppState :=
  let l := if final then "Error parsing final SSE:"%string
           else "Error parsing SSE:"%string in
  match JSON_parse (slice line 6) with
  | inl e => console_warn l e st
  | inr data =>
      match handleSSEEvent data st with
      | (st', inr _) => st'
      | (st', inl e) => console_warn l e st'
      end
  end.

Definition setRunning (b : bool) (timer : bool) (st : AppState) : AppState :=
  {| apiStatus := apiStatus st; file := file st; isProcessing := b;
     progress := progress st; totalRows := totalRows st; result := result st;
     downloadUrl := downloadUrl st; downloadFilename := downloadFilename st;
     error := error st; elapsedTime := elapsedTime st;
     logEntries := logEntries st; showLog := showLog st;
     timerInterval := timer; logId := logId st; console := console st |}.

(** The state after the resets that open [processFile]. *)
Definition reset_run (st : AppState) : AppState :=
  {| apiStatus := apiStatus st; file := file st; isProcessing := true;
     progress := f0; totalRows := Num f0; result := None;
     downloadUrl := None; downloadFilename := downloadFilename st;
     error := None; elapsedTime := f0;
     logEntries := []; showLog := true;
     timerInterval := true; logId := 0; console := console st |}.

(** Up to the [try]: the resets, the timer and the first log entry. *)
Definition start_run (f : File) (st : AppState) : AppState :=
  addLogEntry (message_entry LogEntry.info
    (Str (js "Iniciando procesamiento de " ++ name f ++ js "...")))
    (reset_run st).

(** The [try] block: the state it reaches and what it throws. *)
Definition try_block (net : fetch_outcome) (st : AppState)
  : AppState * option thrown :=
  match net with
  | FetchRejects err => (st, Some err)
  | FetchResolves r =>
      if negb (response_ok r) then
        (st, Some (ErrorObject (js "Error " ++ digits_of (response_status r) ++
                                js ": " ++ statusText r)))
      else
        match body r with
        | None => (st, Some (ErrorObject (js "No se pudo leer la respuesta")))
        | Some b => read_loop process_frame st b
        end
  end.

Definition catch_block (err : thrown) (st : AppState) : AppState :=
  let errorMessage := error_message_of err in
  setError (Some (api_error (Str errorMessage)))
    (addLogEntry (message_entry LogEntry.error
                    (Str (js "Error: " ++ errorMessage))) st).

(** [clearInterval] and [setIsProcessing(false)] *)
Definition finally_block (st : AppState) : AppState :=
  setRunning false false st.

(** [processFile], given what the network does. *)
Definition processFile (net : fetch_outcome) (st : AppState) : AppState :=
  match file st, apiStatus st with
  | Some f, online =>
      let '(st2, thrown) := try_block net (start_run f st) in
      finally_block
        match thrown with
        | Some err => catch_block err st2
        | None => st2
        end
  | _, _ => st
  end.

(** Views used to state what the loop computes: the text the decoder
    yields for the whole stream, its terminated lines, the unterminated
    rest, and the frames among them. *)
Definition stream_text (cs : list (list byte)) : jsstring :=
  snd (decode_stream new_TextDecoder (List.concat cs)).

Definition terminated_lines (t : jsstring) : list jsstring :=
  fst (pop (split LF t)).

Definition pending (t : jsstring) : jsstring :=
  or_empty (snd (pop (split LF t))).

Definition has_prefix (line : jsstring) : bool := startsWith line data_prefix.

Definition tagged_frames (t : jsstring) : list (bool * jsstring) :=
  map (pair false) (filter has_prefix (terminated_lines t)) ++
  (if has_prefix (pending t) then [(true, pending t)] else []).

(** What the component renders from: every state variable, without the
    refs and the console. *)
Record rendered := {
  r_isProcessing : bool;
  r_progress : float;
  r_totalRows : value;
  r_result : option ProcessingResult;
  r_downloadUrl : option Blob;
  r_downloadFilename : value;
  r_error : option ApiError.t;
  r_logEntries : list LogEntry.t;
  r_showLog : bool
}.

Definition render (st : AppState) : rendered :=
  {| r_isProcessing := isProcessing st; r_progress := progress st;
     r_totalRows := totalRows st; r_result := result st;
     r_downloadUrl := downloadUrl st;
     r_downloadFilename := downloadFilename st; r_error := error st;
     r_logEntries := logEntries st; r_showLog := showLog st |}.

(** A failure is surfaced when the rendered state tells it: an error is
    stored, or an entry of kind [error] enters the log. *)
Definition surfaced (before after : AppState) : Prop :=
  error after <> error before \/
  exists e, In e (logEntries after) /\ ~ In e (logEntries before) /\
            LogEntry.type e = LogEntry.error.

Definition run_frames (fs : list (bool * jsstring)) (st : AppState) : AppState :=
  fold_left (fun a f => process_frame (fst f) a (snd f)) fs st.

(** The log of [st'] is the log of [st] with entries appended. *)
Definition log_extends (st st' : AppState) : Prop :=
  exists l, logEntries st' = logEntries st ++ l.

(** The component as it mounts: the initial values of its state
    variables and refs. *)
Definition initial : AppState :=
  {| apiStatus := checking; file := None; isProcessing := false;
     progress := f0; totalRows := Num f0; result := None;
     downloadUrl := None; downloadFilename := Str (js "resultado.xlsx");
     error := None; elapsedTime := f0; logEntries := []; showLog := false;
     timerInterval := false; logId := 0; console := [] |}.

(** A file chosen and the API found online. *)
Definition ready : AppState :=
  {| apiStatus := online; file := Some {| name := js "calles.xlsx" |};
     isProcessing := false;
     progress := f0; totalRows := Num f0; result := None;
     downloadUrl := None; downloadFilename := Str (js "resultado.xlsx");
     error := None; elapsedTime := f0; logEntries := []; showLog := false;
     timerInterval := false; logId := 0; console := [] |}.

(* ------------------------------------------------------------------- *)
(** The handlers around the run: choosing and removing a file, checking
    the API, downloading the result.  The URL of the API is left out:
    what a fetch does is given. *)

Definition setApiStatus (a : ApiStatus) (st : AppState) : AppState :=
  {| apiStatus := a; file := file st; isProcessing := isProcessing st;
     progress := progress st; totalRows := totalRows st; result := result st;
     downloadUrl := downloadUrl st; downloadFilename := downloadFilename st;
     error := error st; elapsedTime := elapsedTime st;
     logEntries := logEntries st; showLog := showLog st;
     timerInterval := timerInterval st; logId := logId st; console := console st |}.

Definition setFile (f : option File) (st : AppState) : AppState :=
  {| apiStatus := apiStatus st; file := f; isProcessing := isProcessing st;
     progress := progress st; totalRows := totalRows st; result := result st;
     downloadUrl := downloadUrl st; downloadFilename := downloadFilename st;
     error := error st; elapsedTime := elapsedTime st;
     logEntries := logEntries st; showLog := showLog st;
     timerInterval := timerInterval st; logId := logId st; console := console st |}.

Definition setLogEntries (l : list LogEntry.t) (st : AppState) : AppState :=
  {| apiStatus := apiStatus st; file := file st; isProcessing := isProcessing st;
     progress := progress st; totalRows := totalRows st; result := result st;
     downloadUrl := downloadUrl st; downloadFilename := downloadFilename st;
     error := error st; elapsedTime := elapsedTime st;
     logEntries := l; showLog := showLog st;
     timerInterval := timerInterval st; logId := logId st; console := console st |}.

Definition setShowLog (b : bool) (st : AppState) : AppState :=
  {| apiStatus := apiStatus st; file := file st; isProcessing := isProcessing st;
     progress := progress st; totalRows := totalRows st; result := result st;
     downloadUrl := downloadUrl st; downloadFilename := downloadFilename st;
     error := error st; elapsedTime := elapsedTime st;
     logEntries := logEntries st; showLog := b;
     timerInterval := timerInterval st; logId := logId st; console := console st |}.

(** [checkApiStatus], given what the fetch of the API root does; a
    request the timeout aborts rejects. *)
Definition checkApiStatus (net : fetch_outcome) (st : AppState) : AppState :=
  let st1 := setApiStatus checking st in
  match net with
  | FetchResolves response =>
      if response_ok response then setApiStatus online st1
      else setApiStatus offline st1
  | FetchRejects _ => setApiStatus offline st1
  end.

Definition resetState (st : AppState) : AppState :=
  setShowLog false
    (setLogEntries []
       (setTotalRows (Num f0)
          (setProgress f0
             (setError None (setDownloadUrl None (setResult None st)))))).

(** The component and the flag of the drop zone. *)
Record Page := { app : AppState; isDragging : bool }.

Definition handleDragOver (p : Page) : Page :=
  {| app := app p; isDragging := true |}.

Definition handleDragLeave (p : Page) : Page :=
  {| app := app p; isDragging := false |}.

(** [handleDrop], given [e.dataTransfer.files]. *)
Definition handleDrop (files : list File) (p : Page) : Page :=
  {| app := match hd_error files with
            | Some droppedFile =>
                if isValidFile droppedFile
                then resetState (setFile (Some droppedFile) (app p))
                else app p
            | None => app p
            end;
     isDragging := false |}.

(** [handleFileSelect], given [e.target.files], which may be null. *)
Definition handleFileSelect (files : option (list File)) (st : AppState)
  : AppState :=
  match files with
  | Some l =>
      match hd_error l with
      | Some selectedFile =>
          if isValidFile selectedFile
          then resetState (setFile (Some selectedFile) st)
          else st
      | None => st
      end
  | None => st
  end.

(** [removeFile]; the value of the file input, which it empties, is not
    part of the state. *)
Definition removeFile (st : AppState) : AppState :=
  resetState (setFile None st).

(** [formatTime] on a whole number of seconds. *)
Definition formatTime (seconds : N) : jsstring :=
  let mins := N.div seconds 60 in
  let secs := N.modulo seconds 60 in
  if N.ltb 0 mins then digits_of mins ++ js "m " ++ digits_of secs ++ js "s"
  else digits_of secs ++ js "s".

(** [downloadFile]: without a download nothing happens; with one, the
    link that is clicked, or what the assignment of its [download]
    attribute throws when the stored name does not convert to a
    string, in which case no link is clicked. *)
Record anchor := { href : Blob; download : jsstring }.

Definition downloadFile (st : AppState) : option (exn + anchor) :=
  match downloadUrl st with
  | Some url =>
      match ToString (downloadFilename st) with
      | inl e => Some (inl e)
      | inr filename => Some (inr {| href := url; download := filename |})
      end
  | None => None
  end.

(** What the page shows of the state: whether the start button is
    disabled, and the two counters over the log. *)
Definition start_disabled (st : AppState) : bool :=
  match file st with None => true | Some _ => false end ||
  match apiStatus st with online => false | _ => true end ||
  isProcessing st.



(** The log grows by at most one entry, and the id counter with it. *)
Definition log_step (st st' : AppState) : Prop :=
  (logEntries st' = logEntries st /\ logId st' = logId st) \/
  (exists e, logEntries st' = logEntries st ++ [e] /\
             logId st' = (logId st + 1)%N).

(** The id counter has counted the entries of the log. *)
Definition counted (st : AppState) : Prop :=
  logId st = N.of_nat (List.length (logEntries st)).

End Stream.

(* ===================================================================== *)
(** * The one-shot revision: simulated progress and header summary *)
(* ===================================================================== *)

Module OneShot.

Inductive console_line :=
| Log (rawStats : value)          (* 'Stats from API:' *)
| Warn (statsHeader : jsstring).  (* 'Could not parse stats header:' *)

Record AppState := {
  isProcessing : bool;
  progress : float;
  progressText : jsstring;
  result : option ProcessingResult;
  downloadUrl : option Blob;
  error : option ApiError.t;
  console : list console_line
}.

Definition f30 : float := float_of_Z 30.
Definition f60 : float := float_of_Z 60.
Definition f85 : float := float_of_Z 85.
Definition f95 : float := float_of_Z 95.
Definition f8 : float := float_of_Z 8.
Definition f5 : float := float_of_Z 5.
Definition f2 : float := float_of_Z 2.
Definition f0_5 : float := float_of_decimal false 5 (-1).
Definition f0_1 : float := float_of_decimal false 1 (-1).

(** The updater the progress interval passes to [setProgress], with the
    value [Math.random()] returned to it. *)
Definition tick (prev random : float) : float :=
  let currentProgress :=
    if flt prev f30 then fadd prev (fmul random f8)
    else if flt prev f60 then fadd prev (fmul random f5)
    else if flt prev f85 then fadd prev (fmul random f2)
    else if flt prev f95 then fadd prev (fmul random f0_5)
    else Math_min f99 (fadd prev (fmul random f0_1)) in
  Math_min f99 currentProgress.

(** The progress after a run of ticks. *)
Definition ticks (start : float) (randoms : list float) : float :=
  fold_left tick randoms start.

(** [formatTime] on a whole number of seconds. *)
Definition formatTime (seconds : N) : jsstring :=
  let mins := N.div seconds 60 in
  let secs := N.modulo seconds 60 in
  if N.ltb 0 mins then digits_of mins ++ js "m " ++ digits_of secs ++ js "s"
  else digits_of secs ++ js "s".

(** The body of [if (statsHeader) { try { ... } catch { ... } }]: the
    summary read from the header, and the console line written. *)
Definition stats_of_header (statsHeader : option jsstring)
  : option ProcessingResult * list console_line :=
  match statsHeader with
  | None | Some [] => (None, [])
  | Some h =>
      match JSON_parse h with
      | inl _ => (None, [Warn h])
      | inr rawStats =>
          match get rawStats "procesadas", get rawStats "encontradas",
                get rawStats "no_encontradas", get rawStats "errores" with
          | inr p, inr e, inr n, inr r =>
              (Some {| total := nullish_or p (Num f0);
                       encontrados := nullish_or e (Num f0);
                       noEncontrados := nullish_or n (Num f0);
                       errores := nullish_or r (Num f0) |},
               [Log rawStats])
          | _, _, _, _ => (None, [Log rawStats; Warn h])
          end
      end
  end.

Definition zero_summary : ProcessingResult :=
  {| total := Num f0; encontrados := Num f0;
     noEncontrados := Num f0; errores := Num f0 |}.

(** The [response.ok] branch of [processFile]: the body as a blob, the
    two summary headers, and the seconds elapsed since the start. *)
Definition on_response_ok (blob : Blob) (statsHeader timeHeader : option jsstring)
  (elapsed : N) (st : AppState) : AppState :=
  let '(stats, lines) := stats_of_header statsHeader in
  let timeText :=
    match timeHeader with
    | Some (c :: t) => c :: t
    | _ => formatTime elapsed
    end in
  {| isProcessing := isProcessing st;
     progress := f100;
     progressText := js "Completado en " ++ timeText;
     result := Some match stats with
                    | Some s => s
                    | None => zero_summary
                    end;
     downloadUrl := Some (createObjectURL blob);
     error := error st;
     console := console st ++ lines |}.

(** The step range of the band [prev] falls in. *)
Definition band (prev : float) : float :=
  if flt prev f30 then f8
  else if flt prev f60 then f5
  else if flt prev f85 then f2
  else if flt prev f95 then f0_5
  else f0_1.

(** What [Math.random()] returns: a double in [0, 1). *)
Definition is_random (r : float) : bool :=
  valid r && nonneg r && flt r f1.

(** A percentage the estimator can hold: a double in [0, 99]. *)
Definition percent_ok (p : float) : bool :=
  valid p && nonneg p && fle p f99.

(** The successive outputs of the estimator. *)
Fixpoint trace (start : float) (randoms : list float) : list float :=
  match randoms with
  | [] => []
  | r :: rest => let p := tick start r in p :: trace p rest
  end.

Fixpoint nondecreasing (l : list float) : bool :=
  match l with
  | a :: (b :: _) as rest => fle a b && nondecreasing rest
  | _ => true
  end.

Definition initial : AppState :=
  {| isProcessing := false; progress := f0; progressText := [];
     result := None; downloadUrl := None; error := None; console := [] |}.

(* ------------------------------------------------------------------- *)
(** The whole of the one-shot page: the selections, the file, the API
    status, and [processFile] from its guard to its [finally].  The
    elapsed time shown while a run goes on is a reading of the clock and
    is left out, as is the URL of the API. *)

(** A promise that has settled; a rejection carries what was thrown and,
    for an [Error], the [stack] the host gave it, if any. *)
Inductive settled (A : Type) :=
| Fulfilled (a : A)
| Rejected (err : thrown) (stack : option jsstring).

Arguments Rejected {A} err stack.

(** A response: its status line, the headers the component reads, and
    what each way of reading the body settles to. *)
Record Response := {
  response_status : N;
  statusText : jsstring;
  contentType : option jsstring;
  statsHeader : option jsstring;
  timeHeader : option jsstring;
  blob : settled Blob;
  json : settled value;
  text : settled jsstring
}.

Definition response_ok (r : Response) : bool :=
  in_range 200 299 (response_status r).

(** The lines of [console.error]. *)
Inductive error_line :=
| ApiErrorLine (status : N) (statusText details : jsstring)
| FetchErrorLine (err : thrown).

Record Page := {
  app : AppState;
  apiStatus : ApiStatus;
  provincias : value;
  municipios : value;
  selectedProvincia : jsstring;
  selectedMunicipio : jsstring;
  file : option File;
  isDragging : bool;
  progressInterval : bool;   (* progressIntervalRef holds a live interval *)
  timerInterval : bool;      (* timerIntervalRef holds a live interval *)
  console_errors : list error_line
}.

Definition with_app (f : AppState -> AppState) (p : Page) : Page :=
  {| app := f (app p); apiStatus := apiStatus p; provincias := provincias p;
     municipios := municipios p; selectedProvincia := selectedProvincia p;
     selectedMunicipio := selectedMunicipio p; file := file p;
     isDragging := isDragging p; progressInterval := progressInterval p;
     timerInterval := timerInterval p; console_errors := console_errors p |}.

Definition setApiStatus (a : ApiStatus) (p : Page) : Page :=
  {| app := app p; apiStatus := a; provincias := provincias p;
     municipios := municipios p; selectedProvincia := selectedProvincia p;
     selectedMunicipio := selectedMunicipio p; file := file p;
     isDragging := isDragging p; progressInterval := progressInterval p;
     timerInterval := timerInterval p; console_errors := console_errors p |}.

Definition setProvincias (v : value) (p : Page) : Page :=
  {| app := app p; apiStatus := apiStatus p; provincias := v;
     municipios := municipios p; selectedProvincia := selectedProvincia p;
     selectedMunicipio := selectedMunicipio p; file := file p;
     isDragging := isDragging p; progressInterval := progressInterval p;
     timerInterval := timerInterval p; console_errors := console_errors p |}.

Definition setMunicipios (v : value) (p : Page) : Page :=
  {| app := app p; apiStatus := apiStatus p; provincias := provincias p;
     municipios := v; selectedProvincia := selectedProvincia p;
     selectedMunicipio := selectedMunicipio p; file := file p;
     isDragging := isDragging p; progressInterval := progressInterval p;
     timerInterval := timerInterval p; console_errors := console_errors p |}.

Definition setSelectedProvincia (s : jsstring) (p : Page) : Page :=
  {| app := app p; apiStatus := apiStatus p; provincias := provincias p;
     municipios := municipios p; selectedProvincia := s;
     selectedMunicipio := selectedMunicipio p; file := file p;
     isDragging := isDragging p; progressInterval := progressInterval p;
     timerInterval := timerInterval p; console_errors := console_errors p |}.

Definition setSelectedMunicipio (s : jsstring) (p : Page) : Page :=
  {| app := app p; apiStatus := apiStatus p; provincias := provincias p;
     municipios := municipios p; selectedProvincia := selectedProvincia p;
     selectedMunicipio := s; file := file p;
     isDragging := isDragging p; progressInterval := progressInterval p;
     timerInterval := timerInterval p; console_errors := console_errors p |}.

Definition setFile (f : option File) (p : Page) : Page :=
  {| app := app p; apiStatus := apiStatus p; provincias := provincias p;
     municipios := municipios p; selectedProvincia := selectedProvincia p;
     selectedMunicipio := selectedMunicipio p; file := f;
     isDragging := isDragging p; progressInterval := progressInterval p;
     timerInterval := timerInterval p; console_errors := console_errors p |}.

Definition setIsDragging (b : bool) (p : Page) : Page :=
  {| app := app p; apiStatus := apiStatus p; provincias := provincias p;
     municipios := municipios p; selectedProvincia := selectedProvincia p;
     selectedMunicipio := selectedMunicipio p; file := file p;
     isDragging := b; progressInterval := progressInterval p;
     timerInterval := timerInterval p; console_errors := console_errors p |}.

(** Both interval refs at once: set as the run starts, cleared together. *)
Definition setIntervals (b : bool) (p : Page) : Page :=
  {| app := app p; apiStatus := apiStatus p; provincias := provincias p;
     municipios := municipios p; selectedProvincia := selectedProvincia p;
     selectedMunicipio := selectedMunicipio p; file := file p;
     isDragging := isDragging p; progressInterval := b;
     timerInterval := b; console_errors := console_errors p |}.

Definition console_error (l : error_line) (p : Page) : Page :=
  {| app := app p; apiStatus := apiStatus p; provincias := provincias p;
     municipios := municipios p; selectedProvincia := selectedProvincia p;
     selectedMunicipio := selectedMunicipio p; file := file p;
     isDragging := isDragging p; progressInterval := progressInterval p;
     timerInterval := timerInterval p;
     console_errors := console_errors p ++ [l] |}.

(** The setters of the state variables of the run. *)
Definition setIsProcessing (b : bool) (st : AppState) : AppState :=
  {| isProcessing := b; progress := progress st;
     progressText := progressText st; result := result st;
     downloadUrl := downloadUrl st; error := error st; console := console st |}.

Definition setProgress (x : float) (st : AppState) : AppState :=
  {| isProcessing := isProcessing st; progress := x;
     progressText := progressText st; result := result st;
     downloadUrl := downloadUrl st; error := error st; console := console st |}.

Definition setProgressText (t : jsstring) (st : AppState) : AppState :=
  {| isProcessing := isProcessing st; progress := progress st;
     progressText := t; result := result st;
     downloadUrl := downloadUrl st; error := error st; console := console st |}.

Definition setResult (r : option ProcessingResult) (st : AppState) : AppState :=
  {| isProcessing := isProcessing st; progress := progress st;
     progressText := progressText st; result := r;
     downloadUrl := downloadUrl st; error := error st; console := console st |}.

Definition setDownloadUrl (u : option Blob) (st : AppState) : AppState :=
  {| isProcessing := isProcessing st; progress := progress st;
     progressText := progressText st; result := result st;
     downloadUrl := u; error := error st; console := console st |}.

Definition setError (e : option ApiError.t) (st : AppState) : AppState :=
  {| isProcessing := isProcessing st; progress := progress st;
     progressText := progressText st; result := result st;
     downloadUrl := downloadUrl st; error := e; console := console st |}.

(** [checkApiStatus], given what the fetch of [/provincias] does. *)
Definition checkApiStatus (net : settled Response) (p : Page) : Page :=
  let p1 := setApiStatus checking p in
  match net with
  | Fulfilled response =>
      if response_ok response then
        match json response with
        | Fulfilled data => setApiStatus online (setProvincias data p1)
        | Rejected _ _ => setApiStatus offline p1
        end
      else setApiStatus offline p1
  | Rejected _ _ => setApiStatus offline p1
  end.

(** The effect that loads the municipios, given what the fetch of
    [/municipios/<provincia>] does when it is made. *)
Definition loadMunicipios (net : settled Response) (p : Page) : Page :=
  match selectedProvincia p, apiStatus p with
  | _ :: _, online =>
      match net with
      | Fulfilled response =>
          if response_ok response then
            match json response with
            | Fulfilled data => setMunicipios data p
            | Rejected _ _ => setMunicipios (Arr []) p
            end
          else p
      | Rejected _ _ => setMunicipios (Arr []) p
      end
  | _, _ => setMunicipios (Arr []) p
  end.

(** The [onChange] of the two selects. *)
Definition selectProvincia (v : jsstring) (p : Page) : Page :=
  setSelectedMunicipio [] (setSelectedProvincia v p).

Definition selectMunicipio (v : jsstring) (p : Page) : Page :=
  setSelectedMunicipio v p.

Definition handleDragOver (p : Page) : Page := setIsDragging true p.

Definition handleDragLeave (p : Page) : Page := setIsDragging false p.

Definition handleDrop (files : list File) (p : Page) : Page :=
  let p1 := setIsDragging false p in
  match hd_error files with
  | Some droppedFile =>
      if isValidFile droppedFile
      then with_app (setDownloadUrl None)
             (with_app (setResult None) (setFile (Some droppedFile) p1))
      else p1
  | None => p1
  end.

Definition handleFileSelect (files : option (list File)) (p : Page) : Page :=
  match files with
  | Some l =>
      match hd_error l with
      | Some selectedFile =>
          if isValidFile selectedFile
          then with_app (setDownloadUrl None)
                 (with_app (setResult None) (setFile (Some selectedFile) p))
          else p
      | None => p
      end
  | None => p
  end.

(** [removeFile]; the value of the file input, which it empties, is not
    part of the state. *)
Definition removeFile (p : Page) : Page :=
  with_app (setProgressText [])
    (with_app (setProgress f0)
       (with_app (setError None)
          (with_app (setDownloadUrl None)
             (with_app (setResult None) (setFile None p))))).

(** The button of the error panel: [setError(null)]. *)
Definition dismissError (p : Page) : Page := with_app (setError None) p.

(** [s.includes(sub)] *)
Fixpoint includes (s sub : jsstring) : bool :=
  startsWith s sub ||
  match s with
  | [] => false
  | _ :: s' => includes s' sub
  end.

(** [a || b] *)
Definition or_value (a b : value) : value := if ToBoolean a then a else b.

(** [v?.k] *)
Definition optional_field (v : value) (k : string) : value :=
  if nullish v then Undefined else field v k.

(** The fields of the request body. *)
Inductive form_value := FileField (f : File) | TextField (s : jsstring).

Definition formData (p : Page) (f : File) : list (jsstring * form_value) :=
  [(js "file", FileField f)] ++
  match selectedProvincia p with
  | [] => []
  | s => [(js "filtro_provincia", TextField s)]
  end ++
  match selectedMunicipio p with
  | [] => []
  | s => [(js "filtro_municipio", TextField s)]
  end.

Section ProcessFile.
(** [JSON.stringify(v, null, 2)]: the host's, whatever text it gives. *)
Variable JSON_stringify : value -> jsstring.

(** The [catch] of [processFile]. *)
Definition catch_block (err : thrown) (stack : option jsstring) (p : Page)
  : Page :=
  let p := setIntervals false p in
  let errorMessage := error_message_of err in
  let p := console_error (FetchErrorLine err) p in
  let p := with_app (setError (Some
    {| ApiError.message := Str (js "Error de conexion: " ++ errorMessage);
       ApiError.status := None;
       ApiError.details := match err with
                           | ErrorObject _ => stack
                           | OtherThrown => None
                           end |})) p in
  with_app (setProgressText []) (with_app (setProgress f0) p).

(** The branch of a response that is not ok. *)
Definition on_response_error (response : Response) (p : Page) : Page :=
  let '(errorData, errorDetails) :=
    if match contentType response with
       | Some c => includes c (js "application/json")
       | None => false
       end
    then match json response with
         | Fulfilled data => (data, JSON_stringify data)
         | Rejected _ _ =>
             (Null, js "No se pudo leer la respuesta del servidor")
         end
    else match text response with
         | Fulfilled t => (Null, t)
         | Rejected _ _ =>
             (Null, js "No se pudo leer la respuesta del servidor")
         end in
  let p := console_error
    (ApiErrorLine (response_status response) (statusText response)
       errorDetails) p in
  let p := with_app (setError (Some
    {| ApiError.message :=
         or_value (optional_field errorData "detail")
           (or_value (optional_field errorData "message")
              (Str (js "Error " ++ digits_of (response_status response) ++
                    js ": " ++ statusText response)));
       ApiError.status := Some (response_status response);
       ApiError.details := Some errorDetails |})) p in
  with_app (setProgressText []) (with_app (setProgress f0) p).

(** [processFile], given what the fetch does, the values [Math.random]
    gave to the ticks that ran while it was pending, and the seconds
    that had passed when the response came. *)
Definition processFile (net : settled Response) (randoms : list float)
  (elapsed : N) (p : Page) : Page :=
  match file p, apiStatus p with
  | Some f, online =>
      let p := with_app (setIsProcessing true) p in
      let p := with_app (setProgress f0) p in
      let p := with_app (setProgressText (js "Subiendo archivo...")) p in
      let p := with_app (setResult None) p in
      let p := with_app (setDownloadUrl None) p in
      let p := with_app (setError None) p in
      let p := setIntervals true p in
      let p := with_app (setProgressText
        (js "Procesando direcciones... (esto puede tardar varios minutos)")) p in
      let p := with_app (fun st => setProgress (ticks (progress st) randoms) st) p in
      let p :=
        match net with
        | Fulfilled response =>
            let p := setIntervals false p in
            if response_ok response then
              match blob response with
              | Fulfilled b =>
                  with_app (on_response_ok b (statsHeader response)
                              (timeHeader response) elapsed) p
              | Rejected err stack => catch_block err stack p
              end
            else on_response_error response p
        | Rejected err stack => catch_block err stack p
        end in
      with_app (setIsProcessing false) p
  | _, _ => p
  end.
End ProcessFile.

(** [downloadFile]: the link that is clicked, if there is a download. *)
Record anchor := { href : Blob; download : jsstring }.

Definition downloadFile (p : Page) : option anchor :=
  match downloadUrl (app p) with
  | Some url =>
      Some {| href := url;
              download := js "geocodificado_" ++
                          match file p with
                          | Some {| name := c :: s |} => c :: s
                          | _ => js "resultado.xlsx"
                          end |}
  | None => None
  end.

(** The provincia select is disabled unless the API is online. *)
Definition provincia_disabled (p : Page) : bool :=
  match apiStatus p with
  | online => false
  | _ => true
  end.

(** The municipio select is disabled without a provincia and while
    there are no municipios.  Only an array renders; with anything else
    the page throws while rendering, which leaves no select to use. *)
Definition municipio_disabled (p : Page) : bool :=
  match selectedProvincia p with
  | [] => true
  | _ :: _ =>
      match municipios p with
      | Arr (_ :: _) => false
      | _ => true
      end
  end.

(** What can happen to the page, each with what the outside gives it. *)
Inductive page_event :=
| ProvinciaPicked (v : jsstring)
| MunicipioPicked (v : jsstring)
| StatusChecked (net : settled Response)
| MunicipiosLoaded (net : settled Response)
| FilesDropped (files : list File)
| FilesSelected (files : option (list File))
| FileRemoved
| ErrorDismissed
| RunStarted (net : settled Response) (randoms : list float) (elapsed : N).

Section Events.
Variable JSON_stringify : value -> jsstring.

Definition handle (p : Page) (e : page_event) : Page :=
  match e with
  | ProvinciaPicked v =>
      if provincia_disabled p then p else selectProvincia v p
  | MunicipioPicked v =>
      if municipio_disabled p then p else selectMunicipio v p
  | StatusChecked net => checkApiStatus net p
  | MunicipiosLoaded net => loadMunicipios net p
  | FilesDropped files => handleDrop files p
  | FilesSelected files => handleFileSelect files p
  | FileRemoved => removeFile p
  | ErrorDismissed => dismissError p
  | RunStarted net randoms elapsed =>
      if match file p with None => true | Some _ => false end ||
         match apiStatus p with online => false | _ => true end ||
         isProcessing (app p)
      then p
      else processFile JSON_stringify net randoms elapsed p
  end.

Definition after (events : list page_event) (p : Page) : Page :=
  fold_left handle events p.
End Events.

(** What holds of the page between events: no run is going on, the
    result and the download come together, an error excludes them, the
    progress is at one of its two ends, and a municipio is chosen only
    under a provincia. *)
Definition at_rest (p : Page) : Prop :=
  isProcessing (app p) = false /\
  progressInterval p = false /\
  timerInterval p = false /\
  (result (app p) = None <-> downloadUrl (app p) = None) /\
  (error (app p) <> None ->
   result (app p) = None /\ progress (app p) = f0) /\
  (progress (app p) = f0 \/ progress (app p) = f100) /\
  (selectedMunicipio p <> [] -> selectedProvincia p <> []).

(** The page as it mounts. *)
Definition initial_page : Page :=
  {| app := initial; apiStatus := checking; provincias := Arr [];
     municipios := Arr []; selectedProvincia := []; selectedMunicipio := [];
     file := None; isDragging := false; progressInterval := false;
     timerInterval := false; console_errors := [] |}.

End OneShot.

(* ===================================================================== *)
(** * Sample payloads *)
(* ===================================================================== *)

Definition num (z : Z) : value := Num (float_of_Z z).

Definition sample_stats : value :=
  Obj [(js "procesadas", num 2); (js "encontradas", num 1);
       (js "no_encontradas", num 1); (js "errores", num 0)].

(** A [complete] event without a file. *)
Definition complete_plain : value :=
  Obj [(js "type", Str (js "complete")); (js "stats", sample_stats);
       (js "elapsed", Str (js "5s"))].

(** A [complete] event whose file is the base64 of "hello". *)
Definition complete_with_file : value :=
  Obj [(js "type", Str (js "complete")); (js "stats", sample_stats);
       (js "elapsed", Str (js "5s")); (js "file", Str (js "aGVsbG8="));
       (js "filename", Str (js "salida.xlsx"))].

(** A [complete] event whose file is not base64. *)
Definition complete_bad_file : value :=
  Obj [(js "type", Str (js "complete")); (js "stats", sample_stats);
       (js "elapsed", Str (js "5s")); (js "file", Str (js "!!!"));
       (js "filename", Str (js "salida.xlsx"))].

Definition progress_event (procesadas total_ : Z) : value :=
  Obj [(js "type", Str (js "progress"));
       (js "stats", Obj [(js "procesadas", num procesadas)]);
       (js "total", num total_); (js "status", Str (js "found"));
       (js "row", num 1); (js "direccion", Str (js "A"));
       (js "municipio", Str (js "M")); (js "cp", Str (js "28001"))].

Definition error_event : value :=
  Obj [(js "type", Str (js "error")); (js "message", Str (js "fallo"))].

(** An object [JSON.parse] gives for the text of an object with the one
    key toString: it converts neither to a string nor to a number. *)
Definition unconvertible : value := Obj [(js "toString", num 0)].

Definition start_unconvertible : value :=
  Obj [(js "type", Str (js "start")); (js "total", unconvertible)].

Definition progress_unconvertible : value :=
  Obj [(js "type", Str (js "progress"));
       (js "stats", Obj [(js "procesadas", num 1)]);
       (js "total", unconvertible); (js "status", Str (js "found"))].

Definition complete_unconvertible_elapsed : value :=
  Obj [(js "type", Str (js "complete")); (js "stats", sample_stats);
       (js "elapsed", unconvertible); (js "file", Str (js "aGVsbG8="));
       (js "filename", Str (js "salida.xlsx"))].

Definition complete_unconvertible_file : value :=
  Obj [(js "type", Str (js "complete")); (js "stats", sample_stats);
       (js "elapsed", Str (js "5s")); (js "file", unconvertible);
       (js "filename", Str (js "salida.xlsx"))].

Definition bad_frame : jsstring := js "data: {not json".

(** JSON text for the samples: a quoted string and an object of fields. *)
Definition quoted (s : string) : jsstring := QUOTE :: js s ++ [QUOTE].

Fixpoint json_fields (fs : list (string * jsstring)) : jsstring :=
  match fs with
  | [] => []
  | [(k, v)] => quoted k ++ js ":" ++ v
  | (k, v) :: rest => quoted k ++ js ":" ++ v ++ js "," ++ json_fields rest
  end.

Definition json_object (fs : list (string * jsstring)) : jsstring :=
  js "{" ++ json_fields fs ++ js "}".

Definition frame_of (fs : list (string * jsstring)) : jsstring :=
  data_prefix ++ json_object fs.

Definition sample_stats_text : jsstring :=
  json_object [("procesadas", js "2"); ("encontradas", js "1");
               ("no_encontradas", js "1"); ("errores", js "0")]%string.

Definition complete_plain_frame : jsstring :=
  frame_of [("type", quoted "complete"); ("stats", sample_stats_text);
            ("elapsed", quoted "5s")]%string.

Definition complete_with_file_frame : jsstring :=
  frame_of [("type", quoted "complete"); ("stats", sample_stats_text);
            ("elapsed", quoted "5s"); ("file", quoted "aGVsbG8=");
            ("filename", quoted "salida.xlsx")]%string.

Definition complete_bad_file_frame : jsstring :=
  frame_of [("type", quoted "complete"); ("stats", sample_stats_text);
            ("elapsed", quoted "5s"); ("file", quoted "!!!");
            ("filename", quoted "salida.xlsx")]%string.

Definition error_frame : jsstring :=
  frame_of [("type", quoted "error"); ("message", quoted "fallo")]%string.

Definition progress_frame : jsstring :=
  frame_of [("type", quoted "progress");
            ("stats", json_object [("procesadas", js "1")]);
            ("total", js "2"); ("status", quoted "found"); ("row", js "1");
            ("direccion", quoted "A"); ("municipio", quoted "M");
            ("cp", quoted "28001")]%string.

(** The bytes of a text whose code units are below 256 are given as they
    stand; a character beyond is written as its UTF-8 bytes. *)
Definition utf8 (s : jsstring) : list byte := Uint8Array s.

Definition lines_bytes (ls : list jsstring) : list byte :=
  List.concat (map (fun l => utf8 (l ++ [LF])) ls).

(** A stream of three lines and an unterminated frame; the first frame
    holds U+00E9, the bytes C3 A9 at offsets 6 and 7. *)
Definition sample_stream : list byte :=
  utf8 (data_prefix ++ [0xC3; 0xA9]%N) ++ utf8 [LF] ++
  utf8 (js "ruido") ++ utf8 [LF] ++
  utf8 (js "data: 12") ++ utf8 [LF] ++
  utf8 (js "data: fin").

Definition sample_frames : list jsstring :=
  [data_prefix ++ [0xE9%N]; js "data: 12"; js "data: fin"].

Definition cut_at (n : nat) (bs : list byte) : list (list byte) :=
  [firstn n bs; skipn n bs].

(* ===================================================================== *)
(** * The host model on known values *)
(* ===================================================================== *)

Example Number_toString_samples :
  Number_toString (float_of_decimal false 1 (-1)) = js "0.1" /\
  Number_toString (float_of_Z 28001) = js "28001" /\
  Number_toString (float_of_decimal false 1 21) = js "1e+21" /\
  Number_toString (fdiv (float_of_Z 1) (float_of_Z 3)) = js "0.3333333333333333".
Proof. vm_compute. repeat split. Qed.

Example StringToNumber_samples :
  StringToNumber (js " 12.5e1 ") = float_of_Z 125 /\
  StringToNumber (js "0x1F") = float_of_Z 31 /\
  StringToNumber (js "") = pos_zero /\
  StringToNumber (js "12a") = NaN.
Proof. vm_compute. repeat split. Qed.

Example Math_round_samples :
  Math_round (float_of_decimal false 25 (-1)) = float_of_Z 3 /\
  Math_round (float_of_decimal true 25 (-1)) = float_of_Z (-2) /\
  Math_round (float_of_decimal true 4 (-1)) = neg_zero /\
  Math_round (fmul (fdiv (float_of_Z 23) (float_of_Z 40)) f100) = float_of_Z 57.
Proof. vm_compute. repeat split. Qed.

Example atob_samples :
  atob (js "aGVsbG8=") = inr (js "hello") /\
  atob (js "aGVs bG8") = inr (js "hello") /\
  atob (js "!!!") = inl InvalidCharacterError /\
  atob (js "a") = inl InvalidCharacterError.
Proof. vm_compute. repeat split. Qed.

Example JSON_parse_samples :
  JSON_parse (slice complete_with_file_frame 6) = inr complete_with_file /\
  JSON_parse (slice progress_frame 6) = inr (progress_event 1 2) /\
  JSON_parse (slice error_frame 6) = inr error_event /\
  JSON_parse (slice bad_frame 6) = inl SyntaxError /\
  JSON_parse (js "[1,]") = inl SyntaxError /\
  JSON_parse (js " [[[[[[[[[[null]]]]]]]]]] ") =
    inr (Arr [Arr [Arr [Arr [Arr [Arr [Arr [Arr [Arr [Arr [Null]]]]]]]]]]).
Proof. vm_compute. repeat split. Qed.

Example conversion_samples :
  JSON_parse (json_object [("toString", js "0")]%string) = inr unconvertible /\
  ToString unconvertible = inl TypeError /\
  ToNumber unconvertible = inl TypeError /\
  atob_value unconvertible = inl TypeError /\
  ToString (Obj [(js "valueOf", num 0)]) = inr (js "[object Object]") /\
  ToNumber (Obj []) = inr NaN /\
  ToString (Arr [num 1; Null; Arr [num 2; Undefined; num 3]; Str (js "a")]) =
    inr (js "1,,2,,3,a") /\
  ToString (Arr [num 1; unconvertible]) = inl TypeError /\
  ToNumber (Arr [Str (js "5")]) = inr (float_of_Z 5) /\
  ToNumber (Arr []) = inr pos_zero /\
  atob_value (Bool true) = atob (js "true").
Proof. vm_compute. repeat split. Qed.

(** A field that does not convert makes its handler throw where the
    conversion stands: after [setTotalRows], before [setProgress],
    after [setResult], and in the argument of [atob]. *)
Example unconvertible_fields :
  Stream.handleSSEEvent start_unconvertible Stream.ready =
    (Stream.setTotalRows unconvertible Stream.ready, inl TypeError) /\
  Stream.handleSSEEvent progress_unconvertible Stream.ready =
    (Stream.ready, inl TypeError) /\
  Stream.handleSSEEvent complete_unconvertible_elapsed Stream.ready =
    (Stream.setResult
       (Some {| total := num 2; encontrados := num 1;
                noEncontrados := num 1; errores := num 0 |})
       (Stream.setProgress f100 Stream.ready), inl TypeError) /\
  snd (Stream.handleSSEEvent complete_unconvertible_file Stream.ready) =
    inl TypeError /\
  Stream.downloadUrl
    (fst (Stream.handleSSEEvent complete_unconvertible_file Stream.ready)) =
    None.
Proof. vm_compute. repeat split. Qed.

(* ===================================================================== *)
(** * The decoder and the line splitter are insensitive to chunking *)
(* ===================================================================== *)

Lemma utf8_handler_bom (d : utf8_decoder) (b : N) :
  bom_seen (fst (utf8_handler d b)) = bom_seen d.
Proof.
  unfold utf8_handler.
  repeat match goal with
         | |- context [if ?c then _ else _] => destruct c
         end; reflexivity.
Qed.

Lemma utf8_handler_set_bom (d : utf8_decoder) (s : bool) (b : N) :
  utf8_handler (set_bom_seen d s) b =
  (set_bom_seen (fst (utf8_handler d b)) s, snd (utf8_handler d b)).
Proof.
  unfold utf8_handler, set_bom_seen, reset_decoder; simpl.
  repeat match goal with
         | |- context [if ?c then _ else _] => destruct c
         end; reflexivity.
Qed.

Lemma decode_byte_set_bom (d : utf8_decoder) (s : bool) (b : N) :
  decode_byte (set_bom_seen d s) b =
  (set_bom_seen (fst (decode_byte d b)) s, snd (decode_byte d b)).
Proof.
  unfold decode_byte.
  rewrite utf8_handler_set_bom.
  destruct (utf8_handler d b) as [d1 [| c | |]]; simpl; try reflexivity.
  rewrite utf8_handler_set_bom.
  destruct (utf8_handler d1 b) as [d2 [| c | |]]; reflexivity.
Qed.

Lemma decode_byte_bom (d : utf8_decoder) (b : N) :
  bom_seen (fst (decode_byte d b)) = bom_seen d.
Proof.
  unfold decode_byte.
  pose proof (utf8_handler_bom d b) as H.
  destruct (utf8_handler d b) as [d1 [| c | |]]; simpl in *; try assumption.
  pose proof (utf8_handler_bom d1 b) as H1.
  destruct (utf8_handler d1 b) as [d2 [| c | |]]; simpl in *; congruence.
Qed.

Lemma decode_bytes_set_bom (bs : list byte) : forall (d : utf8_decoder) (s : bool),
  decode_bytes (set_bom_seen d s) bs =
  (set_bom_seen (fst (decode_bytes d bs)) s, snd (decode_bytes d bs)).
Proof.
  induction bs as [| b bs IH]; intros d s; simpl.
  - reflexivity.
  - rewrite decode_byte_set_bom.
    destruct (decode_byte d (Byte.to_N b)) as [d1 o1]; simpl.
    rewrite IH.
    destruct (decode_bytes d1 bs) as [d2 o2]; reflexivity.
Qed.

Lemma decode_bytes_bom (bs : list byte) : forall d : utf8_decoder,
  bom_seen (fst (decode_bytes d bs)) = bom_seen d.
Proof.
  induction bs as [| b bs IH]; intros d; simpl.
  - reflexivity.
  - pose proof (decode_byte_bom d (Byte.to_N b)) as H.
    destruct (decode_byte d (Byte.to_N b)) as [d1 o1]; simpl in *.
    specialize (IH d1).
    destruct (decode_bytes d1 bs) as [d2 o2]; simpl in *; congruence.
Qed.

Lemma decode_bytes_app (xs : list byte) : forall (d : utf8_decoder) (ys : list byte),
  decode_bytes d (xs ++ ys) =
  (fst (decode_bytes (fst (decode_bytes d xs)) ys),
   snd (decode_bytes d xs) ++ snd (decode_bytes (fst (decode_bytes d xs)) ys)).
Proof.
  induction xs as [| b xs IH]; intros d ys; simpl.
  - destruct (decode_bytes d ys); reflexivity.
  - destruct (decode_byte d (Byte.to_N b)) as [d1 o1].
    rewrite IH.
    destruct (decode_bytes d1 xs) as [d2 o2]; simpl.
    destruct (decode_bytes d2 ys) as [d3 o3]; simpl.
    now rewrite app_assoc.
Qed.

Lemma serialize_app (xs : list N) : forall (s : bool) (ys : list N),
  serialize s (xs ++ ys) =
  (fst (serialize (fst (serialize s xs)) ys),
   snd (serialize s xs) ++ snd (serialize (fst (serialize s xs)) ys)).
Proof.
  induction xs as [| c xs IH]; intros s ys; simpl.
  - destruct (serialize s ys); reflexivity.
  - destruct s.
    + rewrite IH. destruct (serialize true xs) as [s1 o1]; simpl.
      destruct (serialize s1 ys) as [s2 o2]; simpl. now rewrite app_assoc.
    + destruct (N.eqb c 0xFEFF).
      * apply IH.
      * rewrite IH. destruct (serialize true xs) as [s1 o1]; simpl.
        destruct (serialize s1 ys) as [s2 o2]; simpl. now rewrite app_assoc.
Qed.

(** Decoding two chunks one after the other is decoding them glued. *)
Lemma decode_stream_app (d : utf8_decoder) (xs ys : list byte) :
  decode_stream d (xs ++ ys) =
  (fst (decode_stream (fst (decode_stream d xs)) ys),
   snd (decode_stream d xs) ++ snd (decode_stream (fst (decode_stream d xs)) ys)).
Proof.
  unfold decode_stream.
  rewrite decode_bytes_app.
  pose proof (decode_bytes_bom xs d) as Hb.
  destruct (decode_bytes d xs) as [d1 o1]; simpl in *.
  rewrite serialize_app.
  destruct (serialize (bom_seen d1) o1) as [s1 t1] eqn:E1; simpl.
  rewrite decode_bytes_set_bom.
  pose proof (decode_bytes_bom ys d1) as Hb2.
  destruct (decode_bytes d1 ys) as [d2 o2]; simpl in *.
  rewrite Hb2, E1; simpl.
  destruct (serialize s1 o2) as [s3 t3]; reflexivity.
Qed.

Lemma decode_stream_nil (d : utf8_decoder) : decode_stream d [] = (d, []).
Proof. destruct d; reflexivity. Qed.

Lemma split_nonempty (sep : N) (s : jsstring) : split sep s <> [].
Proof.
  destruct s as [| c s]; simpl; [discriminate |].
  destruct (N.eqb c sep); [discriminate |].
  destruct (split sep s); discriminate.
Qed.

Lemma pop_cons (A : Type) (x : A) (l : list A) :
  l <> [] -> pop (x :: l) = (x :: fst (pop l), snd (pop l)).
Proof.
  intros H. destruct l as [| y l]; [contradiction |].
  change (pop (x :: y :: l)) with (let (r, o) := pop (y :: l) in (x :: r, o)).
  destruct (pop (y :: l)); reflexivity.
Qed.

Lemma pop_app (A : Type) (xs ys : list A) :
  ys <> [] -> pop (xs ++ ys) = (xs ++ fst (pop ys), snd (pop ys)).
Proof.
  intros H. induction xs as [| x xs IH]; simpl app.
  - destruct (pop ys); reflexivity.
  - rewrite pop_cons, IH; [reflexivity |].
    destruct xs; simpl; [assumption | discriminate].
Qed.

Lemma pop_some (A : Type) (l : list A) :
  l <> [] -> exists x, snd (pop l) = Some x /\ l = fst (pop l) ++ [x].
Proof.
  induction l as [| y l IH]; intros H; [contradiction |].
  destruct l as [| z l].
  - exists y. split; reflexivity.
  - rewrite pop_cons by discriminate.
    destruct IH as [x [E1 E2]]; [discriminate |].
    exists x. split; [exact E1 |].
    cbn [fst]. rewrite <- app_comm_cons. now rewrite <- E2.
Qed.

Lemma or_empty_some (s : jsstring) : or_empty (Some s) = s.
Proof. destruct s; reflexivity. Qed.

(** The lines of [a ++ b]: the terminated lines of [a], then the lines
    of what [a] left unterminated followed by [b]. *)
Lemma split_app (sep : N) (a b : jsstring) :
  split sep (a ++ b) =
  fst (pop (split sep a)) ++ split sep (or_empty (snd (pop (split sep a))) ++ b).
Proof.
  induction a as [| c a IH]; simpl.
  - reflexivity.
  - destruct (N.eqb c sep) eqn:Ec.
    + rewrite pop_cons by apply split_nonempty.
      simpl. now rewrite IH.
    + rewrite IH.
      pose proof (split_nonempty sep a) as Hne.
      destruct (split sep a) as [| l ls]; [contradiction |].
      destruct ls as [| x ls'].
      * simpl. rewrite Ec. destruct l; reflexivity.
      * rewrite (pop_cons l (l := x :: ls')) by discriminate.
        rewrite (pop_cons (c :: l) (l := x :: ls')) by discriminate.
        reflexivity.
Qed.

(* ===================================================================== *)
(** * What the read loop computes *)
(* ===================================================================== *)

Section LoopFacts.
Import Stream.
Variable A : Type.
Variable on_frame : bool -> A -> jsstring -> A.

Lemma for_lines_app (l1 l2 : list jsstring) (a : A) :
  for_lines on_frame (l1 ++ l2) a =
  for_lines on_frame l2 (for_lines on_frame l1 a).
Proof. unfold for_lines. apply fold_left_app. Qed.

Lemma terminated_lines_app (a b : jsstring) :
  terminated_lines (a ++ b) =
  terminated_lines a ++ terminated_lines (pending a ++ b).
Proof.
  unfold terminated_lines, pending.
  rewrite split_app, pop_app by apply split_nonempty.
  reflexivity.
Qed.

Lemma pending_app (a b : jsstring) :
  pending (a ++ b) = pending (pending a ++ b).
Proof.
  unfold pending.
  rewrite split_app, pop_app by apply split_nonempty.
  reflexivity.
Qed.

Lemma iteration_chunk (st : loop_state A) (c : list byte) :
  iteration on_frame st {| done := false; value_ := Some c |} =
  let text := snd (decode_stream (decoder st) c) in
  {| decoder := fst (decode_stream (decoder st) c);
     buffer := pending (buffer st ++ text);
     acc := for_lines on_frame (terminated_lines (buffer st ++ text)) (acc st) |}.
Proof.
  unfold iteration, terminated_lines, pending; simpl.
  destruct (decode_stream (decoder st) c) as [d text]; simpl.
  destruct (pop (split LF (buffer st ++ text))); reflexivity.
Qed.

(** After any number of chunks the loop is where one chunk holding all
    their bytes would have put it, as far as later input can tell. *)
Lemma read_chunks_spec (cs : list (list byte)) :
  forall (st : loop_state A) (more : jsstring),
    let st' := read_chunks on_frame st cs in
    let text := snd (decode_stream (decoder st) (List.concat cs)) in
    decoder st' = fst (decode_stream (decoder st) (List.concat cs)) /\
    pending (buffer st' ++ more) = pending (buffer st ++ text ++ more) /\
    for_lines on_frame (terminated_lines (buffer st' ++ more)) (acc st') =
    for_lines on_frame (terminated_lines (buffer st ++ text ++ more)) (acc st).
Proof.
  induction cs as [| c cs IH]; intros st more; cbn [read_chunks List.concat]; cbn zeta.
  - rewrite decode_stream_nil; simpl. auto.
  - rewrite decode_stream_app.
    destruct (IH (iteration on_frame st {| done := false; value_ := Some c |}) more)
      as [Hd [Hp Hl]].
    rewrite iteration_chunk in Hd, Hp, Hl; simpl in Hd, Hp, Hl.
    cbn [fst snd].
    set (t1 := snd (decode_stream (decoder st) c)) in *.
    set (d1 := fst (decode_stream (decoder st) c)) in *.
    set (t2 := snd (decode_stream d1 (List.concat cs))) in *.
    rewrite iteration_chunk; cbn zeta.
    fold t1 d1.
    split; [exact Hd |].
    split.
    + rewrite Hp.
      rewrite <- pending_app.
      now rewrite <- !app_assoc.
    + rewrite Hl.
      rewrite <- for_lines_app, <- terminated_lines_app.
      now rewrite <- !app_assoc.
Qed.

Lemma iteration_done (st : loop_state A) :
  acc (iteration on_frame st {| done := true; value_ := None |}) =
  let a := for_lines on_frame (terminated_lines (buffer st)) (acc st) in
  if has_prefix (pending (buffer st))
  then on_frame true a (pending (buffer st)) else a.
Proof.
  unfold iteration, terminated_lines, pending, has_prefix; simpl.
  destruct (pop (split LF (buffer st))) as [lines last]; simpl.
  reflexivity.
Qed.

Lemma for_lines_filter (lines : list jsstring) : forall a : A,
  for_lines on_frame lines a =
  fold_left (fun a f => on_frame (fst f) a (snd f))
    (map (pair false) (filter has_prefix lines)) a.
Proof.
  unfold for_lines, has_prefix.
  induction lines as [| l lines IH]; intros a; simpl.
  - reflexivity.
  - rewrite IH. destruct (startsWith l data_prefix); reflexivity.
Qed.

(** The loop hands the frames of the whole text to [on_frame], one call
    each, in order. *)
Lemma read_loop_frames (a : A) (cs : list (list byte)) :
  read_loop on_frame a {| chunks := cs; ending := EndOfStream |} =
  (fold_left (fun a f => on_frame (fst f) a (snd f))
     (tagged_frames (stream_text cs)) a, None).
Proof.
  unfold read_loop; simpl. f_equal.
  rewrite iteration_done; cbn zeta.
  destruct (read_chunks_spec cs
              {| decoder := new_TextDecoder; buffer := []; acc := a |} [])
    as [_ [Hp Hl]].
  simpl in Hp, Hl. rewrite !app_nil_r in Hp, Hl.
  fold (stream_text cs) in Hp, Hl.
  rewrite Hp, Hl.
  unfold tagged_frames.
  rewrite fold_left_app, <- for_lines_filter.
  destruct (has_prefix (pending (stream_text cs))); reflexivity.
Qed.
End LoopFacts.

Lemma lines_of_text (t : jsstring) :
  split LF t = Stream.terminated_lines t ++ [Stream.pending t].
Proof.
  unfold Stream.terminated_lines, Stream.pending.
  destruct (pop_some (split_nonempty LF t)) as [x [E1 E2]].
  rewrite E1, or_empty_some. exact E2.
Qed.

Lemma frames_are_tagged_frames (cs : list (list byte)) :
  Stream.frames cs = map snd (Stream.tagged_frames (Stream.stream_text cs)).
Proof.
  unfold Stream.frames, Stream.frames_of.
  rewrite read_loop_frames; simpl.
  generalize (Stream.tagged_frames (Stream.stream_text cs)).
  intros l.
  assert (G : forall acc0 : list jsstring,
    fold_left (fun a (f : bool * jsstring) => a ++ [snd f]) l acc0 =
    acc0 ++ map snd l).
  { induction l as [| f l IH]; intros acc0; simpl.
    - now rewrite app_nil_r.
    - rewrite IH. now rewrite <- app_assoc. }
  apply (G []).
Qed.

(** C5: the frames the loop emits are exactly the lines of the decoded
    text that begin with the prefix, each once and in the order of the
    text; the terminated ones come from the loop body and the last,
    unterminated line is emitted at the end of the stream when it begins
    with the prefix and dropped otherwise. *)
Theorem frames_exactly_once (cs : list (list byte)) :
  let text := Stream.stream_text cs in
  Stream.frames cs = filter Stream.has_prefix (split LF text) /\
  Stream.frames cs =
    filter Stream.has_prefix (Stream.terminated_lines text) ++
    (if Stream.has_prefix (Stream.pending text) then [Stream.pending text] else []).
Proof.
  cbn zeta.
  assert (H : Stream.frames cs =
    filter Stream.has_prefix (Stream.terminated_lines (Stream.stream_text cs)) ++
    (if Stream.has_prefix (Stream.pending (Stream.stream_text cs))
     then [Stream.pending (Stream.stream_text cs)] else [])).
  { rewrite frames_are_tagged_frames. unfold Stream.tagged_frames.
    rewrite map_app, map_map; simpl. rewrite map_id.
    destruct (Stream.has_prefix (Stream.pending (Stream.stream_text cs)));
      reflexivity. }
  split; [| exact H].
  rewrite H, lines_of_text, filter_app; simpl.
  destruct (Stream.has_prefix (Stream.pending (Stream.stream_text cs)));
    reflexivity.
Qed.

(** C1: however the bytes of a stream are cut into chunks (single bytes,
    empty chunks, cuts inside the prefix, inside a character or at a line
    break), the loop emits the frames it emits for the same bytes in one
    chunk, and so leaves any frame handler in the same state. *)
Theorem chunk_boundary_invariance (cs : list (list byte)) :
  Stream.frames cs = Stream.frames [List.concat cs] /\
  forall (A : Type) (on_frame : bool -> A -> jsstring -> A) (a : A),
    Stream.read_loop on_frame a
      {| Stream.chunks := cs; Stream.ending := Stream.EndOfStream |} =
    Stream.read_loop on_frame a
      {| Stream.chunks := [List.concat cs]; Stream.ending := Stream.EndOfStream |}.
Proof.
  assert (E : Stream.stream_text [List.concat cs] = Stream.stream_text cs).
  { unfold Stream.stream_text; simpl. now rewrite app_nil_r. }
  split.
  - rewrite !frames_are_tagged_frames. now rewrite E.
  - intros A on_frame a. rewrite !read_loop_frames. now rewrite E.
Qed.

(** The sample stream in one chunk, byte by byte, cut inside the prefix
    with an empty chunk between, cut inside the two-byte character, and
    cut right after the first line break. *)
Example sample_stream_chunkings :
  Stream.frames [sample_stream] = sample_frames /\
  Stream.frames (map (fun b => [b]) sample_stream) = sample_frames /\
  Stream.frames [firstn 3 sample_stream; []; skipn 3 sample_stream] =
    sample_frames /\
  Stream.frames (cut_at 7 sample_stream) = sample_frames /\
  Stream.frames (cut_at 9 sample_stream) = sample_frames.
Proof. vm_compute. repeat split. Qed.


(* ===================================================================== *)
(** * The transitions of [handleSSEEvent] *)
(* ===================================================================== *)

Lemma jsstring_eqb_eq (a : jsstring) : forall b, jsstring_eqb a b = true <-> a = b.
Proof.
  induction a as [| x a IH]; intros [| y b]; simpl; split; intros H;
    try reflexivity; try discriminate.
  - apply andb_prop in H. destruct H as [H1 H2].
    apply N.eqb_eq in H1. apply IH in H2. now subst.
  - injection H as -> ->. rewrite N.eqb_refl. now apply IH.
Qed.

Lemma is_event_type (data : value) (d : string) :
  is_event data d = true -> get data "type" = inr (Str (js d)).
Proof.
  unfold is_event, field, strict_eq_str.
  destruct (get data "type") as [e | v]; [discriminate |].
  destruct v; try discriminate.
  intros H. apply jsstring_eqb_eq in H. now subst.
Qed.

Lemma is_event_get (data : value) (d k : string) :
  is_event data d = true -> get data k = inr (field data k).
Proof.
  unfold is_event, field.
  destruct data; simpl; try discriminate; try reflexivity.
  intros _. destruct (lookup (js k) props); reflexivity.
Qed.

Lemma not_nullish_get (v : value) (k : string) :
  nullish v = false -> get v k = inr (field v k).
Proof.
  unfold field. destruct v; simpl; try discriminate; try reflexivity.
  intros _. destruct (lookup (js k) props); reflexivity.
Qed.

Lemma nullish_get (v : value) (k : string) :
  nullish v = true -> get v k = inl TypeError.
Proof. destruct v; simpl; try discriminate; reflexivity. Qed.

(** A conversion that throws throws a TypeError. *)
Lemma join_elements_throws (convert : value -> exn + jsstring)
  (l : list value) :
  Forall (fun a => forall e, convert a = inl e -> e = TypeError) l ->
  forall (first : bool) (e : exn),
    join_elements convert first l = inl e -> e = TypeError.
Proof.
  induction 1 as [| a l Ha _ IH]; intros first e; cbn [join_elements].
  - discriminate.
  - fold (join_elements convert).
    specialize (IH false).
    destruct (join_elements convert false l) as [e2 | r].
    + specialize (IH e2 eq_refl). subst e2.
      destruct a; try (intros H; now injection H as <-);
        match goal with
        | |- context [convert ?a] =>
            specialize (Ha); destruct (convert a) as [e1 | s1] eqn:E1
        end;
        intros H; injection H as <-; try reflexivity; now apply Ha.
    + destruct a; try discriminate;
        match goal with
        | |- context [convert ?a] => destruct (convert a) as [e1 | s1] eqn:E1
        end;
        intros H; try discriminate H; injection H as <-; now apply Ha.
Qed.

Lemma ToString_throws : forall (v : value) (e : exn),
  ToString v = inl e -> e = TypeError.
Proof.
  fix IH 1. intros v.
  destruct v as [| | [|] | x | s | l | props]; cbn [ToString];
    try discriminate.
  - intros e. apply join_elements_throws.
    induction l as [| a l IHl]; constructor; [apply IH | exact IHl].
  - intros e. destruct (lookup (js "toString") props); [| discriminate].
    intros H. now injection H as <-.
Qed.

Lemma ToNumber_throws (v : value) (e : exn) :
  ToNumber v = inl e -> e = TypeError.
Proof.
  destruct v as [| | [|] | x | s | l | props]; cbn [ToNumber];
    try discriminate.
  - destruct (ToString (Arr l)) as [e' | s] eqn:E; [| discriminate].
    intros H. injection H as <-. exact (@ToString_throws _ _ E).
  - destruct (ToString (Obj props)) as [e' | s] eqn:E; [| discriminate].
    intros H. injection H as <-. exact (@ToString_throws _ _ E).
Qed.

Lemma atob_value_inr (v : value) (chars : jsstring) :
  atob_value v = inr chars ->
  exists data, ToString v = inr data /\ atob data = inr chars.
Proof.
  unfold atob_value. destruct (ToString v) as [e | data]; [discriminate |].
  intros H. now exists data.
Qed.

Ltac complete_branch Hty Hstats :=
  unfold Stream.handleSSEEvent;
  unfold Stream.bind, Stream.lift, Stream.modify, Stream.ret;
  rewrite (is_event_type _ _ Hty);
  cbn [strict_eq_str];
  change (jsstring_eqb (js "complete") (js "start")) with false;
  change (jsstring_eqb (js "complete") (js "progress")) with false;
  change (jsstring_eqb (js "complete") (js "row_error")) with false;
  change (jsstring_eqb (js "complete") (js "error")) with false;
  change (jsstring_eqb (js "complete") (js "complete")) with true;
  cbv iota;
  rewrite !(is_event_get _ _ _ Hty);
  rewrite !(not_nullish_get _ _ Hstats).

(** A [complete] event whose [elapsed] converts to a string: the result
    summary, the entry and the download. *)
Lemma handle_complete_counts
  (data : value) (st : Stream.AppState) (elapsed : jsstring) :
  is_event data "complete" = true ->
  nullish (field data "stats") = false ->
  ToString (field data "elapsed") = inr elapsed ->
  Stream.handleSSEEvent data st =
  Stream.bind
    (Stream.modify (fun s =>
       Stream.addLogEntry
         (message_entry LogEntry.complete
            (Str (js "Completado en " ++ elapsed)))
         (Stream.setResult
            (Some {| total := field (field data "stats") "procesadas";
                     encontrados := field (field data "stats") "encontradas";
                     noEncontrados := field (field data "stats") "no_encontradas";
                     errores := field (field data "stats") "errores" |})
            (Stream.setProgress f100 s))))
    (fun _ =>
       if ToBoolean (field data "file") then
         Stream.bind (Stream.lift (atob_value (field data "file")))
           (fun byteCharacters =>
              Stream.modify (fun s =>
                Stream.setDownloadFilename (field data "filename")
                  (Stream.setDownloadUrl
                     (Some (createObjectURL
                              {| blob_parts := Uint8Array byteCharacters;
                                 blob_type := xlsx_mime |})) s)))
       else Stream.ret tt) st.
Proof.
  intros Hty Hstats Hel.
  complete_branch Hty Hstats.
  rewrite Hel.
  destruct (ToBoolean (field data "file")); [| reflexivity].
  destruct (atob_value (field data "file")); reflexivity.
Qed.

(** A [complete] event whose [elapsed] does not convert: the template
    literal throws when the progress and the result are already set. *)
Lemma handle_complete_elapsed_throws
  (data : value) (st : Stream.AppState) (e : exn) :
  is_event data "complete" = true ->
  nullish (field data "stats") = false ->
  ToString (field data "elapsed") = inl e ->
  Stream.handleSSEEvent data st =
  (Stream.setResult
     (Some {| total := field (field data "stats") "procesadas";
              encontrados := field (field data "stats") "encontradas";
              noEncontrados := field (field data "stats") "no_encontradas";
              errores := field (field data "stats") "errores" |})
     (Stream.setProgress f100 st), inl e).
Proof.
  intros Hty Hstats Hel.
  complete_branch Hty Hstats.
  now rewrite Hel.
Qed.

(** C4: a [complete] event with [stats] sets the progress to 100 and
    takes the result counts from the event's [stats] whatever the state
    held.  When its [elapsed] converts to a string it appends the
    completion entry and, when the event carries a file that decodes,
    installs the download object and its filename; without a file the
    download is left as it was.  An [elapsed] that does not convert (an
    object with an own [toString] key) makes the template literal throw
    after the result is set: no entry is appended and the download is
    left as it was. *)
Theorem complete_transition (data : value) (st : Stream.AppState) :
  is_event data "complete" = true ->
  nullish (field data "stats") = false ->
  let st' := fst (Stream.handleSSEEvent data st) in
  Stream.progress st' = f100 /\
  Stream.result st' =
    Some {| total := field (field data "stats") "procesadas";
            encontrados := field (field data "stats") "encontradas";
            noEncontrados := field (field data "stats") "no_encontradas";
            errores := field (field data "stats") "errores" |} /\
  (forall elapsed : jsstring,
     ToString (field data "elapsed") = inr elapsed ->
     Stream.logEntries st' =
       Stream.logEntries st ++
       [message_entry LogEntry.complete
          (Str (js "Completado en " ++ elapsed))
          (Stream.logId st + 1)%N] /\
     (ToBoolean (field data "file") = false ->
        snd (Stream.handleSSEEvent data st) = inr tt /\
        Stream.downloadUrl st' = Stream.downloadUrl st /\
        Stream.downloadFilename st' = Stream.downloadFilename st) /\
     (forall byteCharacters,
        ToBoolean (field data "file") = true ->
        atob_value (field data "file") = inr byteCharacters ->
        snd (Stream.handleSSEEvent data st) = inr tt /\
        Stream.downloadUrl st' =
          Some {| blob_parts := Uint8Array byteCharacters;
                  blob_type := xlsx_mime |} /\
        Stream.downloadFilename st' = field data "filename")) /\
  (forall e : exn,
     ToString (field data "elapsed") = inl e ->
     snd (Stream.handleSSEEvent data st) = inl TypeError /\
     Stream.logEntries st' = Stream.logEntries st /\
     Stream.downloadUrl st' = Stream.downloadUrl st /\
     Stream.downloadFilename st' = Stream.downloadFilename st).
Proof.
  intros Hty Hstats st'. subst st'.
  destruct (ToString (field data "elapsed")) as [e | elapsed] eqn:Hel.
  - rewrite (handle_complete_elapsed_throws _ st Hty Hstats Hel).
    cbn [fst snd].
    split; [reflexivity |]. split; [reflexivity |].
    split; [intros ? H; discriminate H |].
    intros e' _. rewrite (@ToString_throws _ _ Hel). repeat split.
  - rewrite (handle_complete_counts _ st Hty Hstats Hel).
    unfold Stream.bind, Stream.modify, Stream.lift, Stream.ret.
    destruct (ToBoolean (field data "file")).
    + destruct (atob_value (field data "file")) as [e | chars]; simpl;
        (split; [reflexivity |]); (split; [reflexivity |]);
        (split; [| intros ? H; discriminate H]);
        intros el H; injection H as <-;
        (split; [reflexivity |]); (split; [intros H; discriminate H |]);
        intros chars' _ H; try discriminate H.
      injection H as <-. repeat split.
    + simpl.
      split; [reflexivity |]. split; [reflexivity |].
      split; [| intros ? H; discriminate H].
      intros el H. injection H as <-.
      split; [reflexivity |]. split; [intros _; repeat split |].
      intros chars H. discriminate H.
Qed.

Lemma complete_transition_witness :
  is_event complete_with_file "complete" = true /\
  nullish (field complete_with_file "stats") = false /\
  Stream.downloadUrl
    (fst (Stream.handleSSEEvent complete_with_file Stream.initial)) =
  Some {| blob_parts := Uint8Array (js "hello"); blob_type := xlsx_mime |}.
Proof.
  split; [reflexivity |]. split; [reflexivity |].
  exact (proj1 (proj2 (proj2 (proj2 (proj1 (proj2 (proj2
    (complete_transition complete_with_file Stream.initial
       eq_refl eq_refl))) (js "5s") eq_refl)) (js "hello") eq_refl eq_refl))).
Defined.

Ltac eval_discriminators :=
  repeat match goal with
         | |- context [jsstring_eqb (js ?a) (js ?b)] =>
             let v := eval vm_compute in (jsstring_eqb (js a) (js b)) in
             change (jsstring_eqb (js a) (js b)) with v
         end.

Ltac dispatch Hty :=
  unfold Stream.handleSSEEvent, Stream.bind, Stream.lift, Stream.modify, Stream.ret;
  rewrite (is_event_type _ _ Hty); cbn [strict_eq_str];
  eval_discriminators; cbv iota;
  rewrite ?(is_event_get _ _ _ Hty).

Lemma handle_error_event (data : value) (st : Stream.AppState) :
  is_event data "error" = true ->
  Stream.handleSSEEvent data st =
  (Stream.setError (Some (Stream.api_error (field data "message")))
     (Stream.addLogEntry
        (message_entry LogEntry.error (field data "message")) st),
   inr tt).
Proof. intros Hty. dispatch Hty. reflexivity. Qed.

Lemma handle_progress_event
  (data : value) (st : Stream.AppState) (p t : float) :
  is_event data "progress" = true ->
  nullish (field data "stats") = false ->
  ToNumber (field (field data "stats") "procesadas") = inr p ->
  ToNumber (field data "total") = inr t ->
  Stream.handleSSEEvent data st =
  (Stream.addLogEntry
     (entry (if strict_eq_str (field data "status") "found"
             then LogEntry.found else LogEntry.not_found)
        (field data "row") (field data "direccion")
        (field data "municipio") (field data "cp") Undefined)
     (Stream.setProgress (Math_round (fmul (fdiv p t) f100)) st),
   inr tt).
Proof.
  intros Hty Hstats Hp Ht. dispatch Hty.
  rewrite (not_nullish_get _ _ Hstats). now rewrite Hp, Ht.
Qed.

(** An operand of the division that does not convert throws before
    anything is set. *)
Lemma handle_progress_throws (data : value) (st : Stream.AppState) :
  is_event data "progress" = true ->
  nullish (field data "stats") = false ->
  ToNumber (field (field data "stats") "procesadas") = inl TypeError \/
  ToNumber (field data "total") = inl TypeError ->
  Stream.handleSSEEvent data st = (st, inl TypeError).
Proof.
  intros Hty Hstats H. dispatch Hty.
  rewrite (not_nullish_get _ _ Hstats).
  destruct (ToNumber (field (field data "stats") "procesadas"))
    as [e | p] eqn:Hp.
  - now rewrite (@ToNumber_throws _ _ Hp).
  - destruct H as [H | H]; [discriminate H |]. now rewrite H.
Qed.

(** Whatever the payload, the handler only appends to the log, and only
    an [error] event touches the stored error. *)
Ltac handler_cases :=
  repeat match goal with
         | |- context [get ?a ?b] => destruct (get a b); cbn [fst]
         | |- context [ToString ?a] => destruct (ToString a); cbn [fst]
         | |- context [ToNumber ?a] => destruct (ToNumber a); cbn [fst]
         | |- context [if ToBoolean ?a then _ else _] =>
             destruct (ToBoolean a); cbn [fst]
         | |- context [atob_value ?a] => destruct (atob_value a); cbn [fst]
         end.

Lemma handle_frame_conditions (data : value) (st : Stream.AppState) :
  let st' := fst (Stream.handleSSEEvent data st) in
  (exists l, Stream.logEntries st' = Stream.logEntries st ++ l) /\
  (is_event data "error" = false -> Stream.error st' = Stream.error st) /\
  Stream.console st' = Stream.console st /\
  Stream.isProcessing st' = Stream.isProcessing st.
Proof.
  cbv zeta. unfold is_event, field.
  unfold Stream.handleSSEEvent, Stream.bind, Stream.lift, Stream.modify, Stream.ret.
  destruct (get data "type") as [e | ty]; cbn [fst].
  { repeat split; try reflexivity. exists []. now rewrite app_nil_r. }
  destruct (strict_eq_str ty "start").
  { handler_cases;
      repeat split; try reflexivity;
      first [ exists []; now rewrite app_nil_r | eexists; reflexivity ]. }
  destruct (strict_eq_str ty "progress").
  { handler_cases;
      repeat split; try reflexivity;
      first [ exists []; now rewrite app_nil_r | eexists; reflexivity ]. }
  destruct (strict_eq_str ty "row_error").
  { handler_cases;
      repeat split; try reflexivity;
      first [ exists []; now rewrite app_nil_r | eexists; reflexivity ]. }
  destruct (strict_eq_str ty "error") eqn:Eerr.
  { handler_cases;
      repeat split; try reflexivity; try discriminate;
      first [ exists []; now rewrite app_nil_r | eexists; reflexivity ]. }
  destruct (strict_eq_str ty "complete").
  { handler_cases;
      repeat split; try reflexivity;
      first [ exists []; now rewrite app_nil_r | eexists; reflexivity ]. }
  repeat split; try reflexivity. exists []. now rewrite app_nil_r.
Qed.

(** The loop itself never throws: only a rejected read leaves it. *)
Lemma read_loop_never_throws (st : Stream.AppState) (cs : list (list byte)) :
  Stream.read_loop Stream.process_frame st
    {| Stream.chunks := cs; Stream.ending := Stream.EndOfStream |} =
  (Stream.run_frames (Stream.tagged_frames (Stream.stream_text cs)) st, None).
Proof. apply read_loop_frames. Qed.

Lemma run_frames_app (a b : list (bool * jsstring)) (st : Stream.AppState) :
  Stream.run_frames (a ++ b) st = Stream.run_frames b (Stream.run_frames a st).
Proof. unfold Stream.run_frames. apply fold_left_app. Qed.

(** C6: a frame whose payload [JSON.parse] rejects is dropped with one
    console warning; nothing the component renders changes and the log
    counter stays.  The loop over a stream is the run of the stream's
    frames in order and ends without throwing; wherever such a frame
    stands in the stream, the loop goes on from the state reached before
    it, with only the warning added, through every frame after it. *)
Theorem malformed_frame_dropped
  (final : bool) (line : jsstring) (e : exn) (st : Stream.AppState) :
  JSON_parse (slice line 6) = inl e ->
  let st' := Stream.process_frame final st line in
  Stream.render st' = Stream.render st /\
  Stream.logId st' = Stream.logId st /\
  Stream.console st' =
    Stream.console st ++
    [{| Stream.label := js (if final then "Error parsing final SSE:"
                            else "Error parsing SSE:");
        Stream.caught := e |}] /\
  (forall (cs : list (list byte)) (s : Stream.AppState),
     Stream.read_loop Stream.process_frame s
       {| Stream.chunks := cs; Stream.ending := Stream.EndOfStream |} =
     (Stream.run_frames (Stream.tagged_frames (Stream.stream_text cs)) s, None)) /\
  (forall rest, Stream.run_frames ((final, line) :: rest) st =
                Stream.run_frames rest st') /\
  (forall (cs : list (list byte)) (s : Stream.AppState)
          (before rest : list (bool * jsstring)),
     Stream.tagged_frames (Stream.stream_text cs) =
       before ++ (final, line) :: rest ->
     Stream.run_frames before s = st ->
     Stream.read_loop Stream.process_frame s
       {| Stream.chunks := cs; Stream.ending := Stream.EndOfStream |} =
     (Stream.run_frames rest st', None)).
Proof.
  intros Hparse st'. subst st'.
  assert (E : Stream.process_frame final st line =
              Stream.console_warn
                (if final then "Error parsing final SSE:" else "Error parsing SSE:")
                e st).
  { unfold Stream.process_frame. now rewrite Hparse. }
  split; [now rewrite E |].
  split; [now rewrite E |].
  split; [now rewrite E |].
  split; [intros cs s; apply read_loop_never_throws |].
  split; [intros rest; reflexivity |].
  intros cs s before rest Hframes Hbefore.
  rewrite read_loop_never_throws, Hframes, run_frames_app, Hbefore.
  reflexivity.
Qed.

Lemma malformed_frame_dropped_witness :
  JSON_parse (slice bad_frame 6) = inl SyntaxError /\
  Stream.read_loop Stream.process_frame Stream.ready
    {| Stream.chunks := [lines_bytes [bad_frame; error_frame]];
       Stream.ending := Stream.EndOfStream |} =
  (Stream.run_frames [(false, error_frame)]
     (Stream.process_frame false Stream.ready bad_frame), None).
Proof.
  split; [reflexivity |].
  apply (proj2 (proj2 (proj2 (proj2 (proj2
    (malformed_frame_dropped false bad_frame Stream.ready eq_refl)))))
    [lines_bytes [bad_frame; error_frame]] Stream.ready
    [] [(false, error_frame)]).
  - vm_compute. reflexivity.
  - reflexivity.
Defined.

(** C7, as the code has it: when the decoding of the file of a
    [complete] event fails, be it that [atob] rejects the text or that
    the file does not convert to a string, the progress is 100, the
    result counts and the completion entry are in place (the [elapsed]
    of the event converting to a string), no download object or
    filename is installed, no error is stored, and the exception ends
    in the console warning of an unparseable frame. *)
Theorem base64_failure_swallowed
  (final : bool) (line : jsstring) (data : value) (elapsed : jsstring)
  (e : exn) (st : Stream.AppState) :
  JSON_parse (slice line 6) = inr data ->
  is_event data "complete" = true ->
  nullish (field data "stats") = false ->
  ToString (field data "elapsed") = inr elapsed ->
  ToBoolean (field data "file") = true ->
  atob_value (field data "file") = inl e ->
  let st' := Stream.process_frame final st line in
  Stream.progress st' = f100 /\
  Stream.result st' =
    Some {| total := field (field data "stats") "procesadas";
            encontrados := field (field data "stats") "encontradas";
            noEncontrados := field (field data "stats") "no_encontradas";
            errores := field (field data "stats") "errores" |} /\
  Stream.logEntries st' =
    Stream.logEntries st ++
    [message_entry LogEntry.complete
       (Str (js "Completado en " ++ elapsed))
       (Stream.logId st + 1)%N] /\
  Stream.downloadUrl st' = Stream.downloadUrl st /\
  Stream.downloadFilename st' = Stream.downloadFilename st /\
  Stream.error st' = Stream.error st /\
  Stream.console st' =
    Stream.console st ++
    [{| Stream.label := js (if final then "Error parsing final SSE:"
                            else "Error parsing SSE:");
        Stream.caught := e |}].
Proof.
  intros Hparse Hty Hstats Hel Hfile Hatob st'. subst st'.
  unfold Stream.process_frame. rewrite Hparse.
  rewrite (handle_complete_counts _ st Hty Hstats Hel).
  unfold Stream.bind, Stream.modify, Stream.lift, Stream.ret.
  rewrite Hfile, Hatob. cbn iota beta.
  repeat split.
Qed.

Lemma base64_failure_swallowed_witness :
  JSON_parse (slice complete_bad_file_frame 6) = inr complete_bad_file /\
  atob_value (field complete_bad_file "file") = inl InvalidCharacterError /\
  Stream.downloadUrl
    (Stream.process_frame false Stream.ready complete_bad_file_frame) = None.
Proof.
  split; [reflexivity |]. split; [reflexivity |].
  exact (proj1 (proj2 (proj2 (proj2
    (base64_failure_swallowed false complete_bad_file_frame Stream.ready
       eq_refl eq_refl eq_refl eq_refl eq_refl eq_refl))))).
Defined.

(** C7 as stated fails: after a [complete] event whose file is not
    base64 nothing rendered tells the failure (what is rendered is what a
    [complete] event without a file leaves), and the console line carries
    the label written for an unparseable frame. *)
Lemma base64_failure_not_surfaced :
  let st' := Stream.process_frame false Stream.ready complete_bad_file_frame in
  ~ Stream.surfaced Stream.ready st' /\
  Stream.render st' =
    Stream.render (Stream.process_frame false Stream.ready complete_plain_frame) /\
  map Stream.label (Stream.console st') =
    map Stream.label
      (Stream.console (Stream.process_frame false Stream.ready bad_frame)).
Proof.
  cbv zeta. split; [| split; reflexivity].
  intros [H | [en [Hin [_ Hty]]]].
  - apply H. reflexivity.
  - vm_compute in Hin. destruct Hin as [<- | []]. discriminate Hty.
Qed.

Lemma log_extends_refl (st : Stream.AppState) : Stream.log_extends st st.
Proof. exists []. now rewrite app_nil_r. Qed.

Lemma log_extends_trans (a b c : Stream.AppState) :
  Stream.log_extends a b -> Stream.log_extends b c -> Stream.log_extends a c.
Proof.
  intros [l1 H1] [l2 H2]. exists (l1 ++ l2).
  now rewrite H2, H1, app_assoc.
Qed.

Lemma process_frame_log (final : bool) (st : Stream.AppState) (line : jsstring) :
  Stream.log_extends st (Stream.process_frame final st line).
Proof.
  unfold Stream.process_frame.
  destruct (JSON_parse (slice line 6)) as [e | data].
  - exists []. simpl. now rewrite app_nil_r.
  - destruct (handle_frame_conditions data st) as [Hl _].
    destruct (Stream.handleSSEEvent data st) as [st' [e | u]]; exact Hl.
Qed.

Lemma for_lines_log (lines : list jsstring) : forall st : Stream.AppState,
  Stream.log_extends st (Stream.for_lines Stream.process_frame lines st).
Proof.
  unfold Stream.for_lines.
  induction lines as [| l lines IH]; intros st; simpl.
  - apply log_extends_refl.
  - eapply log_extends_trans; [| apply IH].
    destruct (startsWith l data_prefix);
      [apply process_frame_log | apply log_extends_refl].
Qed.

Lemma read_chunks_log (cs : list (list byte)) :
  forall ls : Stream.loop_state Stream.AppState,
    Stream.log_extends (Stream.acc ls)
      (Stream.acc (Stream.read_chunks Stream.process_frame ls cs)).
Proof.
  induction cs as [| c cs IH]; intros ls; simpl.
  - apply log_extends_refl.
  - eapply log_extends_trans; [| apply IH].
    rewrite iteration_chunk. simpl. apply for_lines_log.
Qed.

(** C8: an [error] event and a transport failure (a fetch that rejects, a
    response that is not ok or has no body, a read that rejects) append
    one entry of kind [error] after the entries collected so far and
    store the error; the progress, the row total, the result and the
    download are what they were. *)
Theorem fatal_transitions_keep_state :
  (forall (data : value) (st : Stream.AppState),
     is_event data "error" = true ->
     let st' := fst (Stream.handleSSEEvent data st) in
     Stream.logEntries st' =
       Stream.logEntries st ++
       [message_entry LogEntry.error (field data "message")
          (Stream.logId st + 1)%N] /\
     Stream.error st' = Some (Stream.api_error (field data "message")) /\
     Stream.progress st' = Stream.progress st /\
     Stream.totalRows st' = Stream.totalRows st /\
     Stream.result st' = Stream.result st /\
     Stream.downloadUrl st' = Stream.downloadUrl st) /\
  (forall (net : Stream.fetch_outcome) (st before : Stream.AppState)
          (f : File) (err : thrown),
     Stream.file st = Some f ->
     Stream.apiStatus st = online ->
     Stream.try_block net (Stream.start_run f st) = (before, Some err) ->
     let st' := Stream.processFile net st in
     Stream.logEntries st' =
       Stream.logEntries before ++
       [message_entry LogEntry.error
          (Str (js "Error: " ++ error_message_of err))
          (Stream.logId before + 1)%N] /\
     Stream.error st' =
       Some (Stream.api_error (Str (error_message_of err))) /\
     Stream.progress st' = Stream.progress before /\
     Stream.totalRows st' = Stream.totalRows before /\
     Stream.result st' = Stream.result before /\
     Stream.downloadUrl st' = Stream.downloadUrl before) /\
  (forall (st : Stream.AppState) (err : thrown),
     Stream.try_block (Stream.FetchRejects err) st = (st, Some err)) /\
  (forall (st : Stream.AppState) (r : Stream.Response),
     Stream.response_ok r = false ->
     exists err, Stream.try_block (Stream.FetchResolves r) st = (st, Some err)) /\
  (forall (st : Stream.AppState) (r : Stream.Response)
          (cs : list (list byte)) (err : thrown),
     Stream.response_ok r = true ->
     Stream.body r =
       Some {| Stream.chunks := cs; Stream.ending := Stream.ReadRejects err |} ->
     exists before l,
       Stream.try_block (Stream.FetchResolves r) st = (before, Some err) /\
       Stream.logEntries before = Stream.logEntries st ++ l).
Proof.
  split; [| split; [| split; [| split]]].
  - intros data st Hty st'. subst st'.
    rewrite (handle_error_event _ st Hty). repeat split.
  - intros net st before f err Hf Ha Htry st'. subst st'.
    unfold Stream.processFile. rewrite Hf, Ha, Htry. repeat split.
  - reflexivity.
  - intros st r Hok. unfold Stream.try_block. rewrite Hok. simpl.
    eexists. reflexivity.
  - intros st r cs err Hok Hbody. unfold Stream.try_block.
    rewrite Hok, Hbody. simpl. unfold Stream.read_loop. simpl.
    destruct (read_chunks_log cs
                {| Stream.decoder := new_TextDecoder; Stream.buffer := [];
                   Stream.acc := st |}) as [l Hl].
    eexists. exists l. split; [reflexivity | exact Hl].
Qed.

Lemma fatal_transitions_keep_state_witness :
  is_event error_event "error" = true /\
  Stream.progress (fst (Stream.handleSSEEvent error_event Stream.ready)) =
  Stream.progress Stream.ready.
Proof.
  split; [reflexivity |].
  exact (proj1 (proj2 (proj2
    (proj1 fatal_transitions_keep_state error_event Stream.ready eq_refl)))).
Defined.

(** C10: an [error] event ends nothing.  Its handler returns normally
    with the error stored; the loop goes on to every later frame of the
    stream; a later event that is not an [error] leaves the stored error
    alone while it is applied: a [progress] event whose counts convert
    to numbers still sets the progress and appends its entry, a
    [complete] event still sets the progress to 100 and installs the
    result and, when its [elapsed] converts to a string and its file
    decodes, the download. *)
Theorem processing_continues_after_error
  (err_data : value) (st : Stream.AppState) :
  is_event err_data "error" = true ->
  let st1 := fst (Stream.handleSSEEvent err_data st) in
  snd (Stream.handleSSEEvent err_data st) = inr tt /\
  Stream.error st1 = Some (Stream.api_error (field err_data "message")) /\
  (forall (final : bool) (line : jsstring) (rest : list (bool * jsstring)),
     JSON_parse (slice line 6) = inr err_data ->
     Stream.run_frames ((final, line) :: rest) st = Stream.run_frames rest st1) /\
  (forall (cs : list (list byte)) (s : Stream.AppState),
     Stream.read_loop Stream.process_frame s
       {| Stream.chunks := cs; Stream.ending := Stream.EndOfStream |} =
     (Stream.run_frames (Stream.tagged_frames (Stream.stream_text cs)) s, None)) /\
  (forall (data : value) (s : Stream.AppState),
     Stream.error s = Stream.error st1 ->
     is_event data "error" = false ->
     Stream.error (fst (Stream.handleSSEEvent data s)) = Stream.error st1) /\
  (forall (data : value) (s : Stream.AppState) (p t : float),
     is_event data "progress" = true ->
     nullish (field data "stats") = false ->
     ToNumber (field (field data "stats") "procesadas") = inr p ->
     ToNumber (field data "total") = inr t ->
     let s' := fst (Stream.handleSSEEvent data s) in
     Stream.progress s' = Math_round (fmul (fdiv p t) f100) /\
     List.length (Stream.logEntries s') = S (List.length (Stream.logEntries s))) /\
  (forall (data : value) (s : Stream.AppState),
     Stream.error s = Stream.error st1 ->
     is_event data "complete" = true ->
     nullish (field data "stats") = false ->
     let s' := fst (Stream.handleSSEEvent data s) in
     Stream.progress s' = f100 /\
     Stream.result s' =
       Some {| total := field (field data "stats") "procesadas";
               encontrados := field (field data "stats") "encontradas";
               noEncontrados := field (field data "stats") "no_encontradas";
               errores := field (field data "stats") "errores" |} /\
     Stream.error s' = Some (Stream.api_error (field err_data "message")) /\
     forall elapsed byteCharacters : jsstring,
       ToString (field data "elapsed") = inr elapsed ->
       ToBoolean (field data "file") = true ->
       atob_value (field data "file") = inr byteCharacters ->
       Stream.downloadUrl s' =
         Some {| blob_parts := Uint8Array byteCharacters;
                 blob_type := xlsx_mime |}).
Proof.
  intros Hty st1. subst st1.
  rewrite (handle_error_event _ st Hty). cbn [fst snd].
  split; [reflexivity |]. split; [reflexivity |].
  split.
  { intros final line rest Hparse. unfold Stream.run_frames. simpl.
    unfold Stream.process_frame. rewrite Hparse.
    now rewrite (handle_error_event _ st Hty). }
  split; [intros cs s; apply read_loop_never_throws |].
  split.
  { intros data s Hs Hne. rewrite <- Hs.
    now apply (handle_frame_conditions data s). }
  split.
  { intros data s p t Hp Hstats Hnp Hnt.
    rewrite (handle_progress_event _ s Hp Hstats Hnp Hnt). simpl.
    split; [reflexivity |]. rewrite length_app. simpl. lia. }
  intros data s Hs Hc Hstats.
  destruct (ToString (field data "elapsed")) as [e | elapsed] eqn:Hel.
  - rewrite (handle_complete_elapsed_throws _ s Hc Hstats Hel).
    cbn [fst]. repeat split; [exact Hs |].
    intros ? ? H. discriminate H.
  - rewrite (handle_complete_counts _ s Hc Hstats Hel).
    unfold Stream.bind, Stream.modify, Stream.lift, Stream.ret.
    destruct (ToBoolean (field data "file")).
    + destruct (atob_value (field data "file")) as [e | chars]; simpl;
        repeat split; try exact Hs; intros ? ? _ _ H; try discriminate H.
      now injection H as <-.
    + simpl. repeat split; try exact Hs. intros ? ? _ H. discriminate H.
Qed.

Lemma processing_continues_after_error_witness :
  is_event error_event "error" = true /\
  Stream.run_frames [(false, error_frame); (false, complete_with_file_frame)]
    Stream.ready =
  Stream.run_frames [(false, complete_with_file_frame)]
    (fst (Stream.handleSSEEvent error_event Stream.ready)).
Proof.
  split; [reflexivity |].
  exact (proj1 (proj2 (proj2
    (processing_continues_after_error error_event Stream.ready eq_refl)))
    false error_frame [(false, complete_with_file_frame)] eq_refl).
Defined.

(** A run whose stream holds an [error] frame, then a [progress] frame
    and a [complete] frame with a file: all three are applied. *)
Example error_then_complete_run :
  let st := Stream.processFile
    (Stream.FetchResolves
       {| Stream.response_status := 200; Stream.statusText := js "OK";
          Stream.body := Some
            {| Stream.chunks :=
                 [lines_bytes [error_frame; progress_frame;
                               complete_with_file_frame]];
               Stream.ending := Stream.EndOfStream |} |})
    Stream.ready in
  Stream.error st = Some (Stream.api_error (Str (js "fallo"))) /\
  Stream.progress st = f100 /\
  Stream.result st <> None /\
  Stream.downloadUrl st <> None /\
  map LogEntry.type (Stream.logEntries st) =
    [LogEntry.info; LogEntry.error; LogEntry.found; LogEntry.complete].
Proof. vm_compute. repeat split; discriminate. Qed.

(* ===================================================================== *)
(** * The percentage of a [progress] event *)
(* ===================================================================== *)

Lemma division_by_zero_not_finite (p : float) (s : bool) :
  is_finite (Math_round (fmul (fdiv p (S754_zero s)) f100)) = false.
Proof. destruct p as [sp | sp | | sp m e]; destruct s; try destruct sp; reflexivity. Qed.

(** C2, as the code has it: a [progress] event with [stats] whose two
    counts convert to numbers stores
    [Math.round((procesadas / total) * 100)], computed on doubles,
    whatever the percentage was; 4 of 10 gives 40; nothing clamps the
    value, and when [total] is a zero the value stored is NaN or an
    infinity.  A count that does not convert (an object with an own
    [toString] key) makes the division throw, and nothing is stored. *)
Theorem progress_percentage (data : value) (st : Stream.AppState) :
  is_event data "progress" = true ->
  nullish (field data "stats") = false ->
  let st' := fst (Stream.handleSSEEvent data st) in
  (forall p t : float,
     ToNumber (field (field data "stats") "procesadas") = inr p ->
     ToNumber (field data "total") = inr t ->
     Stream.progress st' = Math_round (fmul (fdiv p t) f100) /\
     (forall s, t = S754_zero s -> is_finite (Stream.progress st') = false)) /\
  (forall e : exn,
     ToNumber (field (field data "stats") "procesadas") = inl e \/
     ToNumber (field data "total") = inl e ->
     Stream.handleSSEEvent data st = (st, inl TypeError)) /\
  Math_round (fmul (fdiv (float_of_Z 4) (float_of_Z 10)) f100) = float_of_Z 40.
Proof.
  intros Hty Hstats st'. subst st'.
  split; [| split; [| reflexivity]].
  - intros p t Hp Ht.
    rewrite (handle_progress_event _ st Hty Hstats Hp Ht). cbn [fst].
    split; [reflexivity |].
    intros s Hs. cbn [Stream.progress Stream.addLogEntry Stream.setProgress].
    rewrite Hs. apply division_by_zero_not_finite.
  - intros e H. apply (handle_progress_throws _ st Hty Hstats).
    destruct H as [H | H]; [left | right];
      now rewrite <- (@ToNumber_throws _ _ H).
Qed.

Lemma progress_percentage_witness :
  is_event (progress_event 4 10) "progress" = true /\
  nullish (field (progress_event 4 10) "stats") = false /\
  Stream.progress (fst (Stream.handleSSEEvent (progress_event 4 10) Stream.ready))
  = float_of_Z 40.
Proof.
  split; [reflexivity |]. split; [reflexivity |].
  exact (proj1 (proj1 (progress_percentage (progress_event 4 10) Stream.ready
                         eq_refl eq_refl)
                  (float_of_Z 4) (float_of_Z 10) eq_refl eq_refl)).
Defined.

(** C2 as stated fails: with the percentage at 40, a [progress] event
    whose [total] is 0 stores NaN instead of leaving 40, and one that
    reports 3 rows of 2 stores 150, above 100. *)
Lemma progress_neither_guarded_nor_clamped :
  let st := Stream.setProgress (float_of_Z 40) Stream.ready in
  Stream.progress (fst (Stream.handleSSEEvent (progress_event 0 0) st)) = NaN /\
  Stream.progress (fst (Stream.handleSSEEvent (progress_event 0 0) st)) <>
    Stream.progress st /\
  Stream.progress (fst (Stream.handleSSEEvent (progress_event 3 2) st)) =
    float_of_Z 150 /\
  flt f100 (float_of_Z 150) = true.
Proof. vm_compute. repeat split. discriminate. Qed.

(* ===================================================================== *)
(** * The summary of the one-shot response *)
(* ===================================================================== *)

(** C9: the [response.ok] branch always ends with a summary.  Without the
    [X-Processing-Stats] header, with an empty one, with one that
    [JSON.parse] rejects or that holds [null], the summary is all zeros;
    with one that parses, each field is the header's, 0 standing in for a
    field that is missing and a 0 that is present being kept. *)
Theorem fallback_summary
  (blob : Blob) (statsHeader timeHeader : option jsstring) (elapsed : N)
  (st : OneShot.AppState) :
  let st' := OneShot.on_response_ok blob statsHeader timeHeader elapsed st in
  (statsHeader = None \/ statsHeader = Some [] ->
     OneShot.result st' = Some OneShot.zero_summary) /\
  (forall h e, statsHeader = Some h -> JSON_parse h = inl e ->
     OneShot.result st' = Some OneShot.zero_summary) /\
  (forall h raw, statsHeader = Some h -> JSON_parse h = inr raw ->
     nullish raw = true ->
     OneShot.result st' = Some OneShot.zero_summary) /\
  (forall h raw, statsHeader = Some h -> h <> [] -> JSON_parse h = inr raw ->
     nullish raw = false ->
     OneShot.result st' =
       Some {| total := nullish_or (field raw "procesadas") (Num f0);
               encontrados := nullish_or (field raw "encontradas") (Num f0);
               noEncontrados := nullish_or (field raw "no_encontradas") (Num f0);
               errores := nullish_or (field raw "errores") (Num f0) |}) /\
  (forall raw k, field raw k = Undefined ->
     nullish_or (field raw k) (Num f0) = Num f0) /\
  (forall raw k x, field raw k = Num x ->
     nullish_or (field raw k) (Num f0) = Num x) /\
  OneShot.progress st' = f100 /\
  OneShot.downloadUrl st' = Some blob.
Proof.
  cbv zeta. unfold OneShot.on_response_ok.
  split.
  { intros [-> | ->]; reflexivity. }
  split.
  { intros h e -> Hp. unfold OneShot.stats_of_header. rewrite Hp.
    destruct h; reflexivity. }
  split.
  { intros h raw -> Hp Hn. unfold OneShot.stats_of_header. rewrite Hp.
    rewrite !(nullish_get _ _ Hn). destruct h; reflexivity. }
  split.
  { intros h raw -> Hne Hp Hn. unfold OneShot.stats_of_header. rewrite Hp.
    rewrite !(not_nullish_get _ _ Hn).
    destruct h; [contradiction | reflexivity]. }
  split; [intros raw k ->; reflexivity |].
  split; [intros raw k x ->; reflexivity |].
  destruct (OneShot.stats_of_header statsHeader); split; reflexivity.
Qed.

Lemma fallback_summary_witness :
  (@None jsstring = None \/ @None jsstring = Some []) /\
  OneShot.result
    (OneShot.on_response_ok {| blob_parts := []; blob_type := [] |}
       None None 5 OneShot.initial) = Some OneShot.zero_summary.
Proof.
  split; [left; reflexivity |].
  exact (proj1 (fallback_summary {| blob_parts := []; blob_type := [] |}
                  None None 5 OneShot.initial) (or_introl eq_refl)).
Defined.

(* ===================================================================== *)
(** * Rounding to nearest on doubles, in integers *)
(* ===================================================================== *)

Unset Implicit Arguments.
Local Open Scope Z_scope.

(* ---- digits ---- *)
Lemma digits2_pos_size (p : positive) : digits2_pos p = Pos.size p.
Proof. induction p; simpl; congruence. Qed.

Lemma Zdigits2_log2 (m : Z) : 0 < m -> Zdigits2 m = Z.log2 m + 1.
Proof.
  destruct m as [| p | p]; try lia. intros _. simpl.
  rewrite digits2_pos_size.
  destruct p; simpl; lia.
Qed.

Lemma Zdigits2_bounds (m : Z) :
  0 < m -> 2 ^ (Zdigits2 m - 1) <= m < 2 ^ Zdigits2 m.
Proof.
  intros H. rewrite Zdigits2_log2 by assumption.
  replace (Z.log2 m + 1 - 1) with (Z.log2 m) by lia.
  apply Z.log2_spec. assumption.
Qed.

Lemma Zdigits2_pos (m : Z) : 0 < m -> 0 < Zdigits2 m.
Proof.
  intros H. rewrite Zdigits2_log2 by assumption.
  pose proof (Z.log2_nonneg m). lia.
Qed.

Lemma Zdigits2_unique (m d : Z) :
  0 < d -> 2 ^ (d - 1) <= m < 2 ^ d -> Zdigits2 m = d.
Proof.
  intros Hd H.
  assert (0 < m). { pose proof (Z.pow_pos_nonneg 2 (d - 1)). lia. }
  rewrite Zdigits2_log2 by assumption.
  rewrite (Z.log2_unique m (d - 1)); try lia.
  replace (Z.succ (d - 1)) with d by lia. assumption.
Qed.

Lemma Zdigits2_le (a b : Z) : 0 < a -> a <= b -> Zdigits2 a <= Zdigits2 b.
Proof.
  intros Ha Hab. rewrite !Zdigits2_log2 by lia.
  pose proof (Z.log2_le_mono a b Hab). lia.
Qed.

(* ---- the shift of shr ---- *)
Lemma iter_pos_nat (A : Type) (f : A -> A) (p : positive) : forall x,
  iter_pos f p x = Nat.iter (Pos.to_nat p) f x.
Proof.
  induction p as [p IH | p IH |]; intros x; cbn [iter_pos].
  - rewrite !IH. rewrite Pos2Nat.inj_xI.
    replace (S (2 * Pos.to_nat p))%nat with (Pos.to_nat p + Pos.to_nat p + 1)%nat by lia.
    rewrite !Nat.iter_add. reflexivity.
  - rewrite !IH. rewrite Pos2Nat.inj_xO.
    replace (2 * Pos.to_nat p)%nat with (Pos.to_nat p + Pos.to_nat p)%nat by lia.
    rewrite !Nat.iter_add. reflexivity.
  - reflexivity.
Qed.

Lemma shr_1_m (mrs : shr_record) :
  0 <= shr_m mrs -> shr_m (shr_1 mrs) = shr_m mrs / 2 /\ shr_r (shr_1 mrs) = Z.odd (shr_m mrs).
Proof.
  destruct mrs as [m r s]; simpl. intros H.
  destruct m as [| p | p]; try lia.
  - split; reflexivity.
  - destruct p as [p | p |]; simpl; split; try reflexivity.
    + change (Z.pos p~1) with (2 * Z.pos p + 1). 
      apply Z.div_unique with 1; lia.
    + change (Z.pos p~0) with (2 * Z.pos p).
      apply Z.div_unique with 0; lia.
Qed.

Lemma shr_iter (n : nat) : forall mrs,
  0 <= shr_m mrs ->
  shr_m (Nat.iter n shr_1 mrs) = shr_m mrs / 2 ^ Z.of_nat n /\
  (0 < n -> shr_r (Nat.iter n shr_1 mrs) = Z.odd (shr_m mrs / 2 ^ (Z.of_nat n - 1)))%nat.
Proof.
  induction n as [| n IH]; intros mrs H.
  - simpl. rewrite Z.div_1_r. split; [reflexivity | lia].
  - destruct (IH mrs H) as [Hm Hr].
    assert (H0 : 0 <= shr_m (Nat.iter n shr_1 mrs)).
    { rewrite Hm. apply Z.div_pos; [assumption |]. apply Z.pow_pos_nonneg; lia. }
    rewrite Nat.iter_succ.
    destruct (shr_1_m (Nat.iter n shr_1 mrs) H0) as [Hm1 Hr1].
    split.
    + rewrite Hm1, Hm. rewrite Nat2Z.inj_succ, Z.pow_succ_r by lia.
      pose proof (Z.pow_pos_nonneg 2 (Z.of_nat n)).
      rewrite Z.div_div by lia. now rewrite (Z.mul_comm 2).
    + intros _. rewrite Hr1, Hm.
      replace (Z.of_nat (S n) - 1) with (Z.of_nat n) by lia. reflexivity.
Qed.



Lemma fexp_eq (x : Z) : fexp prec emax x = Z.max (x - 53) (-1074).
Proof. reflexivity. Qed.


Lemma rnd_m_bounds (mrs : shr_record) :
  shr_m mrs <= rnd_m mrs <= shr_m mrs + 1 /\
  (rnd_m mrs = shr_m mrs + 1 -> shr_r mrs = true).
Proof.
  destruct mrs as [m [|] [|]]; unfold rnd_m; simpl; try destruct (Z.even m); lia || (split; [lia | intros; (reflexivity || lia)]).
Qed.

Lemma odd_half (M k : Z) :
  0 <= M -> 0 < k -> Z.odd (M / 2 ^ (k - 1)) = true -> 2 ^ k <= 2 * (M mod 2 ^ k).
Proof.
  intros HM Hk Hodd.
  assert (Hp : 0 < 2 ^ (k - 1)) by (apply Z.pow_pos_nonneg; lia).
  assert (E : 2 ^ k = 2 * 2 ^ (k - 1)).
  { replace k with (Z.succ (k - 1)) at 1 by lia. apply Z.pow_succ_r. lia. }
  pose proof (Z.div_mod M (2 ^ (k - 1)) ltac:(lia)) as Hdm.
  pose proof (Z.mod_pos_bound M (2 ^ (k - 1)) Hp) as Hb.
  set (a := M / 2 ^ (k - 1)) in *. set (b := M mod 2 ^ (k - 1)) in *.
  pose proof (Zmod_odd a) as Ha. rewrite Hodd in Ha.
  pose proof (Z.div_mod a 2 ltac:(lia)) as Ha2. rewrite Ha in Ha2.
  assert (Hmod : M mod 2 ^ k = 2 ^ (k - 1) + b).
  { symmetry. apply Z.mod_unique with (a / 2); [lia |]. rewrite E. nia. }
  lia.
Qed.

(** The first shift of a rounding: the quotient and the rounded quotient. *)
Lemma shr_round (M e k : Z) :
  0 <= M -> 0 < k ->
  let mrs := fst (shr (Build_shr_record M false false) e k) in
  snd (shr (Build_shr_record M false false) e k) = e + k /\
  M / 2 ^ k <= rnd_m mrs <= M / 2 ^ k + 1 /\
  (rnd_m mrs = M / 2 ^ k + 1 -> 2 ^ k <= 2 * (M mod 2 ^ k)).
Proof.
  intros HM Hk. destruct k as [| p | p]; try lia. cbn zeta.
  unfold shr. cbn [fst snd]. split; [reflexivity |].
  rewrite iter_pos_nat.
  destruct (shr_iter (Pos.to_nat p) (Build_shr_record M false false) HM) as [Hm Hr].
  cbn [shr_m] in Hm, Hr. rewrite positive_nat_Z in Hm, Hr.
  specialize (Hr ltac:(lia)).
  destruct (rnd_m_bounds (Nat.iter (Pos.to_nat p) shr_1 (Build_shr_record M false false)))
    as [Hb Hup].
  rewrite Hm in Hb, Hup. split; [exact Hb |].
  intros Hq. specialize (Hup Hq). rewrite Hr in Hup.
  apply odd_half; assumption || lia.
Qed.


Lemma div_pow2_lt (M d k : Z) :
  0 <= M -> 0 <= k -> M < 2 ^ d -> k <= d -> M / 2 ^ k < 2 ^ (d - k).
Proof.
  intros HM Hk HMd Hkd.
  apply Z.div_lt_upper_bound; [apply Z.pow_pos_nonneg; lia |].
  rewrite <- Z.pow_add_r by lia. replace (k + (d - k)) with d by lia. assumption.
Qed.

Lemma div_pow2_ge (M d k : Z) :
  0 <= k -> k <= d -> 2 ^ d <= M -> 2 ^ (d - k) <= M / 2 ^ k.
Proof.
  intros Hk Hkd HM.
  apply Z.div_le_lower_bound; [apply Z.pow_pos_nonneg; lia |].
  rewrite <- Z.pow_add_r by lia. replace (k + (d - k)) with d by lia. assumption.
Qed.


Lemma pow2_53 : 2 ^ 53 = 9007199254740992. Proof. reflexivity. Qed.
Lemma pow2_52 : 2 ^ 52 = 4503599627370496. Proof. reflexivity. Qed.

Lemma shr_fexp_noshift (q e : Z) :
  fexp prec emax (Zdigits2 q + e) <= e ->
  shr_fexp prec emax q e loc_Exact = (Build_shr_record q false false, e).
Proof.
  intros H. unfold shr_fexp, shr. cbn [shr_record_of_loc].
  destruct (fexp prec emax (Zdigits2 q + e) - e) eqn:E; try reflexivity. lia.
Qed.

(** What [binary_round_aux] returns for a positive mantissa whose
    exponent is not above the one its size calls for. *)
Lemma binary_round_aux_spec (M e : Z) :
  0 < M ->
  e <= fexp prec emax (Zdigits2 M + e) ->
  let e' := fexp prec emax (Zdigits2 M + e) in
  let k := e' - e in
  exists q : Z,
    M / 2 ^ k <= q <= M / 2 ^ k + 1 /\
    (q = M / 2 ^ k + 1 -> 2 ^ k <= 2 * (M mod 2 ^ k)) /\
    q <= 2 ^ 53 /\
    (0 < q < 2 ^ 53 -> fexp prec emax (Zdigits2 q + e') = e') /\
    (e' <> -1074 -> 2 ^ 52 <= q) /\
    binary_round_aux prec emax false M e loc_Exact = round_result q e'.
Proof.
  intros HM He e' k.
  pose proof (Zdigits2_bounds M HM) as Hd.
  pose proof (Zdigits2_pos M HM) as Hdpos.
  set (d := Zdigits2 M) in *.
  assert (He' : e' = Z.max (d + e - 53) (-1074)) by reflexivity.
  assert (Hk : 0 <= k) by (unfold k; lia).
  unfold binary_round_aux.
  destruct (Z.eq_dec k 0) as [Hk0 | Hk0].
  - (* no shift: the mantissa is kept *)
    exists M.
    assert (Ee : e' = e) by (unfold k in Hk0; lia).
    rewrite Hk0, Z.pow_0_r, Z.div_1_r.
    assert (Hd53 : d <= 53) by lia.
    assert (HM53 : M < 2 ^ 53).
    { eapply Z.lt_le_trans; [apply Hd |]. apply Z.pow_le_mono_r; lia. }
    split; [lia |]. split; [lia |]. split; [lia |].
    split. { intros _. fold d. rewrite Ee. fold e'. exact Ee. }
    split.
    { intros Hne. assert (d = 53) by lia. subst d.
      replace 52 with (Zdigits2 M - 1) by lia. apply Hd. }
    rewrite shr_fexp_noshift by (fold d; fold e'; lia).
    cbn [shr_m loc_of_shr_record round_nearest_even].
    rewrite shr_fexp_noshift by (fold d; fold e'; lia).
    cbn [shr_m]. unfold round_result.
    destruct M as [| m | m]; try lia.
    rewrite Ee.
    replace (Z.pos m =? 0) with false by (symmetry; apply Z.eqb_neq; lia).
    replace (Z.pos m <? 2 ^ 53) with true by (symmetry; apply Z.ltb_lt; lia).
    reflexivity.
  - (* a shift by k > 0 *)
    assert (Hkpos : 0 < k) by lia.
    destruct (shr_round M e k ltac:(lia) Hkpos) as [Hsnd [Hq Hup]].
    unfold shr_fexp at 1. cbn [shr_record_of_loc]. fold d. fold e'. fold k.
    destruct (shr (Build_shr_record M false false) e k) as [mrs e1] eqn:Eshr.
    cbn [fst snd] in Hsnd, Hq, Hup. subst e1.
    replace (e + k) with e' by (unfold k; lia).
    fold (rnd_m mrs).
    remember (rnd_m mrs) as q eqn:Eq0.
    exists q.
    assert (Hq0 : 0 <= M / 2 ^ k).
    { apply Z.div_pos; [lia | apply Z.pow_pos_nonneg; lia]. }
    assert (Hq53 : M / 2 ^ k < 2 ^ 53).
    { destruct (Z_le_gt_dec k d) as [Hkd | Hkd].
      - eapply Z.lt_le_trans; [apply div_pow2_lt with (d := d); lia |].
        apply Z.pow_le_mono_r; unfold k; lia.
      - rewrite Z.div_small; [lia |]. split; [lia |].
        eapply Z.lt_le_trans; [apply Hd |]. apply Z.pow_le_mono_r; lia. }
    assert (Hnormal : e' <> -1074 -> 2 ^ 52 <= M / 2 ^ k).
    { intros Hne. assert (Ek : k = d - 53) by (unfold k; lia).
      replace 52 with ((d - 1) - k) by lia.
      apply div_pow2_ge; lia. }
    assert (Hcanon : 0 < q < 2 ^ 53 -> fexp prec emax (Zdigits2 q + e') = e').
    { intros [Hq1 Hq2]. rewrite fexp_eq.
      assert (Zdigits2 q <= 53).
      { destruct (Z_le_gt_dec (Zdigits2 q) 53); [assumption |].
        pose proof (Zdigits2_bounds q Hq1) as Hb.
        assert (2 ^ 53 <= 2 ^ (Zdigits2 q - 1)) by (apply Z.pow_le_mono_r; lia).
        lia. }
      destruct (Z.eq_dec e' (-1074)) as [Hs | Hn]; [lia |].
      specialize (Hnormal Hn).
      assert (53 <= Zdigits2 q).
      { replace 53 with (Zdigits2 (2 ^ 52)) by reflexivity.
        apply Zdigits2_le; [reflexivity | lia]. }
      lia. }
    split; [exact Hq |]. split; [exact Hup |]. split; [lia |].
    split; [exact Hcanon |]. split; [intros Hn; specialize (Hnormal Hn); lia |].
    unfold round_result.
    destruct (Z.eq_dec q 0) as [Hz | Hnz].
    + rewrite Hz. cbn [Z.eqb].
      rewrite shr_fexp_noshift by (cbn [Zdigits2]; rewrite fexp_eq; lia).
      reflexivity.
    + replace (q =? 0) with false by (symmetry; apply Z.eqb_neq; lia).
      destruct (Z_lt_ge_dec q (2 ^ 53)) as [Hlt | Hge].
      * replace (q <? 2 ^ 53) with true by (symmetry; apply Z.ltb_lt; lia).
        rewrite shr_fexp_noshift by (rewrite Hcanon by lia; lia).
        cbn [shr_m]. destruct q as [| qp | qp]; try lia. reflexivity.
      * replace (q <? 2 ^ 53) with false by (symmetry; apply Z.ltb_ge; lia).
        assert (Eq : q = 2 ^ 53) by lia. rewrite Eq.
        unfold shr_fexp. cbn [shr_record_of_loc].
        change (Zdigits2 (2 ^ 53)) with 54. rewrite fexp_eq.
        replace (Z.max (54 + e' - 53) (-1074) - e') with 1 by lia.
        reflexivity.
Qed.



Lemma bounded_facts (m : positive) (e : Z) :
  bounded prec emax m e = true ->
  -1074 <= e <= 971 /\ Z.pos m < 2 ^ 53 /\
  (e <> -1074 -> 2 ^ 52 <= Z.pos m) /\
  fexp prec emax (Zdigits2 (Z.pos m) + e) = e.
Proof.
  unfold bounded, canonical_mantissa. intros H.
  apply andb_prop in H. destruct H as [Hc He].
  apply Z.eqb_eq in Hc. apply Z.leb_le in He.
  change (emax - prec) with 971 in He.
  change (Z.pos (digits2_pos m)) with (Zdigits2 (Z.pos m)) in Hc.
  pose proof (Zdigits2_bounds (Z.pos m) ltac:(lia)) as Hd.
  pose proof (Zdigits2_pos (Z.pos m) ltac:(lia)) as Hp.
  rewrite fexp_eq in Hc.
  split; [lia |]. split; [| split; [| rewrite fexp_eq; exact Hc]].
  - eapply Z.lt_le_trans; [apply Hd |]. apply Z.pow_le_mono_r; lia.
  - intros Hn. assert (Zdigits2 (Z.pos m) = 53) by lia.
    replace 52 with (Zdigits2 (Z.pos m) - 1) by lia. apply Hd.
Qed.

Lemma pow2_pos (x : Z) : 0 <= x -> 0 < 2 ^ x.
Proof. intros. apply Z.pow_pos_nonneg; lia. Qed.

Lemma pow2_split (a b : Z) : 0 <= a -> 0 <= b -> 2 ^ (a + b) = 2 ^ a * 2 ^ b.
Proof. intros. apply Z.pow_add_r; assumption. Qed.

Lemma fle_finite_same_exp (a b : positive) (e : Z) :
  (Z.pos a <= Z.pos b) ->
  SFleb (S754_finite false a e) (S754_finite false b e) = true.
Proof.
  intros H. unfold SFleb, SFcompare. rewrite Z.compare_refl.
  change (Pos.compare_cont Eq a b) with (Pos.compare a b).
  destruct (Pos.compare_spec a b); try reflexivity. lia.
Qed.

Lemma fle_finite_lt_exp (a b : positive) (e1 e2 : Z) :
  e1 < e2 ->
  SFleb (S754_finite false a e1) (S754_finite false b e2) = true.
Proof.
  intros H. unfold SFleb, SFcompare.
  replace (e1 ?= e2) with Lt by (symmetry; apply Z.compare_lt_iff; lia).
  reflexivity.
Qed.

Lemma cancel_scale_le (a K M T : Z) :
  0 < T -> a * (K * T) <= M * T -> a * K <= M.
Proof.
  intros HT H. rewrite Z.mul_assoc in H.
  apply Z.mul_le_mono_pos_r in H; assumption.
Qed.

Lemma cancel_scale_lt (a K M T : Z) :
  0 < T -> M * T < a * (K * T) -> M < a * K.
Proof.
  intros HT H. rewrite Z.mul_assoc in H.
  apply Z.mul_lt_mono_pos_r in H; assumption.
Qed.

(** A value of size [d + e] is below every normal number of a higher
    exponent. *)
Lemma below_higher_exponent (M d e e' my ey : Z) :
  0 < M -> M < 2 ^ d -> 0 < d -> -2200 <= e -> d + e <= e' + 53 -> e' < ey ->
  -2200 <= ey -> 2 ^ 52 <= my ->
  sval M e < sval my ey.
Proof.
  intros HM HMd Hd He Hde Hlt Hey Hmy. unfold sval.
  assert (HT : 0 < 2 ^ (e + 2200)) by (apply pow2_pos; lia).
  assert (H4 : M * 2 ^ (e + 2200) < 2 ^ (d + e + 2200)).
  { replace (d + e + 2200) with (d + (e + 2200)) by lia.
    rewrite (pow2_split d (e + 2200)) by lia.
    apply Z.mul_lt_mono_pos_r; assumption. }
  assert (H3 : 2 ^ (d + e + 2200) <= 2 ^ (ey + 52 + 2200)).
  { apply Z.pow_le_mono_r; lia. }
  assert (H5 : 2 ^ (ey + 52 + 2200) = 2 ^ 52 * 2 ^ (ey + 2200)).
  { replace (ey + 52 + 2200) with (52 + (ey + 2200)) by lia.
    apply (pow2_split 52 (ey + 2200)); lia. }
  assert (H6 : 0 < 2 ^ (ey + 2200)) by (apply pow2_pos; lia).
  assert (H7 : 2 ^ 52 * 2 ^ (ey + 2200) <= my * 2 ^ (ey + 2200)).
  { apply Z.mul_le_mono_nonneg_r; lia. }
  lia.
Qed.

(** Rounding never goes below a representable number that the exact
    value reaches. *)
Lemma round_lower_bound (M e : Z) (my : positive) (ey : Z) :
  0 < M ->
  e <= fexp prec emax (Zdigits2 M + e) ->
  -2200 <= e ->
  bounded prec emax my ey = true ->
  sval (Z.pos my) ey <= sval M e ->
  SFleb (S754_finite false my ey)
        (binary_round_aux prec emax false M e loc_Exact) = true.
Proof.
  intros HM He Hlow Hb Hval.
  destruct (binary_round_aux_spec M e HM He) as [q [Hq [Hup [Hq53 [Hcan [Hnorm Hres]]]]]].
  rewrite Hres. clear Hres.
  destruct (bounded_facts my ey Hb) as [Hey [Hmy [Hmyn Hcy]]].
  pose proof (Zdigits2_bounds M HM) as Hd.
  pose proof (Zdigits2_pos M HM) as Hdpos.
  rewrite fexp_eq in *.
  set (d := Zdigits2 M) in *.
  remember (Z.max (d + e - 53) (-1074)) as e' eqn:Ee'.
  remember (e' - e) as k eqn:Ek.
  assert (HT : 0 < 2 ^ (e + 2200)) by (apply pow2_pos; lia).
  unfold sval in Hval.
  assert (Hqpos : 0 < q).
  { destruct (Z_lt_ge_dec e' ey) as [Hlt | Hge].
    - (* the value would be below y *)
      exfalso.
      assert (H1 : 2 ^ 52 <= Z.pos my) by (apply Hmyn; lia).
      pose proof (below_higher_exponent M d e e' (Z.pos my) ey HM
                    (proj2 Hd) Hdpos Hlow ltac:(lia) Hlt ltac:(lia) H1) as Hc.
      unfold sval in Hc. lia.
    - destruct (Z.eq_dec e' ey) as [Heq | Hne].
      + assert (H2 : 2 ^ (ey + 2200) = 2 ^ k * 2 ^ (e + 2200)).
        { rewrite <- (pow2_split k (e + 2200)) by lia. f_equal; lia. }
        rewrite H2 in Hval.
        assert (H3 : Z.pos my * 2 ^ k <= M) by (apply (cancel_scale_le _ _ _ _ HT Hval)).
        assert (H4 : Z.pos my <= M / 2 ^ k).
        { apply Z.div_le_lower_bound; [apply pow2_pos; lia | lia]. }
        lia.
      + assert (2 ^ 52 <= q) by (apply Hnorm; lia). lia. }
  unfold round_result.
  replace (q =? 0) with false by (symmetry; apply Z.eqb_neq; lia).
  destruct (Z_lt_ge_dec e' ey) as [Hlt | Hge].
  - (* excluded as above *)
    exfalso.
    assert (H1 : 2 ^ 52 <= Z.pos my) by (apply Hmyn; lia).
    pose proof (below_higher_exponent M d e e' (Z.pos my) ey HM
                  (proj2 Hd) Hdpos Hlow ltac:(lia) Hlt ltac:(lia) H1) as Hc.
    unfold sval in Hc. lia.
  - destruct (q <? 2 ^ 53) eqn:Eq53.
    + destruct (e' <=? 971); [| reflexivity].
      destruct (Z.eq_dec e' ey) as [Heq | Hne].
      * rewrite Heq. apply fle_finite_same_exp.
        rewrite Z2Pos.id by lia.
        assert (H2 : 2 ^ (ey + 2200) = 2 ^ k * 2 ^ (e + 2200)).
        { rewrite <- (pow2_split k (e + 2200)) by lia. f_equal; lia. }
        rewrite H2 in Hval.
        assert (H3 : Z.pos my * 2 ^ k <= M) by (apply (cancel_scale_le _ _ _ _ HT Hval)).
        assert (H4 : Z.pos my <= M / 2 ^ k).
        { apply Z.div_le_lower_bound; [apply pow2_pos; lia | lia]. }
        lia.
      * apply fle_finite_lt_exp. lia.
    + destruct (e' + 1 <=? 971); [| reflexivity].
      apply fle_finite_lt_exp. lia.
Qed.


(** A normal value of exponent [e'] is at least half of anything that
    fits 54 bits at a lower exponent. *)
Lemma above_lower_exponent (M d e e' n ey : Z) :
  2 ^ (d - 1) <= M -> 0 < d -> -2200 <= e -> e' = d + e - 53 -> ey < e' ->
  -2200 <= ey -> 0 <= n < 2 ^ 54 ->
  sval n ey < 2 * sval M e.
Proof.
  intros HM Hd He He' Hlt Hey Hn. unfold sval.
  assert (HT : 0 < 2 ^ (e + 2200)) by (apply pow2_pos; lia).
  assert (HU : 0 < 2 ^ (ey + 2200)) by (apply pow2_pos; lia).
  assert (H1 : n * 2 ^ (ey + 2200) < 2 ^ 54 * 2 ^ (ey + 2200)).
  { apply Z.mul_lt_mono_pos_r; lia. }
  assert (H2 : 2 ^ 54 * 2 ^ (ey + 2200) = 2 ^ (54 + (ey + 2200))).
  { symmetry. apply (pow2_split 54 (ey + 2200)); lia. }
  assert (H3 : 2 ^ (54 + (ey + 2200)) <= 2 ^ (d + (e + 2200))).
  { apply Z.pow_le_mono_r; lia. }
  assert (H4 : 2 ^ (d + (e + 2200)) = 2 * 2 ^ (d - 1) * 2 ^ (e + 2200)).
  { rewrite (pow2_split d (e + 2200)) by lia. f_equal.
    replace d with (Z.succ (d - 1)) at 1 by lia. apply Z.pow_succ_r. lia. }
  assert (H5 : 2 ^ (d - 1) * 2 ^ (e + 2200) <= M * 2 ^ (e + 2200)).
  { apply Z.mul_le_mono_nonneg_r; lia. }
  lia.
Qed.

Lemma fle_zero_finite (s : bool) (m : positive) (e : Z) :
  SFleb (S754_zero s) (S754_finite false m e) = true.
Proof. reflexivity. Qed.

(** Rounding to nearest stays at or below a representable number when
    the exact value is below the midpoint that follows it. *)
Lemma round_upper_bound (M e : Z) (my : positive) (ey : Z) :
  0 < M ->
  e <= fexp prec emax (Zdigits2 M + e) ->
  -2200 <= e ->
  bounded prec emax my ey = true ->
  2 * sval M e < sval (2 * Z.pos my + 1) ey ->
  SFleb (binary_round_aux prec emax false M e loc_Exact)
        (S754_finite false my ey) = true.
Proof.
  intros HM He Hlow Hb Hval.
  destruct (binary_round_aux_spec M e HM He) as [q [Hq [Hup [Hq53 [Hcan [Hnorm Hres]]]]]].
  rewrite Hres. clear Hres.
  destruct (bounded_facts my ey Hb) as [Hey [Hmy [Hmyn Hcy]]].
  pose proof (Zdigits2_bounds M HM) as Hd.
  pose proof (Zdigits2_pos M HM) as Hdpos.
  rewrite fexp_eq in *.
  set (d := Zdigits2 M) in *.
  remember (Z.max (d + e - 53) (-1074)) as e' eqn:Ee'.
  remember (e' - e) as k eqn:Ek.
  assert (HT : 0 < 2 ^ (e + 2200)) by (apply pow2_pos; lia).
  assert (Hq0 : 0 <= M / 2 ^ k).
  { apply Z.div_pos; [lia | apply pow2_pos; lia]. }
  unfold round_result.
  destruct (Z.eq_dec q 0) as [Hz | Hnz].
  { rewrite Hz. reflexivity. }
  replace (q =? 0) with false by (symmetry; apply Z.eqb_neq; lia).
  destruct (Z_lt_ge_dec ey e') as [Hgt | Hle].
  - (* the value would be above the midpoint *)
    exfalso.
    pose proof (above_lower_exponent M d e e' (2 * Z.pos my + 1) ey
                  (proj1 Hd) Hdpos Hlow ltac:(lia) Hgt ltac:(lia)
                  ltac:(rewrite pow2_53 in Hmy; change (2 ^ 54) with 18014398509481984; lia)) as Hc.
    lia.
  - destruct (Z.eq_dec e' ey) as [Heq | Hne].
    + (* same exponent: the quotient is at most my *)
      assert (H2 : 2 ^ (ey + 2200) = 2 ^ k * 2 ^ (e + 2200)).
      { rewrite <- (pow2_split k (e + 2200)) by lia. f_equal; lia. }
      unfold sval in Hval. rewrite H2 in Hval.
      assert (HP : 0 < 2 ^ k) by (apply pow2_pos; lia).
      assert (H3 : 2 * M < (2 * Z.pos my + 1) * 2 ^ k).
      { apply (cancel_scale_lt _ _ _ _ HT). lia. }
      pose proof (Z.div_mod M (2 ^ k) ltac:(lia)) as Hdm.
      pose proof (Z.mod_pos_bound M (2 ^ k) HP) as Hr.
      assert (Hqle : q <= Z.pos my).
      { destruct (Z.eq_dec q (M / 2 ^ k + 1)) as [Hup1 | Hup0].
        - specialize (Hup Hup1).
          assert ((2 * (M / 2 ^ k) + 1) * 2 ^ k < (2 * Z.pos my + 1) * 2 ^ k) by lia.
          assert (2 * (M / 2 ^ k) + 1 < 2 * Z.pos my + 1).
          { eapply Z.mul_lt_mono_pos_r; eassumption. }
          lia.
        - assert (q = M / 2 ^ k) by lia.
          assert ((2 * (M / 2 ^ k)) * 2 ^ k < (2 * Z.pos my + 1) * 2 ^ k) by lia.
          assert (2 * (M / 2 ^ k) < 2 * Z.pos my + 1).
          { eapply Z.mul_lt_mono_pos_r; eassumption. }
          lia. }
      replace (q <? 2 ^ 53) with true by (symmetry; apply Z.ltb_lt; lia).
      replace (e' <=? 971) with true by (symmetry; apply Z.leb_le; lia).
      rewrite Heq. apply fle_finite_same_exp. rewrite Z2Pos.id by lia. exact Hqle.
    + (* a lower exponent *)
      assert (Hlt : e' < ey) by lia.
      destruct (q <? 2 ^ 53) eqn:Eq53.
      * replace (e' <=? 971) with true by (symmetry; apply Z.leb_le; lia).
        apply fle_finite_lt_exp. exact Hlt.
      * replace (e' + 1 <=? 971) with true by (symmetry; apply Z.leb_le; lia).
        destruct (Z.eq_dec (e' + 1) ey) as [E1 | E1].
        -- rewrite E1. apply fle_finite_same_exp.
           rewrite Z2Pos.id by (apply pow2_pos; lia). apply Hmyn. lia.
        -- apply fle_finite_lt_exp. lia.
Qed.



Lemma round_result_valid (q e : Z) :
  0 <= q <= 2 ^ 53 -> -1074 <= e ->
  (0 < q < 2 ^ 53 -> fexp prec emax (Zdigits2 q + e) = e) ->
  valid_binary prec emax (round_result q e) = true /\
  nonneg (round_result q e) = true.
Proof.
  intros Hq He Hcan. unfold round_result.
  destruct (Z.eqb_spec q 0) as [Hz | Hnz]; [split; reflexivity |].
  destruct (Z.ltb_spec q (2 ^ 53)) as [Hlt | Hge].
  - destruct (Z.leb_spec e 971) as [Hle | Hgt]; [| split; reflexivity].
    split; [| reflexivity].
    cbn [valid_binary]. unfold bounded, canonical_mantissa.
    change (Z.pos (digits2_pos (Z.to_pos q))) with (Zdigits2 (Z.pos (Z.to_pos q))).
    rewrite Z2Pos.id by lia. rewrite Hcan by lia.
    rewrite Z.eqb_refl. apply Z.leb_le. exact Hle.
  - destruct (Z.leb_spec (e + 1) 971) as [Hle | Hgt]; [| split; reflexivity].
    split; [| reflexivity].
    cbn [valid_binary]. unfold bounded, canonical_mantissa.
    change (Z.pos (digits2_pos (Z.to_pos (2 ^ 52)))) with 53.
    rewrite fexp_eq.
    replace (Z.max (53 + (e + 1) - 53) (-1074)) with (e + 1) by lia.
    rewrite Z.eqb_refl. apply Z.leb_le. exact Hle.
Qed.

Lemma binary_round_aux_valid (M e : Z) :
  0 < M -> e <= fexp prec emax (Zdigits2 M + e) ->
  valid_binary prec emax (binary_round_aux prec emax false M e loc_Exact) = true /\
  nonneg (binary_round_aux prec emax false M e loc_Exact) = true.
Proof.
  intros HM He.
  destruct (binary_round_aux_spec M e HM He) as [q [Hq [Hup [Hq53 [Hcan [Hnorm Hres]]]]]].
  rewrite Hres. apply round_result_valid; try assumption.
  - split; [| assumption].
    assert (0 <= M / 2 ^ (fexp prec emax (Zdigits2 M + e) - e)).
    { apply Z.div_pos; [lia |]. apply pow2_pos. lia. }
    lia.
  - rewrite fexp_eq. lia.
Qed.

(* ---- multiplication ---- *)

Lemma Zdigits2_mul_ge (a b : Z) :
  0 < a -> 0 < b -> Zdigits2 a + Zdigits2 b - 1 <= Zdigits2 (a * b).
Proof.
  intros Ha Hb.
  pose proof (Zdigits2_bounds a Ha) as Da. pose proof (Zdigits2_bounds b Hb) as Db.
  pose proof (Zdigits2_pos a Ha). pose proof (Zdigits2_pos b Hb).
  assert (Hab : 0 < a * b) by nia.
  pose proof (Zdigits2_bounds (a * b) Hab) as Dab.
  pose proof (Zdigits2_pos (a * b) Hab).
  assert (Hprod : 2 ^ (Zdigits2 a - 1 + (Zdigits2 b - 1)) <= a * b).
  { rewrite pow2_split by lia.
    apply Z.mul_le_mono_nonneg; try lia; apply Z.lt_le_incl, pow2_pos; lia. }
  destruct (Z_lt_ge_dec (Zdigits2 (a * b)) (Zdigits2 a + Zdigits2 b - 1)) as [Hlt | Hge];
    [| lia].
  assert (2 ^ Zdigits2 (a * b) <= 2 ^ (Zdigits2 a - 1 + (Zdigits2 b - 1))).
  { apply Z.pow_le_mono_r; lia. }
  lia.
Qed.

Lemma mul_exponent_ok (mx my : positive) (ex ey : Z) :
  bounded prec emax mx ex = true -> bounded prec emax my ey = true ->
  ex + ey <= fexp prec emax (Zdigits2 (Z.pos (mx * my)) + (ex + ey)).
Proof.
  intros Hx Hy.
  destruct (bounded_facts mx ex Hx) as [Hex [Hmx [Hnx Hcx]]].
  destruct (bounded_facts my ey Hy) as [Hey [Hmy [Hny Hcy]]].
  rewrite fexp_eq in *.
  pose proof (Zdigits2_mul_ge (Z.pos mx) (Z.pos my) ltac:(lia) ltac:(lia)) as Hd.
  rewrite Pos2Z.inj_mul.
  pose proof (Zdigits2_pos (Z.pos mx) ltac:(lia)).
  pose proof (Zdigits2_pos (Z.pos my) ltac:(lia)).
  lia.
Qed.

Lemma fmul_finite (mx my : positive) (ex ey : Z) :
  SFmul prec emax (S754_finite false mx ex) (S754_finite false my ey) =
  binary_round_aux prec emax false (Z.pos (mx * my)) (ex + ey) loc_Exact.
Proof. reflexivity. Qed.

(* ---- addition ---- *)

Lemma iter_xO (d : positive) (m : positive) :
  Z.pos (Pos.iter xO m d) = Z.pos m * 2 ^ Z.pos d.
Proof.
  revert m. induction d as [| d IH] using Pos.peano_ind; intros m.
  - simpl. lia.
  - rewrite Pos.iter_succ. rewrite Pos2Z.inj_xO, IH.
    rewrite Pos2Z.inj_succ, Z.pow_succ_r by lia. lia.
Qed.

Lemma shl_align_spec (m : positive) (e t : Z) :
  let r := shl_align m e t in
  snd r = Z.min e t /\
  Z.pos (fst r) = Z.pos m * 2 ^ (e - snd r) /\
  Zdigits2 (Z.pos (fst r)) + snd r = Zdigits2 (Z.pos m) + e.
Proof.
  unfold shl_align. destruct (t - e) as [| p | p] eqn:E; cbn [fst snd].
  - replace (Z.min e t) with e by lia. rewrite Z.sub_diag. simpl. lia.
  - replace (Z.min e t) with e by lia. rewrite Z.sub_diag. simpl. lia.
  - replace (Z.min e t) with t by lia.
    assert (Ep : e - t = Z.pos p) by lia. rewrite Ep.
    split; [reflexivity |]. split; [apply iter_xO |].
    rewrite iter_xO.
    pose proof (Zdigits2_bounds (Z.pos m) ltac:(lia)) as Hd.
    pose proof (Zdigits2_pos (Z.pos m) ltac:(lia)) as Hp.
    rewrite (Zdigits2_unique (Z.pos m * 2 ^ Z.pos p) (Zdigits2 (Z.pos m) + Z.pos p)).
    + lia.
    + lia.
    + assert (HP : 0 < 2 ^ Z.pos p) by (apply pow2_pos; lia).
      replace (Zdigits2 (Z.pos m) + Z.pos p - 1) with (Zdigits2 (Z.pos m) - 1 + Z.pos p) by lia.
      rewrite !pow2_split by lia. split.
      * apply Z.mul_le_mono_nonneg_r; lia.
      * apply Z.mul_lt_mono_pos_r; lia.
Qed.

(** [binary_round] on a positive mantissa is [binary_round_aux] on the
    same value, with the exponent its size calls for or a lower one. *)
Lemma binary_round_spec (m : positive) (e : Z) :
  -1074 <= e ->
  exists M e1,
    0 < M /\ e1 <= fexp prec emax (Zdigits2 M + e1) /\ -1074 <= e1 /\
    sval M e1 = sval (Z.pos m) e /\
    binary_round prec emax false m e =
    binary_round_aux prec emax false M e1 loc_Exact.
Proof.
  intros He. unfold binary_round.
  change (Z.pos (digits2_pos m)) with (Zdigits2 (Z.pos m)).
  destruct (shl_align_spec m e (fexp prec emax (Zdigits2 (Z.pos m) + e)))
    as [Hs [Hm Hd]].
  destruct (shl_align m e (fexp prec emax (Zdigits2 (Z.pos m) + e))) as [mz ez].
  cbn [fst snd] in *.
  exists (Z.pos mz), ez.
  rewrite fexp_eq in *.
  split; [lia |]. split; [rewrite Hd; lia |]. split; [lia |].
  split; [| reflexivity].
  unfold sval. rewrite Hm. rewrite <- Z.mul_assoc. f_equal.
  rewrite <- pow2_split by lia. f_equal. lia.
Qed.

(** The sum of two positive doubles is not below the first. *)
Lemma fadd_finite_ge (mx my : positive) (ex ey : Z) :
  bounded prec emax mx ex = true -> bounded prec emax my ey = true ->
  let s := fadd (S754_finite false mx ex) (S754_finite false my ey) in
  fle (S754_finite false mx ex) s = true /\ valid s = true /\ nonneg s = true.
Proof.
  intros Hx Hy. cbv zeta. unfold fadd, SFadd. cbn [cond_Zopp].
  destruct (bounded_facts mx ex Hx) as [Hex _].
  destruct (bounded_facts my ey Hy) as [Hey _].
  destruct (shl_align_spec mx ex (Z.min ex ey)) as [Hsx [Hvx _]].
  destruct (shl_align_spec my ey (Z.min ex ey)) as [Hsy [Hvy _]].
  set (a := fst (shl_align mx ex (Z.min ex ey))) in *.
  set (b := fst (shl_align my ey (Z.min ex ey))) in *.
  change (Z.pos a + Z.pos b) with (Z.pos (a + b)).
  cbn [binary_normalize].
  destruct (binary_round_spec (a + b) (Z.min ex ey) ltac:(lia))
    as [M [e1 [HM [He1 [Hlow [Hval Hres]]]]]].
  rewrite Hres.
  destruct (binary_round_aux_valid M e1 HM He1) as [Hv Hn].
  split; [| split; assumption].
  apply round_lower_bound; try assumption; try lia.
  rewrite Hval. unfold sval. rewrite Pos2Z.inj_add.
  rewrite Hvx.
  replace (snd (shl_align mx ex (Z.min ex ey))) with (Z.min ex ey) by lia.
  assert (HT : 0 < 2 ^ (Z.min ex ey + 2200)) by (apply pow2_pos; lia).
  assert (E : 2 ^ (ex + 2200) = 2 ^ (ex - Z.min ex ey) * 2 ^ (Z.min ex ey + 2200)).
  { rewrite <- (pow2_split (ex - Z.min ex ey) (Z.min ex ey + 2200)) by lia.
    f_equal. lia. }
  rewrite E, Z.mul_assoc.
  apply Z.mul_le_mono_nonneg_r; lia.
Qed.

(** The order of [SFcompare] on zero, positive finite numbers and
    +Infinity. *)
Lemma flt_fle (a b : float) : flt a b = true -> fle a b = true.
Proof.
  unfold flt, fle, SFltb, SFleb.
  destruct (SFcompare a b) as [[| |] |]; intros H; try discriminate; reflexivity.
Qed.

Lemma fle_flt_trans (a b c : float) :
  nonneg a = true -> nonneg b = true -> nonneg c = true ->
  fle a b = true -> flt b c = true -> flt a c = true.
Proof.
  unfold fle, flt, SFleb, SFltb.
  destruct a as [[|] | [|] | | [|] ma ea]; try discriminate;
  destruct b as [[|] | [|] | | [|] mb eb]; try discriminate;
  destruct c as [[|] | [|] | | [|] mc ec]; try discriminate;
  intros _ _ _; cbn [SFcompare]; try discriminate; try reflexivity.
  change (Pos.compare_cont Eq ma mb) with (Pos.compare ma mb).
  change (Pos.compare_cont Eq mb mc) with (Pos.compare mb mc).
  change (Pos.compare_cont Eq ma mc) with (Pos.compare ma mc).
  destruct (Z.compare_spec ea eb); destruct (Z.compare_spec eb ec);
    destruct (Z.compare_spec ea ec); try lia; try discriminate; try reflexivity;
    destruct (Pos.compare_spec ma mb); destruct (Pos.compare_spec mb mc);
    destruct (Pos.compare_spec ma mc); try lia; try discriminate; try reflexivity.
Qed.

Lemma fle_trans (a b c : float) :
  nonneg a = true -> nonneg b = true -> nonneg c = true ->
  fle a b = true -> fle b c = true -> fle a c = true.
Proof.
  unfold fle, SFleb.
  destruct a as [[|] | [|] | | [|] ma ea]; try discriminate;
  destruct b as [[|] | [|] | | [|] mb eb]; try discriminate;
  destruct c as [[|] | [|] | | [|] mc ec]; try discriminate;
  intros _ _ _; cbn [SFcompare]; try discriminate; try reflexivity.
  change (Pos.compare_cont Eq ma mb) with (Pos.compare ma mb).
  change (Pos.compare_cont Eq mb mc) with (Pos.compare mb mc).
  change (Pos.compare_cont Eq ma mc) with (Pos.compare ma mc).
  destruct (Z.compare_spec ea eb); destruct (Z.compare_spec eb ec);
    destruct (Z.compare_spec ea ec); try lia; try discriminate; try reflexivity;
    destruct (Pos.compare_spec ma mb); destruct (Pos.compare_spec mb mc);
    destruct (Pos.compare_spec ma mc); try lia; try discriminate; try reflexivity.
Qed.

Lemma fle_refl_nonneg (a : float) : nonneg a = true -> fle a a = true.
Proof.
  unfold fle, SFleb.
  destruct a as [[|] | [|] | | [|] ma ea]; try discriminate; intros _;
    cbn [SFcompare]; try reflexivity.
  rewrite Z.compare_refl.
  change (Pos.compare_cont Eq ma ma) with (Pos.compare ma ma).
  now rewrite Pos.compare_refl.
Qed.

(* ===================================================================== *)
(** * The simulated progress of the one-shot revision *)
(* ===================================================================== *)

Lemma f1_eq : f1 = S754_finite false 4503599627370496 (-52).
Proof. vm_compute. reflexivity. Qed.

Lemma f99_eq : f99 = S754_finite false 6966505673588736 (-46).
Proof. vm_compute. reflexivity. Qed.

Lemma f100_eq : f100 = S754_finite false 7036874417766400 (-46).
Proof. vm_compute. reflexivity. Qed.

Lemma flt_finite_inv (m1 m2 : positive) (e1 e2 : Z) :
  flt (S754_finite false m1 e1) (S754_finite false m2 e2) = true ->
  e1 < e2 \/ (e1 = e2 /\ Z.pos m1 < Z.pos m2).
Proof.
  unfold flt, SFltb. cbn [SFcompare].
  change (Pos.compare_cont Eq m1 m2) with (Pos.compare m1 m2).
  destruct (Z.compare_spec e1 e2) as [E | E | E]; try discriminate.
  - destruct (Pos.compare_spec m1 m2) as [E1 | E1 | E1]; try discriminate.
    intros _. right. split; [assumption | lia].
  - intros _. left. assumption.
Qed.

(** A draw of [Math.random()] is +0 or a positive double with an
    exponent of at most -53. *)
Lemma random_facts (r : float) :
  OneShot.is_random r = true ->
  r = S754_zero false \/
  exists mr er, r = S754_finite false mr er /\
                bounded prec emax mr er = true /\ er <= -53.
Proof.
  unfold OneShot.is_random. intros H.
  apply andb_prop in H. destruct H as [H Hlt].
  apply andb_prop in H. destruct H as [Hv Hn].
  rewrite f1_eq in Hlt.
  destruct r as [[|] | [|] | | [|] mr er]; cbn [nonneg] in Hn;
    try discriminate Hn.
  - left. reflexivity.
  - discriminate Hlt.
  - right. exists mr, er. cbn [valid valid_binary] in Hv.
    split; [reflexivity |]. split; [exact Hv |].
    destruct (bounded_facts mr er Hv) as [Her [Hm [Hnorm _]]].
    apply flt_finite_inv in Hlt.
    destruct Hlt as [Hlt | [He Hlt]]; [lia |].
    rewrite pow2_52 in Hnorm. lia.
Qed.

(** A draw times a constant stays below the constant, when the largest
    draw times it rounds to the double before it. *)
Lemma fmul_random_lt (r : float) (mc my : positive) (ec ey : Z) :
  OneShot.is_random r = true ->
  bounded prec emax mc ec = true ->
  bounded prec emax my ey = true ->
  -1126 <= ec ->
  2 * (Z.pos mc * (2 ^ 53 - 1) * 2 ^ (ec + 2147)) <
    (2 * Z.pos my + 1) * 2 ^ (ey + 2200) ->
  flt (S754_finite false my ey) (S754_finite false mc ec) = true ->
  let step := fmul r (S754_finite false mc ec) in
  valid step = true /\ nonneg step = true /\
  flt step (S754_finite false mc ec) = true.
Proof.
  intros Hr Hc Hy Hec Hside Hpred. cbv zeta.
  destruct (random_facts r Hr) as [-> | [mr [er [-> [Hb Her]]]]].
  - repeat split.
  - unfold fmul. rewrite fmul_finite.
    pose proof (mul_exponent_ok mr mc er ec Hb Hc) as Hexp.
    destruct (binary_round_aux_valid (Z.pos (mr * mc)) (er + ec) ltac:(lia) Hexp)
      as [Hv Hn].
    split; [exact Hv |]. split; [exact Hn |].
    destruct (bounded_facts mr er Hb) as [Her2 [Hm _]].
    apply fle_flt_trans with (b := S754_finite false my ey);
      try reflexivity; try assumption.
    apply round_upper_bound; try assumption; try lia.
    unfold sval. rewrite Pos2Z.inj_mul.
    assert (HP : 0 < 2 ^ (er + ec + 2200)) by (apply pow2_pos; lia).
    assert (HQ : 2 ^ (er + ec + 2200) <= 2 ^ (ec + 2147)).
    { apply Z.pow_le_mono_r; lia. }
    assert (H1 : Z.pos mr * Z.pos mc <= Z.pos mc * (2 ^ 53 - 1)).
    { rewrite Z.mul_comm. apply Z.mul_le_mono_nonneg_l; lia. }
    assert (H2 : Z.pos mr * Z.pos mc * 2 ^ (er + ec + 2200) <=
                 Z.pos mc * (2 ^ 53 - 1) * 2 ^ (ec + 2147)).
    { apply Z.mul_le_mono_nonneg; lia. }
    lia.
Qed.

Ltac band_constant below_m below_e :=
  apply (fun r mc ec Hr Hc =>
           fmul_random_lt r mc below_m ec below_e Hr Hc);
  [ assumption | reflexivity | reflexivity | vm_compute; discriminate
  | vm_compute; reflexivity | reflexivity ].

(** The step of a tick lies in the band of the current value. *)
Lemma step_in_band (prev r : float) :
  OneShot.is_random r = true ->
  let step := fmul r (OneShot.band prev) in
  valid step = true /\ nonneg step = true /\
  flt step (OneShot.band prev) = true.
Proof.
  intros Hr. unfold OneShot.band.
  destruct (flt prev OneShot.f30).
  { change OneShot.f8 with (S754_finite false 4503599627370496 (-49)).
    band_constant 9007199254740991%positive (-50). }
  destruct (flt prev OneShot.f60).
  { change OneShot.f5 with (S754_finite false 5629499534213120 (-50)).
    band_constant 5629499534213119%positive (-50). }
  destruct (flt prev OneShot.f85).
  { change OneShot.f2 with (S754_finite false 4503599627370496 (-51)).
    band_constant 9007199254740991%positive (-52). }
  destruct (flt prev OneShot.f95).
  { change OneShot.f0_5 with (S754_finite false 4503599627370496 (-53)).
    band_constant 9007199254740991%positive (-54). }
  change OneShot.f0_1 with (S754_finite false 7205759403792794 (-56)).
  band_constant 7205759403792793%positive (-56).
Qed.

(** [Math.min(99, s)] is [s] when [s] is below 99 and 99 otherwise. *)
Lemma Math_min_99 (s : float) :
  nonneg s = true ->
  (Math_min f99 s = s /\ flt s f99 = true) \/
  (Math_min f99 s = f99 /\ flt s f99 = false).
Proof.
  rewrite f99_eq. unfold Math_min.
  destruct s as [[|] | [|] | | [|] m e]; try discriminate; intros _.
  - left. split; reflexivity.
  - right. split; reflexivity.
  - destruct (flt (S754_finite false m e)
                  (S754_finite false 6966505673588736 (-46)));
      [left | right]; split; reflexivity.
Qed.

Lemma Math_min_99_idempotent (x : float) :
  Math_min f99 (Math_min f99 x) = Math_min f99 x.
Proof.
  rewrite f99_eq. unfold Math_min.
  destruct x as [[|] | [|] | | s m e]; try reflexivity.
  destruct (flt (S754_finite s m e)
                (S754_finite false 6966505673588736 (-46))) eqn:E.
  - rewrite E. reflexivity.
  - reflexivity.
Qed.

Lemma le_99_lt_100 (x : float) :
  nonneg x = true -> fle x f99 = true -> flt x f100 = true.
Proof.
  intros Hn H. apply fle_flt_trans with (b := f99); try assumption.
  - rewrite f99_eq. reflexivity.
  - rewrite f100_eq. reflexivity.
  - rewrite f99_eq, f100_eq. reflexivity.
Qed.

Lemma percent_ok_facts (p : float) :
  OneShot.percent_ok p = true ->
  valid p = true /\ nonneg p = true /\ fle p f99 = true /\
  (p = S754_zero false \/ exists m e, p = S754_finite false m e /\
                                     bounded prec emax m e = true).
Proof.
  unfold OneShot.percent_ok. intros H.
  apply andb_prop in H. destruct H as [H Hle].
  apply andb_prop in H. destruct H as [Hv Hn].
  split; [assumption |]. split; [assumption |]. split; [assumption |].
  rewrite f99_eq in Hle.
  destruct p as [[|] | [|] | | [|] m e]; try discriminate.
  - left. reflexivity.
  - right. exists m, e. split; [reflexivity | exact Hv].
Qed.

(** Adding a step that is zero or positive does not lower the value. *)
Lemma fadd_step_ge (prev step : float) :
  OneShot.percent_ok prev = true ->
  valid step = true -> nonneg step = true ->
  let s := fadd prev step in
  fle prev s = true /\ valid s = true /\ nonneg s = true.
Proof.
  intros Hp Hv Hn. cbv zeta.
  destruct (percent_ok_facts prev Hp) as [Hpv [Hpn [_ Hshape]]].
  destruct Hshape as [-> | [m [e [-> Hb]]]];
    destruct step as [[|] | [|] | | [|] ms es]; try discriminate;
    try (repeat split; assumption || reflexivity).
  - repeat split; try assumption. apply fle_refl_nonneg. reflexivity.
  - apply fadd_finite_ge; assumption.
Qed.

Lemma tick_as_clamped_sum (prev r : float) :
  OneShot.tick prev r =
  Math_min f99 (fadd prev (fmul r (OneShot.band prev))).
Proof.
  unfold OneShot.tick, OneShot.band.
  destruct (flt prev OneShot.f30); [reflexivity |].
  destruct (flt prev OneShot.f60); [reflexivity |].
  destruct (flt prev OneShot.f85); [reflexivity |].
  destruct (flt prev OneShot.f95); [reflexivity |].
  apply Math_min_99_idempotent.
Qed.

Lemma percent_ok_99 : OneShot.percent_ok f99 = true.
Proof. vm_compute. reflexivity. Qed.

Lemma percent_ok_0 : OneShot.percent_ok f0 = true.
Proof. vm_compute. reflexivity. Qed.

(** One tick: the value stays a percentage of at most 99 and does not
    go down. *)
Lemma tick_step (prev r : float) :
  OneShot.percent_ok prev = true -> OneShot.is_random r = true ->
  OneShot.percent_ok (OneShot.tick prev r) = true /\
  fle prev (OneShot.tick prev r) = true /\
  flt (OneShot.tick prev r) f100 = true.
Proof.
  intros Hp Hr.
  destruct (step_in_band prev r Hr) as [Hv [Hn _]].
  destruct (fadd_step_ge prev _ Hp Hv Hn) as [Hle [Hsv Hsn]].
  destruct (percent_ok_facts prev Hp) as [_ [Hpn [Hp99 _]]].
  rewrite tick_as_clamped_sum.
  set (s := fadd prev (fmul r (OneShot.band prev))) in *.
  assert (Hok : OneShot.percent_ok (Math_min f99 s) = true /\
                fle prev (Math_min f99 s) = true).
  { destruct (Math_min_99 s Hsn) as [[-> Hlt] | [-> _]].
    - split; [| exact Hle].
      unfold OneShot.percent_ok. rewrite Hsv, Hsn, (flt_fle _ _ Hlt). reflexivity.
    - split; [exact percent_ok_99 | exact Hp99]. }
  destruct Hok as [Hok Hmono].
  split; [exact Hok |]. split; [exact Hmono |].
  destruct (percent_ok_facts _ Hok) as [_ [Hmn [Hm99 _]]].
  apply le_99_lt_100; assumption.
Qed.

Lemma trace_ok (rs : list float) : forall start : float,
  OneShot.percent_ok start = true ->
  Forall (fun r => OneShot.is_random r = true) rs ->
  OneShot.nondecreasing (start :: OneShot.trace start rs) = true /\
  Forall (fun p => flt p f100 = true) (OneShot.trace start rs).
Proof.
  induction rs as [| r rs IH]; intros start Hs Hrs.
  - split; [reflexivity | constructor].
  - inversion Hrs as [| r' rs' Hr Hrest]; subst.
    destruct (tick_step start r Hs Hr) as [Hok [Hle Hlt]].
    destruct (IH (OneShot.tick start r) Hok Hrest) as [Hnd Hall].
    cbn [OneShot.trace]. split.
    + cbn [OneShot.nondecreasing]. rewrite Hle. exact Hnd.
    + constructor; assumption.
Qed.

(** C3: with the current value a percentage of at most 99 and the draw
    in [0, 1), a tick returns the current value plus a step, clamped to
    99, the step being the draw times the constant of the band of the
    table: at least 0 and below 8 under 30, below 5 under 60, below 2
    under 85, below 0.5 under 95, below 0.1 from 95 on.  The result is
    again such a percentage, not below the current value and below 100;
    so from 0 the values of any run of ticks never decrease and stay
    below 100. *)
Theorem tick_policy :
  (forall prev r : float,
     OneShot.percent_ok prev = true -> OneShot.is_random r = true ->
     let step := fmul r (OneShot.band prev) in
     OneShot.tick prev r = Math_min f99 (fadd prev step) /\
     fle f0 step = true /\ flt step (OneShot.band prev) = true /\
     OneShot.percent_ok (OneShot.tick prev r) = true /\
     fle prev (OneShot.tick prev r) = true /\
     flt (OneShot.tick prev r) f100 = true) /\
  (forall prev : float,
     (flt prev OneShot.f30 = true -> OneShot.band prev = OneShot.f8) /\
     (flt prev OneShot.f30 = false -> flt prev OneShot.f60 = true ->
        OneShot.band prev = OneShot.f5) /\
     (flt prev OneShot.f30 = false -> flt prev OneShot.f60 = false ->
      flt prev OneShot.f85 = true -> OneShot.band prev = OneShot.f2) /\
     (flt prev OneShot.f30 = false -> flt prev OneShot.f60 = false ->
      flt prev OneShot.f85 = false -> flt prev OneShot.f95 = true ->
        OneShot.band prev = OneShot.f0_5) /\
     (flt prev OneShot.f30 = false -> flt prev OneShot.f60 = false ->
      flt prev OneShot.f85 = false -> flt prev OneShot.f95 = false ->
        OneShot.band prev = OneShot.f0_1)) /\
  (forall randoms : list float,
     Forall (fun r => OneShot.is_random r = true) randoms ->
     OneShot.nondecreasing (f0 :: OneShot.trace f0 randoms) = true /\
     Forall (fun p => flt p f100 = true) (OneShot.trace f0 randoms)).
Proof.
  split; [| split].
  - intros prev r Hp Hr. cbv zeta.
    destruct (step_in_band prev r Hr) as [Hv [Hn Hlt]].
    destruct (tick_step prev r Hp Hr) as [Hok [Hle H100]].
    split; [apply tick_as_clamped_sum |].
    split.
    { destruct (fmul r (OneShot.band prev)) as [[|] | [|] | | [|] m e];
        try discriminate; reflexivity. }
    split; [exact Hlt |]. split; [exact Hok |]. split; [exact Hle | exact H100].
  - intros prev. unfold OneShot.band.
    repeat split; intros; 
      repeat match goal with
             | H : flt _ _ = _ |- _ => rewrite H; clear H
             end; reflexivity.
  - intros rs Hrs. apply trace_ok; [exact percent_ok_0 | exact Hrs].
Qed.

Lemma tick_policy_witness :
  OneShot.percent_ok f0 = true /\
  OneShot.is_random OneShot.f0_5 = true /\
  fle f0 (OneShot.tick f0 OneShot.f0_5) = true /\
  flt (OneShot.tick f0 OneShot.f0_5) f100 = true.
Proof.
  assert (H0 : OneShot.percent_ok f0 = true) by (vm_compute; reflexivity).
  assert (Hr : OneShot.is_random OneShot.f0_5 = true) by (vm_compute; reflexivity).
  split; [exact H0 |]. split; [exact Hr |].
  destruct (proj1 tick_policy f0 OneShot.f0_5 H0 Hr) as [_ [_ [_ [_ [Hle Hlt]]]]].
  split; [exact Hle | exact Hlt].
Defined.

(** Half a draw from 0 gives 4; a draw just under 1 from 98.95 is held
    at 99. *)
Example tick_samples :
  OneShot.tick f0 OneShot.f0_5 = float_of_Z 4 /\
  OneShot.tick (float_of_decimal false 9895 (-2))
               (S754_finite false 9007199254740991 (-53)) = f99.
Proof. vm_compute. split; reflexivity. Qed.

Local Close Scope Z_scope.

(* ===================================================================== *)
(** * Decimal digits *)
(* ===================================================================== *)

Lemma digits_of_aux_acc (fuel : nat) : forall (n : N) (acc : jsstring),
  digits_of_aux fuel n acc = digits_of_aux fuel n [] ++ acc.
Proof.
  induction fuel as [| f IH]; intros n acc; simpl.
  - reflexivity.
  - destruct (N.ltb n 10).
    + reflexivity.
    + rewrite IH. rewrite (IH _ [_]). now rewrite <- app_assoc.
Qed.

Lemma log2_div10 (n : N) : (10 <= n)%N -> (N.log2 (n / 10) < N.log2 n)%N.
Proof.
  intros H.
  assert (Hle : (n / 10 <= n / 2)%N).
  { apply N.div_le_compat_l. lia. }
  assert (H2 : (N.log2 (n / 2) < N.log2 n)%N).
  { rewrite <- N.div2_div, N.div2_spec, N.log2_shiftr.
    assert (0 < N.log2 n)%N by (apply N.log2_pos; lia). lia. }
  pose proof (N.log2_le_mono _ _ Hle). lia.
Qed.

Lemma digits_of_aux_fuel (f1 : nat) : forall (f2 : nat) (n : N) (acc : jsstring),
  (N.to_nat (N.log2 n) < f1)%nat -> (N.to_nat (N.log2 n) < f2)%nat ->
  digits_of_aux f1 n acc = digits_of_aux f2 n acc.
Proof.
  induction f1 as [| f1 IH]; intros f2 n acc H1 H2; [lia |].
  destruct f2 as [| f2]; [lia |]. simpl.
  destruct (N.ltb n 10) eqn:E; [reflexivity |].
  apply N.ltb_ge in E. pose proof (log2_div10 n E).
  apply IH; lia.
Qed.

Lemma digits_of_small (n : N) : (n < 10)%N -> digits_of n = [(48 + n)%N].
Proof.
  intros H. unfold digits_of. simpl.
  apply N.ltb_lt in H as H'. rewrite H'.
  now rewrite N.mod_small.
Qed.

Lemma digits_of_step (n : N) :
  (10 <= n)%N -> digits_of n = digits_of (n / 10) ++ [(48 + n mod 10)%N].
Proof.
  intros H. unfold digits_of at 1. simpl.
  apply N.ltb_ge in H as H'. rewrite H'.
  rewrite digits_of_aux_acc. f_equal.
  unfold digits_of. pose proof (log2_div10 n H).
  apply digits_of_aux_fuel; lia.
Qed.

Lemma digits_of_nonempty (n : N) : digits_of n <> [].
Proof.
  destruct (N.lt_ge_cases n 10) as [H | H].
  - now rewrite digits_of_small.
  - rewrite digits_of_step by exact H. now destruct (digits_of (n / 10)).
Qed.




(* ===================================================================== *)
(** * What every frame leaves alone *)
(* ===================================================================== *)

(** An invariant of the accumulator that each frame keeps is kept by the
    whole loop, however the stream ends. *)
Section LoopInvariant.
Variable A : Type.
Variable on_frame : bool -> A -> jsstring -> A.
Variable P : A -> Prop.
Hypothesis on_frame_keeps : forall final a line, P a -> P (on_frame final a line).

Lemma for_lines_invariant (lines : list jsstring) : forall a : A,
  P a -> P (Stream.for_lines on_frame lines a).
Proof.
  unfold Stream.for_lines.
  induction lines as [| l lines IH]; intros a Ha; simpl; [exact Ha |].
  apply IH. destruct (startsWith l data_prefix); auto.
Qed.

Lemma iteration_invariant (st : Stream.loop_state A) (r : Stream.read_result) :
  P (Stream.acc st) -> P (Stream.acc (Stream.iteration on_frame st r)).
Proof.
  intros Ha. unfold Stream.iteration.
  destruct (Stream.value_ r) as [v |].
  - destruct (decode_stream (Stream.decoder st) v) as [d text].
    destruct (pop (split LF (Stream.buffer st ++ text))) as [lines last].
    destruct (Stream.done r); simpl;
      [destruct (startsWith (or_empty last) data_prefix) |];
      auto using for_lines_invariant.
  - destruct (pop (split LF (Stream.buffer st))) as [lines last].
    destruct (Stream.done r); simpl;
      [destruct (startsWith (or_empty last) data_prefix) |];
      auto using for_lines_invariant.
Qed.

Lemma read_chunks_invariant (cs : list (list byte)) :
  forall st : Stream.loop_state A,
    P (Stream.acc st) -> P (Stream.acc (Stream.read_chunks on_frame st cs)).
Proof.
  induction cs as [| c cs IH]; intros st Ha; simpl; [exact Ha |].
  apply IH. now apply iteration_invariant.
Qed.

Lemma read_loop_invariant (a : A) (b : Stream.body_stream) :
  P a -> P (fst (Stream.read_loop on_frame a b)).
Proof.
  intros Ha. unfold Stream.read_loop.
  destruct (Stream.ending b); cbn [fst].
  - apply iteration_invariant. now apply read_chunks_invariant.
  - now apply read_chunks_invariant.
Qed.
End LoopInvariant.

Ltac log_step_cases :=
  first [ left; split; reflexivity
        | right; eexists; split; reflexivity ].

Lemma handle_untouched (data : value) (st : Stream.AppState) :
  let st' := fst (Stream.handleSSEEvent data st) in
  Stream.apiStatus st' = Stream.apiStatus st /\
  Stream.file st' = Stream.file st /\
  Stream.showLog st' = Stream.showLog st /\
  Stream.elapsedTime st' = Stream.elapsedTime st /\
  Stream.timerInterval st' = Stream.timerInterval st /\
  Stream.log_step st st'.
Proof.
  cbv zeta. unfold Stream.log_step.
  unfold Stream.handleSSEEvent, Stream.bind, Stream.lift, Stream.modify, Stream.ret.
  destruct (get data "type") as [e | ty]; cbn [fst].
  { repeat split; log_step_cases. }
  destruct (strict_eq_str ty "start").
  { handler_cases; repeat split; log_step_cases. }
  destruct (strict_eq_str ty "progress").
  { handler_cases; repeat split; log_step_cases. }
  destruct (strict_eq_str ty "row_error").
  { handler_cases; repeat split; log_step_cases. }
  destruct (strict_eq_str ty "error").
  { handler_cases; repeat split; log_step_cases. }
  destruct (strict_eq_str ty "complete").
  { handler_cases; repeat split; log_step_cases. }
  repeat split; log_step_cases.
Qed.

Lemma process_frame_untouched (final : bool) (st : Stream.AppState)
  (line : jsstring) :
  let st' := Stream.process_frame final st line in
  Stream.apiStatus st' = Stream.apiStatus st /\
  Stream.file st' = Stream.file st /\
  Stream.showLog st' = Stream.showLog st /\
  Stream.elapsedTime st' = Stream.elapsedTime st /\
  Stream.timerInterval st' = Stream.timerInterval st /\
  Stream.log_step st st'.
Proof.
  cbv zeta. unfold Stream.process_frame.
  destruct (JSON_parse (slice line 6)) as [e | data].
  - repeat split. left. split; reflexivity.
  - pose proof (handle_untouched data st) as H. cbv zeta in H.
    destruct (Stream.handleSSEEvent data st) as [st' [e | u]]; exact H.
Qed.

Lemma log_step_counted (st st' : Stream.AppState) :
  Stream.log_step st st' -> Stream.counted st -> Stream.counted st'.
Proof.
  unfold Stream.counted.
  intros [[Hl Hi] | [e [Hl Hi]]] Hc.
  - now rewrite Hl, Hi.
  - rewrite Hl, Hi, length_app, Hc. simpl. lia.
Qed.

Lemma log_step_first (st st' : Stream.AppState) (e : LogEntry.t) :
  Stream.log_step st st' ->
  hd_error (Stream.logEntries st) = Some e ->
  hd_error (Stream.logEntries st') = Some e.
Proof.
  intros [[Hl _] | [e' [Hl _]]] H; rewrite Hl; [exact H |].
  destruct (Stream.logEntries st); [discriminate | exact H].
Qed.

(** What a run keeps from its start to the end of its [try]. *)
Lemma try_block_keeps (net : Stream.fetch_outcome) (st : Stream.AppState)
  (e : LogEntry.t) :
  Stream.counted st ->
  hd_error (Stream.logEntries st) = Some e ->
  let st' := fst (Stream.try_block net st) in
  Stream.apiStatus st' = Stream.apiStatus st /\
  Stream.file st' = Stream.file st /\
  Stream.showLog st' = Stream.showLog st /\
  Stream.counted st' /\
  hd_error (Stream.logEntries st') = Some e.
Proof.
  intros Hids Hhd. cbv zeta.
  unfold Stream.try_block.
  assert (Hst : Stream.apiStatus st = Stream.apiStatus st /\
                Stream.file st = Stream.file st /\
                Stream.showLog st = Stream.showLog st /\
                Stream.counted st /\
                hd_error (Stream.logEntries st) = Some e)
    by (repeat (split; [reflexivity |]); split; assumption).
  destruct net as [err | r]; [exact Hst |].
  destruct (negb (Stream.response_ok r)); [exact Hst |].
  destruct (Stream.body r) as [b |]; [| exact Hst].
  apply (read_loop_invariant Stream.AppState Stream.process_frame
           (fun s => Stream.apiStatus s = Stream.apiStatus st /\
                     Stream.file s = Stream.file st /\
                     Stream.showLog s = Stream.showLog st /\
                     Stream.counted s /\
                     hd_error (Stream.logEntries s) = Some e)).
  - intros final a line [Ha [Hf [Hs [Hi Hh]]]].
    destruct (process_frame_untouched final a line)
      as [Ha' [Hf' [Hs' [_ [_ Hstep]]]]].
    rewrite Ha', Hf', Hs'.
    split; [exact Ha | split; [exact Hf | split; [exact Hs | split]]].
    + apply (log_step_counted a _ Hstep Hi).
    + apply (log_step_first a _ e Hstep Hh).
  - exact Hst.
Qed.

(* ===================================================================== *)
(** * A run as a whole *)
(* ===================================================================== *)

Lemma start_run_counted (f : File) (st : Stream.AppState) :
  Stream.counted (Stream.start_run f st) /\
  hd_error (Stream.logEntries (Stream.start_run f st)) =
    Some (message_entry LogEntry.info
            (Str (js "Iniciando procesamiento de " ++ name f ++ js "...")) 1%N).
Proof. split; reflexivity. Qed.

Lemma catch_block_step (err : thrown) (st : Stream.AppState) :
  Stream.log_step st (Stream.catch_block err st).
Proof. right. eexists. split; reflexivity. Qed.

(** The state a run ends in, from the state its [try] block reached. *)
Lemma processFile_runs (net : Stream.fetch_outcome) (st : Stream.AppState)
  (f : File) :
  Stream.file st = Some f -> Stream.apiStatus st = online ->
  exists st2,
    st2 = fst (Stream.try_block net (Stream.start_run f st)) /\
    (Stream.processFile net st = Stream.finally_block st2 \/
     exists err, Stream.processFile net st =
                 Stream.finally_block (Stream.catch_block err st2)).
Proof.
  intros Hf Ha. unfold Stream.processFile. rewrite Hf, Ha.
  destruct (Stream.try_block net (Stream.start_run f st)) as [st2 [err |]].
  - exists st2. split; [reflexivity |]. right. now exists err.
  - exists st2. split; [reflexivity |]. now left.
Qed.

(** X1: whatever the stream held, at the end of a run the id counter equals
    the number of entries in the log: every entry went through
    [addLogEntry] and nothing else moved the counter or the log.  The
    log opens with the entry that announces the file. *)
Theorem log_counter_counts_entries (net : Stream.fetch_outcome)
  (st : Stream.AppState) (f : File) :
  Stream.file st = Some f -> Stream.apiStatus st = online ->
  let st' := Stream.processFile net st in
  Stream.logId st' = N.of_nat (List.length (Stream.logEntries st')) /\
  exists first rest,
    Stream.logEntries st' = first :: rest /\
    LogEntry.type first = LogEntry.info /\
    LogEntry.message first =
      Str (js "Iniciando procesamiento de " ++ name f ++ js "...").
Proof.
  intros Hf Ha st'.
  assert (H : Stream.counted st' /\
              hd_error (Stream.logEntries st') =
                Some (message_entry LogEntry.info
                        (Str (js "Iniciando procesamiento de " ++ name f ++
                              js "...")) 1%N)).
  { subst st'.
    destruct (start_run_counted f st) as [Hi Hh].
    destruct (try_block_keeps net _ _ Hi Hh) as [_ [_ [_ [Hi2 Hh2]]]].
    destruct (processFile_runs net st f Hf Ha) as [st2 [-> [-> | [err ->]]]].
    - split; [exact Hi2 | exact Hh2].
    - split.
      + apply (log_step_counted _ _ (catch_block_step err _) Hi2).
      + apply (log_step_first _ _ _ (catch_block_step err _) Hh2). }
  destruct H as [Hi Hh]. split; [exact Hi |].
  destruct (Stream.logEntries st') as [| e l]; [discriminate |].
  injection Hh as ->. eexists. eexists. repeat split.
Qed.

Lemma log_counter_counts_entries_witness :
  Stream.file Stream.ready = Some {| name := js "calles.xlsx" |} /\
  Stream.apiStatus Stream.ready = online /\
  Stream.logId (Stream.processFile (Stream.FetchRejects OtherThrown)
                  Stream.ready) =
  N.of_nat (List.length
              (Stream.logEntries
                 (Stream.processFile (Stream.FetchRejects OtherThrown)
                    Stream.ready))).
Proof.
  split; [reflexivity |]. split; [reflexivity |].
  exact (proj1 (log_counter_counts_entries (Stream.FetchRejects OtherThrown)
                  Stream.ready {| name := js "calles.xlsx" |}
                  eq_refl eq_refl)).
Defined.

(** X2: whatever the network did, a run that could be started ends with the
    start button enabled again: the file and the API status are kept,
    the run is no longer processing and its timer is cleared; the log
    stays open. *)
Theorem run_can_be_started_again (net : Stream.fetch_outcome)
  (st : Stream.AppState) :
  Stream.start_disabled st = false ->
  let st' := Stream.processFile net st in
  Stream.start_disabled st' = false /\
  Stream.file st' = Stream.file st /\
  Stream.apiStatus st' = online /\
  Stream.isProcessing st' = false /\
  Stream.timerInterval st' = false /\
  Stream.showLog st' = true.
Proof.
  unfold Stream.start_disabled. intros Hd.
  destruct (Stream.file st) as [f |] eqn:Hf; [| discriminate].
  destruct (Stream.apiStatus st) eqn:Ha; try discriminate.
  cbv zeta.
  destruct (start_run_counted f st) as [Hi Hh].
  destruct (try_block_keeps net _ _ Hi Hh) as [Ha2 [Hf2 [Hs2 _]]].
  cbn in Ha2, Hf2, Hs2. rewrite Ha in Ha2. rewrite Hf in Hf2.
  destruct (processFile_runs net st f Hf Ha) as [st2 [-> [-> | [err ->]]]];
    cbn; rewrite Ha2, Hf2, ?Hs2; repeat split.
Qed.

Lemma run_can_be_started_again_witness :
  Stream.start_disabled Stream.ready = false /\
  Stream.start_disabled
    (Stream.processFile (Stream.FetchRejects OtherThrown) Stream.ready) = false.
Proof.
  split; [reflexivity |].
  exact (proj1 (run_can_be_started_again (Stream.FetchRejects OtherThrown)
                  Stream.ready eq_refl)).
Defined.

(* ===================================================================== *)
(** * The other events of the stream *)
(* ===================================================================== *)

(** X3: a [start] event stores its [total] as it came, undefined when the
    event has none, and leaves the progress, the result, the error and
    the download alone.  When the total converts to a string, the event
    appends one entry of kind [info] that quotes it and returns
    normally; when it does not (an object with an own [toString] key),
    the template literal throws after the total is stored, and no entry
    is appended. *)
Theorem start_event_transition (data : value) (st : Stream.AppState) :
  is_event data "start" = true ->
  let st' := fst (Stream.handleSSEEvent data st) in
  Stream.totalRows st' = field data "total" /\
  Stream.progress st' = Stream.progress st /\
  Stream.result st' = Stream.result st /\
  Stream.error st' = Stream.error st /\
  Stream.downloadUrl st' = Stream.downloadUrl st /\
  (forall text : jsstring,
     ToString (field data "total") = inr text ->
     snd (Stream.handleSSEEvent data st) = inr tt /\
     exists i,
       Stream.logEntries st' =
         Stream.logEntries st ++
         [message_entry LogEntry.info
            (Str (js "Archivo cargado: " ++ text ++ js " filas detectadas"))
            i]) /\
  (forall e : exn,
     ToString (field data "total") = inl e ->
     snd (Stream.handleSSEEvent data st) = inl TypeError /\
     Stream.logEntries st' = Stream.logEntries st /\
     Stream.logId st' = Stream.logId st).
Proof.
  intros Hty. cbv zeta.
  destruct (ToString (field data "total")) as [e | text] eqn:Ht.
  - assert (H : Stream.handleSSEEvent data st =
      (Stream.setTotalRows (field data "total") st, inl TypeError)).
    { dispatch Hty. rewrite Ht. now rewrite (@ToString_throws _ _ Ht). }
    rewrite H. cbn [fst snd].
    do 5 (split; [reflexivity |]).
    split; [intros text H'; discriminate H' |].
    intros e' _. repeat split.
  - assert (H : Stream.handleSSEEvent data st =
      (Stream.addLogEntry
         (message_entry LogEntry.info
            (Str (js "Archivo cargado: " ++ text ++ js " filas detectadas")))
         (Stream.setTotalRows (field data "total") st), inr tt)).
    { dispatch Hty. now rewrite Ht. }
    rewrite H. cbn [fst snd].
    do 5 (split; [reflexivity |]).
    split; [| intros e H'; discriminate H'].
    intros text' H'. injection H' as <-.
    split; [reflexivity |]. eexists. reflexivity.
Qed.

Lemma start_event_transition_witness :
  is_event (Obj [(js "type", Str (js "start")); (js "total", num 7)]) "start"
    = true /\
  Stream.totalRows
    (fst (Stream.handleSSEEvent
            (Obj [(js "type", Str (js "start")); (js "total", num 7)])
            Stream.ready)) = num 7.
Proof.
  split; [reflexivity |].
  exact (proj1 (start_event_transition
    (Obj [(js "type", Str (js "start")); (js "total", num 7)])
    Stream.ready eq_refl)).
Defined.

(** X4: a [row_error] event is not fatal: it appends one entry of kind
    [error] with the row and the text of the event and returns normally;
    the stored error, the progress, the row total and the result are
    left as they were. *)
Theorem row_error_transition (data : value) (st : Stream.AppState) :
  is_event data "row_error" = true ->
  let st' := fst (Stream.handleSSEEvent data st) in
  snd (Stream.handleSSEEvent data st) = inr tt /\
  (exists i,
     Stream.logEntries st' =
       Stream.logEntries st ++
       [entry LogEntry.error (field data "row") Undefined Undefined Undefined
          (field data "error") i]) /\
  Stream.error st' = Stream.error st /\
  Stream.progress st' = Stream.progress st /\
  Stream.totalRows st' = Stream.totalRows st /\
  Stream.result st' = Stream.result st.
Proof.
  intros Hty. cbv zeta.
  assert (H : Stream.handleSSEEvent data st =
    (Stream.addLogEntry
       (entry LogEntry.error (field data "row") Undefined Undefined Undefined
          (field data "error")) st, inr tt)).
  { dispatch Hty. reflexivity. }
  rewrite H. repeat split. eexists. reflexivity.
Qed.

Lemma row_error_transition_witness :
  is_event (Obj [(js "type", Str (js "row_error")); (js "row", num 3);
                 (js "error", Str (js "fila vacia"))]) "row_error" = true /\
  Stream.error
    (fst (Stream.handleSSEEvent
            (Obj [(js "type", Str (js "row_error")); (js "row", num 3);
                  (js "error", Str (js "fila vacia"))]) Stream.ready)) =
  Stream.error Stream.ready.
Proof.
  split; [reflexivity |].
  exact (proj1 (proj2 (proj2 (row_error_transition
    (Obj [(js "type", Str (js "row_error")); (js "row", num 3);
          (js "error", Str (js "fila vacia"))]) Stream.ready eq_refl)))).
Defined.

(** X5: the [switch] has no default: a payload whose [type] is none of the
    five handled changes nothing and throws nothing, be it an object, an
    array, a string, a number or a boolean; its frame leaves the state
    as it was, without a warning.  The payload [null] makes the read of
    its [type] throw, and its frame adds one console warning. *)
Theorem payload_without_a_handler (data : value) (st : Stream.AppState) :
  (nullish data = false ->
   (forall d, In d ["start"; "progress"; "row_error"; "error"; "complete"]%string ->
              is_event data d = false) ->
   Stream.handleSSEEvent data st = (st, inr tt) /\
   forall final line, JSON_parse (slice line 6) = inr data ->
     Stream.process_frame final st line = st) /\
  (nullish data = true ->
   Stream.handleSSEEvent data st = (st, inl TypeError) /\
   forall final line, JSON_parse (slice line 6) = inr data ->
     Stream.process_frame final st line =
     Stream.console_warn (if final then "Error parsing final SSE:"
                          else "Error parsing SSE:") TypeError st).
Proof.
  split.
  - intros Hn Hno.
    assert (H : Stream.handleSSEEvent data st = (st, inr tt)).
    { unfold Stream.handleSSEEvent, Stream.bind, Stream.lift, Stream.ret.
      rewrite (not_nullish_get _ "type" Hn).
      pose proof (Hno "start"%string) as H1.
      pose proof (Hno "progress"%string) as H2.
      pose proof (Hno "row_error"%string) as H3.
      pose proof (Hno "error"%string) as H4.
      pose proof (Hno "complete"%string) as H5.
      unfold is_event in H1, H2, H3, H4, H5.
      rewrite H1, H2, H3, H4, H5; simpl; auto 10. }
    split; [exact H |].
    intros final line Hp. unfold Stream.process_frame. now rewrite Hp, H.
  - intros Hn.
    assert (H : Stream.handleSSEEvent data st = (st, inl TypeError)).
    { unfold Stream.handleSSEEvent, Stream.bind, Stream.lift.
      now rewrite (nullish_get _ "type" Hn). }
    split; [exact H |].
    intros final line Hp. unfold Stream.process_frame. rewrite Hp, H.
    now destruct final.
Qed.

(** X6: a [progress] event without [stats] is dropped whole: the read of
    [data.stats.procesadas] throws before anything is set, so the frame
    changes nothing that is rendered and adds one console warning. *)
Theorem progress_without_stats (data : value) (st : Stream.AppState) :
  is_event data "progress" = true ->
  nullish (field data "stats") = true ->
  Stream.handleSSEEvent data st = (st, inl TypeError) /\
  forall final line, JSON_parse (slice line 6) = inr data ->
    let st' := Stream.process_frame final st line in
    Stream.render st' = Stream.render st /\
    Stream.logId st' = Stream.logId st /\
    Stream.console st' =
      Stream.console st ++
      [{| Stream.label := js (if final then "Error parsing final SSE:"
                              else "Error parsing SSE:");
          Stream.caught := TypeError |}].
Proof.
  intros Hty Hn.
  assert (H : Stream.handleSSEEvent data st = (st, inl TypeError)).
  { dispatch Hty. now rewrite (nullish_get _ "procesadas" Hn). }
  split; [exact H |].
  intros final line Hp. cbv zeta. unfold Stream.process_frame.
  rewrite Hp, H. now destruct final.
Qed.

Lemma progress_without_stats_witness :
  is_event (Obj [(js "type", Str (js "progress")); (js "total", num 7)])
    "progress" = true /\
  nullish (field (Obj [(js "type", Str (js "progress")); (js "total", num 7)])
             "stats") = true /\
  Stream.handleSSEEvent
    (Obj [(js "type", Str (js "progress")); (js "total", num 7)]) Stream.ready =
  (Stream.ready, inl TypeError).
Proof.
  split; [reflexivity |]. split; [reflexivity |].
  exact (proj1 (progress_without_stats
    (Obj [(js "type", Str (js "progress")); (js "total", num 7)])
    Stream.ready eq_refl eq_refl)).
Defined.

(** X7: a [complete] event without [stats] is applied in part: the progress
    is set to 100 before the read of [data.stats.procesadas] throws, so
    its frame leaves the bar full with the result, the log and the
    download as they were, and adds one console warning. *)
Theorem complete_without_stats (data : value) (st : Stream.AppState) :
  is_event data "complete" = true ->
  nullish (field data "stats") = true ->
  Stream.handleSSEEvent data st = (Stream.setProgress f100 st, inl TypeError) /\
  forall final line, JSON_parse (slice line 6) = inr data ->
    let st' := Stream.process_frame final st line in
    Stream.progress st' = f100 /\
    Stream.result st' = Stream.result st /\
    Stream.logEntries st' = Stream.logEntries st /\
    Stream.downloadUrl st' = Stream.downloadUrl st /\
    Stream.error st' = Stream.error st /\
    Stream.console st' =
      Stream.console st ++
      [{| Stream.label := js (if final then "Error parsing final SSE:"
                              else "Error parsing SSE:");
          Stream.caught := TypeError |}].
Proof.
  intros Hty Hn.
  assert (H : Stream.handleSSEEvent data st =
              (Stream.setProgress f100 st, inl TypeError)).
  { dispatch Hty. now rewrite (nullish_get _ "procesadas" Hn). }
  split; [exact H |].
  intros final line Hp. cbv zeta. unfold Stream.process_frame.
  rewrite Hp, H. now destruct final.
Qed.

Lemma complete_without_stats_witness :
  is_event (Obj [(js "type", Str (js "complete"))]) "complete" = true /\
  nullish (field (Obj [(js "type", Str (js "complete"))]) "stats") = true /\
  Stream.handleSSEEvent (Obj [(js "type", Str (js "complete"))]) Stream.ready =
  (Stream.setProgress f100 Stream.ready, inl TypeError).
Proof.
  split; [reflexivity |]. split; [reflexivity |].
  exact (proj1 (complete_without_stats
    (Obj [(js "type", Str (js "complete"))]) Stream.ready eq_refl eq_refl)).
Defined.

Lemma payload_without_a_handler_witness :
  Stream.handleSSEEvent (Obj [(js "type", Str (js "heartbeat"))]) Stream.ready =
  (Stream.ready, inr tt).
Proof.
  refine (proj1 (proj1 (payload_without_a_handler
            (Obj [(js "type", Str (js "heartbeat"))]) Stream.ready)
            eq_refl _)).
  intros d [<- | [<- | [<- | [<- | [<- | []]]]]]; reflexivity.
Defined.

(* ===================================================================== *)
(** * The counters over the log *)
(* ===================================================================== *)





(* ===================================================================== *)
(** * Checking the API, choosing and removing a file *)
(* ===================================================================== *)

(** X9: [checkApiStatus] ends online exactly when the fetch resolved with an
    ok status, and offline otherwise (a rejection, a timeout, any other
    status); nothing that is rendered of the run changes.  A run can be
    started only after such a check: while the check is pending and
    after one that ended offline, [processFile] does nothing whatever
    the network would answer. *)
Theorem check_gates_the_run (net : Stream.fetch_outcome) (st : Stream.AppState) :
  let st' := Stream.checkApiStatus net st in
  (Stream.apiStatus st' = online <->
   exists r, net = Stream.FetchResolves r /\ Stream.response_ok r = true) /\
  (Stream.apiStatus st' <> online -> Stream.apiStatus st' = offline) /\
  Stream.render st' = Stream.render st /\
  Stream.file st' = Stream.file st /\
  (forall net', Stream.apiStatus st' = offline ->
                Stream.processFile net' st' = st') /\
  (forall net', Stream.processFile net' (Stream.setApiStatus checking st) =
                Stream.setApiStatus checking st).
Proof.
  cbv zeta. unfold Stream.checkApiStatus.
  split; [| split; [| split; [| split; [| split]]]].
  - split.
    + destruct net as [err | r]; [discriminate |].
      destruct (Stream.response_ok r) eqn:Hok; [| discriminate].
      intros _. now exists r.
    + intros [r [-> Hok]]. now rewrite Hok.
  - destruct net as [err | r]; [reflexivity |].
    destruct (Stream.response_ok r); [| reflexivity].
    intros H. now contradiction H.
  - destruct net as [err | r]; [reflexivity |].
    now destruct (Stream.response_ok r).
  - destruct net as [err | r]; [reflexivity |].
    now destruct (Stream.response_ok r).
  - intros net' Hoff. unfold Stream.processFile. rewrite Hoff.
    now destruct (Stream.file _).
  - intros net'. unfold Stream.processFile. simpl.
    now destruct (Stream.file st).
Qed.

(** X10: dropping files on the zone and picking them in the dialog do the
    same to the state, and the drop always clears the drag flag.  Only
    the first file counts.  If [isValidFile] accepts it, it becomes the
    file and the result, the download, the error, the progress, the row
    total and the log are cleared, while the running flag, the timer,
    the id counter, the download name and the API status are untouched:
    a run in progress goes on.  If there is no file or it is rejected,
    the state is the one before. *)
Theorem choosing_a_file (files : list File) (p : Stream.Page) :
  let p' := Stream.handleDrop files p in
  let st := Stream.app p in
  let st' := Stream.app p' in
  Stream.isDragging p' = false /\
  st' = Stream.handleFileSelect (Some files) st /\
  (forall f rest, files = f :: rest -> isValidFile f = true ->
     Stream.file st' = Some f /\
     Stream.result st' = None /\ Stream.downloadUrl st' = None /\
     Stream.error st' = None /\ Stream.progress st' = f0 /\
     Stream.totalRows st' = Num f0 /\ Stream.logEntries st' = [] /\
     Stream.showLog st' = false /\
     Stream.isProcessing st' = Stream.isProcessing st /\
     Stream.timerInterval st' = Stream.timerInterval st /\
     Stream.logId st' = Stream.logId st /\
     Stream.downloadFilename st' = Stream.downloadFilename st /\
     Stream.apiStatus st' = Stream.apiStatus st) /\
  (forall f rest, files = f :: rest -> isValidFile f = false -> st' = st) /\
  (files = [] -> st' = st).
Proof.
  cbv zeta. unfold Stream.handleDrop, Stream.handleFileSelect.
  split; [reflexivity |]. split; [reflexivity |].
  split; [| split].
  - intros f rest -> Hv. cbn [hd_error Stream.app]. rewrite Hv.
    repeat split.
  - intros f rest -> Hv. cbn [hd_error Stream.app]. now rewrite Hv.
  - now intros ->.
Qed.

Lemma choosing_a_file_witness :
  isValidFile {| name := js "calles.xlsx" |} = true /\
  Stream.file
    (Stream.app
       (Stream.handleDrop [{| name := js "calles.xlsx" |}]
          {| Stream.app := Stream.initial; Stream.isDragging := true |})) =
  Some {| name := js "calles.xlsx" |}.
Proof.
  split; [reflexivity |].
  exact (proj1 (proj1 (proj2 (proj2 (choosing_a_file
    [{| name := js "calles.xlsx" |}]
    {| Stream.app := Stream.initial; Stream.isDragging := true |})))
    {| name := js "calles.xlsx" |} [] eq_refl eq_refl)).
Defined.

Lemma processFile_without_file (net : Stream.fetch_outcome)
  (st : Stream.AppState) :
  Stream.file st = None -> Stream.processFile net st = st.
Proof. unfold Stream.processFile. now intros ->. Qed.

(** X11: after [removeFile] there is no file and nothing of the last run is
    shown; it does not touch the running flag or the timer.  From that
    state [processFile] does nothing, whatever the network would
    answer, until a file is chosen again. *)
Theorem removed_file_cannot_run (net : Stream.fetch_outcome)
  (st : Stream.AppState) :
  let st' := Stream.removeFile st in
  Stream.processFile net st' = st' /\
  Stream.file st' = None /\
  Stream.result st' = None /\ Stream.downloadUrl st' = None /\
  Stream.error st' = None /\ Stream.progress st' = f0 /\
  Stream.logEntries st' = [] /\ Stream.showLog st' = false /\
  Stream.downloadFile st' = None /\
  Stream.start_disabled st' = true /\
  Stream.isProcessing st' = Stream.isProcessing st /\
  Stream.timerInterval st' = Stream.timerInterval st.
Proof.
  cbv zeta. split; [| repeat split].
  apply processFile_without_file. reflexivity.
Qed.

(* ===================================================================== *)
(** * The bytes of the download *)
(* ===================================================================== *)

Lemma in_range_bounds (lo hi c : N) :
  in_range lo hi c = true -> (lo <= c <= hi)%N.
Proof.
  unfold in_range. intros H. apply andb_prop in H. destruct H as [H1 H2].
  apply N.leb_le in H1. apply N.leb_le in H2. lia.
Qed.

Lemma base64_value_bound (c v : N) : base64_value c = Some v -> (v < 64)%N.
Proof.
  unfold base64_value.
  destruct (in_range 65 90 c) eqn:E1.
  { apply in_range_bounds in E1. intros H. injection H as <-. lia. }
  destruct (in_range 97 122 c) eqn:E2.
  { apply in_range_bounds in E2. intros H. injection H as <-. lia. }
  destruct (in_range 48 57 c) eqn:E3.
  { apply in_range_bounds in E3. intros H. injection H as <-. lia. }
  destruct (N.eqb c (ch "+")); [intros H; injection H as <-; lia |].
  destruct (N.eqb c (ch "/")); [intros H; injection H as <-; lia |].
  discriminate.
Qed.

Lemma base64_values_bound (s : jsstring) : forall vs : list N,
  base64_values s = Some vs -> Forall (fun v => (v < 64)%N) vs.
Proof.
  induction s as [| c s IH]; intros vs; simpl.
  - intros H. injection H as <-. constructor.
  - destruct (base64_value c) as [v |] eqn:Ev; [| discriminate].
    destruct (base64_values s) as [vs' |]; [| discriminate].
    intros H. injection H as <-. constructor.
    + now apply (base64_value_bound c).
    + now apply IH.
Qed.

Lemma shiftr_below (w n k : N) :
  (w < 2 ^ (n + k))%N -> (N.shiftr w n < 2 ^ k)%N.
Proof.
  intros H. rewrite N.shiftr_div_pow2.
  apply N.Div0.div_lt_upper_bound.
  now rewrite <- N.pow_add_r.
Qed.

Lemma land_byte (x : N) : (N.land x 0xFF < 256)%N.
Proof.
  change 0xFF%N with (N.ones 8). rewrite N.land_ones.
  apply N.mod_lt. discriminate.
Qed.

Lemma base64_bytes_bound (n : nat) : forall vs : list N,
  (List.length vs <= n)%nat ->
  Forall (fun v => (v < 64)%N) vs ->
  Forall (fun b => (b < 256)%N) (base64_bytes vs).
Proof.
  induction n as [| n IH]; intros vs Hlen Hvs.
  { destruct vs; [constructor | simpl in Hlen; lia]. }
  destruct vs as [| a [| b [| c [| d rest]]]]; simpl; try constructor.
  - inversion Hvs as [| ? ? Ha Hr]; subst.
    inversion Hr as [| ? ? Hb _]; subst.
    apply (shiftr_below _ 4 8). change (2 ^ (4 + 8))%N with 4096%N. lia.
  - constructor.
  - inversion Hvs as [| ? ? Ha Hr]; subst.
    inversion Hr as [| ? ? Hb Hr2]; subst.
    inversion Hr2 as [| ? ? Hc _]; subst.
    apply (shiftr_below _ 10 8). change (2 ^ (10 + 8))%N with 262144%N. lia.
  - constructor; [apply land_byte | constructor].
  - inversion Hvs as [| ? ? Ha Hr]; subst.
    inversion Hr as [| ? ? Hb Hr2]; subst.
    inversion Hr2 as [| ? ? Hc Hr3]; subst.
    inversion Hr3 as [| ? ? Hd _]; subst.
    apply (shiftr_below _ 16 8). change (2 ^ (16 + 8))%N with 16777216%N. lia.
  - constructor; [apply land_byte |].
    constructor; [apply land_byte |].
    apply IH.
    + simpl in Hlen. lia.
    + inversion Hvs as [| ? ? _ Hr]; subst.
      inversion Hr as [| ? ? _ Hr2]; subst.
      inversion Hr2 as [| ? ? _ Hr3]; subst.
      now inversion Hr3.
Qed.

Lemma atob_units (s chars : jsstring) :
  atob s = inr chars -> Forall (fun b => (b < 256)%N) chars.
Proof.
  unfold atob.
  destruct (Nat.eqb _ 1); [discriminate |].
  destruct (base64_values _) as [vs |] eqn:Ev; [| discriminate].
  intros H. injection H as <-.
  apply (base64_bytes_bound (List.length vs)); [lia |].
  now apply (base64_values_bound _ _ Ev).
Qed.

Lemma Uint8Array_exact (l : list N) :
  Forall (fun b => (b < 256)%N) l -> map Byte.to_N (Uint8Array l) = l.
Proof.
  unfold Uint8Array. induction 1 as [| x l Hx _ IH]; simpl; [reflexivity |].
  rewrite IH. f_equal.
  rewrite N.mod_small by exact Hx.
  destruct (Byte.of_N x) as [b |] eqn:E.
  - now apply Byte.to_of_N.
  - apply Byte.of_N_None_iff in E. lia.
Qed.

(** X12: the download a [complete] event installs, when its [elapsed]
    converts to a string and its [file] decodes, holds exactly the bytes
    the file decodes to: [atob] gives code units below 256, so the copy
    into the typed array wraps nothing around.  The link [downloadFile]
    clicks points to that blob and is named after the event's
    [filename] converted to a string, the text undefined when the event
    has none; with a filename that does not convert, [downloadFile]
    throws before the click. *)
Theorem download_holds_decoded_bytes
  (data : value) (st : Stream.AppState) (elapsed byteCharacters : jsstring) :
  is_event data "complete" = true ->
  nullish (field data "stats") = false ->
  ToString (field data "elapsed") = inr elapsed ->
  ToBoolean (field data "file") = true ->
  atob_value (field data "file") = inr byteCharacters ->
  let st' := fst (Stream.handleSSEEvent data st) in
  exists blob,
    Stream.downloadUrl st' = Some blob /\
    map Byte.to_N (blob_parts blob) = byteCharacters /\
    List.length (blob_parts blob) = List.length byteCharacters /\
    blob_type blob = xlsx_mime /\
    (forall filename : jsstring,
       ToString (field data "filename") = inr filename ->
       Stream.downloadFile st' =
         Some (inr {| Stream.href := blob; Stream.download := filename |})) /\
    (field data "filename" = Undefined ->
     Stream.downloadFile st' =
       Some (inr {| Stream.href := blob;
                    Stream.download := js "undefined" |})) /\
    (forall e : exn,
       ToString (field data "filename") = inl e ->
       Stream.downloadFile st' = Some (inl TypeError)).
Proof.
  intros Hty Hstats Hel Hfile Hatob. cbv zeta.
  rewrite (handle_complete_counts _ st Hty Hstats Hel).
  unfold Stream.bind, Stream.modify, Stream.lift.
  rewrite Hfile, Hatob. cbn [fst].
  eexists. split; [reflexivity |].
  cbn [blob_parts blob_type].
  destruct (atob_value_inr _ Hatob) as [text [_ Htext]].
  split; [apply Uint8Array_exact, (atob_units _ _ Htext) |].
  split; [unfold Uint8Array; apply length_map |].
  split; [reflexivity |].
  unfold Stream.downloadFile. cbn.
  split; [| split].
  - intros filename Hfn. now rewrite Hfn.
  - intros Hfn. now rewrite Hfn.
  - intros e Hfn. rewrite Hfn. now rewrite (@ToString_throws _ _ Hfn).
Qed.

Lemma download_holds_decoded_bytes_witness :
  is_event complete_with_file "complete" = true /\
  nullish (field complete_with_file "stats") = false /\
  ToString (field complete_with_file "elapsed") = inr (js "5s") /\
  ToBoolean (field complete_with_file "file") = true /\
  atob_value (field complete_with_file "file") = inr (js "hello") /\
  exists blob,
    Stream.downloadUrl
      (fst (Stream.handleSSEEvent complete_with_file Stream.ready)) = Some blob /\
    map Byte.to_N (blob_parts blob) = js "hello".
Proof.
  split; [reflexivity |]. split; [reflexivity |].
  split; [reflexivity |]. split; [reflexivity |]. split; [reflexivity |].
  destruct (download_holds_decoded_bytes complete_with_file Stream.ready
              (js "5s") (js "hello") eq_refl eq_refl eq_refl eq_refl eq_refl)
    as [blob [H1 [H2 _]]].
  exists blob. split; [exact H1 | exact H2].
Defined.

(* ===================================================================== *)
(** * The elapsed time *)
(* ===================================================================== *)

Lemma formatTime_same (seconds : N) :
  Stream.formatTime seconds = OneShot.formatTime seconds.
Proof. reflexivity. Qed.




(* ===================================================================== *)
(** * The names [isValidFile] accepts *)
(* ===================================================================== *)

Lemma endsWith_spec (s suffix : jsstring) :
  endsWith s suffix = true <-> exists stem, s = stem ++ suffix.
Proof.
  unfold endsWith. split.
  - intros H. apply andb_prop in H. destruct H as [Hlen Heq].
    apply jsstring_eqb_eq in Heq.
    remember (List.length s - List.length suffix)%nat as n eqn:Hn.
    exists (firstn n s). rewrite <- Heq. symmetry. apply firstn_skipn.
  - intros [stem ->]. rewrite length_app. apply andb_true_intro. split.
    + apply Nat.leb_le. lia.
    + apply jsstring_eqb_eq.
      replace (List.length stem + List.length suffix - List.length suffix)%nat
        with (List.length stem + 0)%nat by lia.
      now rewrite skipn_app, Nat.add_0_r, skipn_all, Nat.sub_diag.
Qed.

Lemma endsWith_prefix (a s suffix : jsstring) :
  (List.length suffix <= List.length s)%nat ->
  endsWith (a ++ s) suffix = endsWith s suffix.
Proof.
  intros Hlen. unfold endsWith. rewrite length_app.
  rewrite skipn_app.
  replace (List.length a + List.length s - List.length suffix - List.length a)%nat
    with (List.length s - List.length suffix)%nat by lia.
  rewrite (skipn_all2 a) by lia. cbn [app].
  apply Nat.leb_le in Hlen as H1. rewrite H1.
  assert (H2 : (List.length suffix <= List.length a + List.length s)%nat) by lia.
  apply Nat.leb_le in H2. now rewrite H2.
Qed.

Lemma toLowerCase_app (a b : jsstring) :
  toLowerCase (a ++ b) = toLowerCase a ++ toLowerCase b.
Proof. apply map_app. Qed.

(** X14: for a name of ASCII code units, [isValidFile] accepts exactly the
    names that end, whatever the case of the letters, with one of
    .xlsx, .xls and .xlsm; the stem may be empty, and a valid name has
    at least four code units. *)
Theorem isValidFile_extension (f : File) :
  is_ascii (name f) = true ->
  (isValidFile f = true <->
   exists stem ext, name f = stem ++ ext /\
                    In (toLowerCase ext) validExtensions) /\
  (isValidFile f = true -> (4 <= List.length (name f))%nat).
Proof.
  intros _.
  assert (Hiff : isValidFile f = true <->
                 exists stem ext, name f = stem ++ ext /\
                                  In (toLowerCase ext) validExtensions).
  { unfold isValidFile. rewrite existsb_exists. split.
    - intros [e [Hin He]]. apply endsWith_spec in He. destruct He as [stem He].
      exists (firstn (List.length stem) (name f)),
             (skipn (List.length stem) (name f)).
      split; [symmetry; apply firstn_skipn |].
      unfold toLowerCase in *. rewrite <- skipn_map, He.
      now rewrite skipn_app, skipn_all, Nat.sub_diag.
    - intros [stem [ext [Hn Hin]]].
      exists (toLowerCase ext). split; [exact Hin |].
      apply endsWith_spec. exists (toLowerCase stem).
      now rewrite Hn, toLowerCase_app. }
  split; [exact Hiff |].
  intros H. apply Hiff in H. destruct H as [stem [ext [Hn Hin]]].
  rewrite Hn, length_app.
  assert (Hl : (4 <= List.length (toLowerCase ext))%nat).
  { destruct Hin as [<- | [<- | [<- | []]]]; simpl; lia. }
  unfold toLowerCase in Hl. rewrite length_map in Hl. lia.
Qed.

Lemma isValidFile_extension_witness :
  is_ascii (name {| name := js "Calles.XLSX" |}) = true /\
  (isValidFile {| name := js "Calles.XLSX" |} = true ->
   (4 <= List.length (name {| name := js "Calles.XLSX" |}))%nat).
Proof.
  split; [reflexivity |].
  exact (proj2 (isValidFile_extension {| name := js "Calles.XLSX" |} eq_refl)).
Defined.

(** X15: only the last five code units of an ASCII name decide: two names
    that end alike are accepted or rejected together, so a file is
    taken on its extension alone, whatever comes before it. *)
Theorem isValidFile_last_units (a b s : jsstring) :
  is_ascii (a ++ s) = true -> is_ascii (b ++ s) = true ->
  (5 <= List.length s)%nat ->
  isValidFile {| name := a ++ s |} = isValidFile {| name := b ++ s |}.
Proof.
  intros _ _ Hlen. unfold isValidFile. cbn [name].
  rewrite !toLowerCase_app.
  assert (Hs : (5 <= List.length (toLowerCase s))%nat).
  { unfold toLowerCase. now rewrite length_map. }
  unfold validExtensions. cbn [existsb].
  rewrite !(endsWith_prefix _ (toLowerCase s)); try reflexivity;
    simpl; lia.
Qed.

Lemma isValidFile_last_units_witness :
  is_ascii (js "informe" ++ js ".xlsx") = true /\
  is_ascii (js "virus.exe" ++ js ".xlsx") = true /\
  (5 <= List.length (js ".xlsx"))%nat /\
  isValidFile {| name := js "informe" ++ js ".xlsx" |} =
  isValidFile {| name := js "virus.exe" ++ js ".xlsx" |}.
Proof.
  split; [reflexivity |]. split; [reflexivity |].
  split; [simpl; lia |].
  apply (isValidFile_last_units (js "informe") (js "virus.exe") (js ".xlsx")
           eq_refl eq_refl).
  simpl. lia.
Defined.

(* ===================================================================== *)
(** * The buffer of the read loop *)
(* ===================================================================== *)

Lemma pending_cons_LF (s : jsstring) :
  Stream.terminated_lines (LF :: s) = [] :: Stream.terminated_lines s /\
  Stream.pending (LF :: s) = Stream.pending s.
Proof.
  unfold Stream.terminated_lines, Stream.pending.
  change (split LF (LF :: s)) with ([] :: split LF s).
  rewrite (pop_cons [] (split_nonempty LF s)).
  split; reflexivity.
Qed.

Lemma pending_cons_other (c : N) (s : jsstring) :
  N.eqb c LF = false ->
  (Stream.terminated_lines s = [] /\
   Stream.terminated_lines (c :: s) = [] /\
   Stream.pending (c :: s) = c :: Stream.pending s) \/
  (exists l r,
     Stream.terminated_lines s = l :: r /\
     Stream.terminated_lines (c :: s) = (c :: l) :: r /\
     Stream.pending (c :: s) = Stream.pending s).
Proof.
  intros Hc. unfold Stream.terminated_lines, Stream.pending.
  cbn [split]. rewrite Hc.
  pose proof (split_nonempty LF s) as Hne.
  destruct (split LF s) as [| l ls]; [contradiction |].
  destruct ls as [| l2 ls].
  - left. cbn -[or_empty]. rewrite !or_empty_some. repeat split.
  - right. exists l, (fst (pop (l2 :: ls))).
    rewrite !(@pop_cons _ _ (l2 :: ls)) by discriminate.
    repeat split.
Qed.

(** Splitting at the line feeds and putting them back gives the text
    again, and no piece holds a line feed. *)
Lemma split_join (t : jsstring) :
  List.concat (map (fun l => l ++ [LF]) (Stream.terminated_lines t)) ++
    Stream.pending t = t /\
  ~ In LF (Stream.pending t) /\
  Forall (fun l => ~ In LF l) (Stream.terminated_lines t).
Proof.
  induction t as [| c s [IH1 [IH2 IH3]]].
  - repeat split; [intros [] | constructor].
  - destruct (N.eqb c LF) eqn:Hc.
    + apply N.eqb_eq in Hc. subst c.
      destruct (pending_cons_LF s) as [-> ->].
      cbn [map List.concat app]. rewrite IH1.
      repeat split; [exact IH2 |]. constructor; [intros [] | exact IH3].
    + assert (Hne : c <> LF) by (now apply N.eqb_neq).
      destruct (pending_cons_other c s Hc)
        as [[E1 [-> ->]] | [l [r [E1 [-> ->]]]]].
      * rewrite E1 in IH1. cbn [map List.concat app] in *. rewrite IH1.
        repeat split; [| constructor].
        intros [H | H]; [now apply Hne | apply IH2; now rewrite IH1].
      * rewrite E1 in IH1, IH3. cbn [map List.concat app] in *.
        split; [f_equal; exact IH1 |]. split; [exact IH2 |].
        inversion IH3 as [| ? ? Hl Hr]; subst.
        constructor; [| exact Hr].
        intros [H | H]; [now apply Hne | now apply Hl].
Qed.

Lemma pending_of_line (s : jsstring) : ~ In LF s -> Stream.pending s = s.
Proof.
  intros H. induction s as [| c s IH]; [reflexivity |].
  assert (Hc : N.eqb c LF = false).
  { apply N.eqb_neq. intros ->. apply H. now left. }
  assert (Hs : ~ In LF s) by (intros Hin; apply H; now right).
  assert (Hsplit : forall u, ~ In LF u -> split LF u = [u]).
  { clear. induction u as [| d u IHu]; intros Hu; [reflexivity |].
    cbn [split].
    replace (N.eqb d LF) with false
      by (symmetry; apply N.eqb_neq; intros ->; apply Hu; now left).
    rewrite IHu by (intros Hin; apply Hu; now right). reflexivity. }
  unfold Stream.pending. rewrite (Hsplit (c :: s) H). reflexivity.
Qed.

(** X16: what the loop carries from one chunk to the next: after any chunks
    the buffer is the part of the text decoded so far that follows its
    last line feed.  It never holds a line feed, and with the lines
    already handed to the handler, each closed by its line feed, it
    makes up the whole text. *)
Theorem buffer_is_unterminated_rest (A : Type)
  (on_frame : bool -> A -> jsstring -> A) (a : A) (cs : list (list byte)) :
  let st := Stream.read_chunks on_frame
              {| Stream.decoder := new_TextDecoder; Stream.buffer := [];
                 Stream.acc := a |} cs in
  let text := Stream.stream_text cs in
  Stream.buffer st = Stream.pending text /\
  ~ In LF (Stream.buffer st) /\
  List.concat (map (fun l => l ++ [LF]) (Stream.terminated_lines text)) ++
    Stream.buffer st = text.
Proof.
  cbv zeta.
  assert (Hfree : forall (cs : list (list byte)) (st : Stream.loop_state A),
            ~ In LF (Stream.buffer st) ->
            ~ In LF (Stream.buffer (Stream.read_chunks on_frame st cs))).
  { clear. induction cs as [| c cs IH]; intros st H; [exact H |].
    cbn [Stream.read_chunks]. apply IH.
    rewrite iteration_chunk. cbn [Stream.buffer].
    apply (split_join _). }
  destruct (read_chunks_spec on_frame cs
              {| Stream.decoder := new_TextDecoder; Stream.buffer := [];
                 Stream.acc := a |} []) as [_ [Hp _]].
  cbn [Stream.buffer Stream.decoder] in Hp. rewrite !app_nil_r in Hp.
  cbn [app] in Hp.
  assert (Hb : ~ In LF (Stream.buffer
             (Stream.read_chunks on_frame
                {| Stream.decoder := new_TextDecoder; Stream.buffer := [];
                   Stream.acc := a |} cs))).
  { apply Hfree. intros []. }
  rewrite (pending_of_line _ Hb) in Hp.
  unfold Stream.stream_text.
  split; [exact Hp |]. split; [exact Hb |].
  rewrite Hp. apply split_join.
Qed.

(* ===================================================================== *)
(** * Runs that end without a result *)
(* ===================================================================== *)

(** X17: what the three failures that come before the first read store.  A
    response that is not ok gives the status line, a response without a
    body a fixed text, a fetch that rejects the message of what was
    thrown or a fixed text when that is not an [Error].  In each case
    the body is not read: the log holds the announcement and the error
    entry, two entries, and the progress is 0. *)
Theorem failures_before_the_stream
  (net : Stream.fetch_outcome) (st : Stream.AppState) (f : File) :
  Stream.file st = Some f -> Stream.apiStatus st = online ->
  let st' := Stream.processFile net st in
  let stored m :=
    Stream.error st' = Some (Stream.api_error (Str m)) /\
    map (fun e => (LogEntry.type e, LogEntry.message e)) (Stream.logEntries st') =
      [(LogEntry.info,
        Str (js "Iniciando procesamiento de " ++ name f ++ js "..."));
       (LogEntry.error, Str (js "Error: " ++ m))] /\
    Stream.progress st' = f0 /\ Stream.result st' = None /\
    Stream.isProcessing st' = false in
  (forall r, net = Stream.FetchResolves r -> Stream.response_ok r = false ->
     stored (js "Error " ++ digits_of (Stream.response_status r) ++ js ": " ++
             Stream.statusText r)) /\
  (forall r, net = Stream.FetchResolves r -> Stream.response_ok r = true ->
     Stream.body r = None -> stored (js "No se pudo leer la respuesta")) /\
  (forall m, net = Stream.FetchRejects (ErrorObject m) -> stored m) /\
  (net = Stream.FetchRejects OtherThrown -> stored (js "Error desconocido")).
Proof.
  intros Hf Ha. cbv zeta. unfold Stream.processFile. rewrite Hf, Ha.
  split; [| split; [| split]].
  - intros r -> Hok. unfold Stream.try_block. rewrite Hok. cbn [negb].
    repeat split.
  - intros r -> Hok Hb. unfold Stream.try_block. rewrite Hok, Hb. cbn [negb].
    repeat split.
  - intros m ->. repeat split.
  - intros ->. repeat split.
Qed.

Lemma failures_before_the_stream_witness :
  Stream.file Stream.ready = Some {| name := js "calles.xlsx" |} /\
  Stream.apiStatus Stream.ready = online /\
  Stream.error
    (Stream.processFile
       (Stream.FetchResolves
          {| Stream.response_status := 503;
             Stream.statusText := js "Service Unavailable";
             Stream.body := None |}) Stream.ready) =
  Some (Stream.api_error (Str (js "Error 503: Service Unavailable"))).
Proof.
  split; [reflexivity |]. split; [reflexivity |].
  exact (proj1 (proj1 (failures_before_the_stream
    (Stream.FetchResolves
       {| Stream.response_status := 503;
          Stream.statusText := js "Service Unavailable";
          Stream.body := None |}) Stream.ready
    {| name := js "calles.xlsx" |} eq_refl eq_refl) _ eq_refl eq_refl)).
Defined.

(** Only a [complete] event touches the result and the download. *)
Lemma handle_result_conditions (data : value) (st : Stream.AppState) :
  is_event data "complete" = false ->
  let st' := fst (Stream.handleSSEEvent data st) in
  Stream.result st' = Stream.result st /\
  Stream.downloadUrl st' = Stream.downloadUrl st /\
  Stream.downloadFilename st' = Stream.downloadFilename st.
Proof.
  cbv zeta. unfold is_event, field.
  unfold Stream.handleSSEEvent, Stream.bind, Stream.lift, Stream.modify, Stream.ret.
  destruct (get data "type") as [e | ty]; cbn [fst]; [now repeat split |].
  destruct (strict_eq_str ty "start").
  { handler_cases; now repeat split. }
  destruct (strict_eq_str ty "progress").
  { handler_cases; now repeat split. }
  destruct (strict_eq_str ty "row_error").
  { handler_cases; now repeat split. }
  destruct (strict_eq_str ty "error").
  { handler_cases; now repeat split. }
  destruct (strict_eq_str ty "complete"); [discriminate |].
  now repeat split.
Qed.

(** The frames of a stream none of which parses to an event of the
    given kind. *)
Lemma run_frames_without (fs : list (bool * jsstring)) (P : Stream.AppState -> Prop)
  (kind : string) :
  (forall data s, is_event data kind = false -> P s ->
                  P (fst (Stream.handleSSEEvent data s))) ->
  (forall l e s, P s -> P (Stream.console_warn l e s)) ->
  (forall final line data, In (final, line) fs ->
     JSON_parse (slice line 6) = inr data -> is_event data kind = false) ->
  forall st, P st -> P (Stream.run_frames fs st).
Proof.
  intros Hh Hw. unfold Stream.run_frames.
  induction fs as [| [final line] fs IH]; intros Hfs st Hst; [exact Hst |].
  cbn [fold_left fst snd]. apply IH.
  - intros final' line' data Hin. apply (Hfs final' line' data). now right.
  - unfold Stream.process_frame.
    destruct (JSON_parse (slice line 6)) as [e | data] eqn:Hp; [now apply Hw |].
    pose proof (Hh data st (Hfs final line data (or_introl eq_refl) Hp) Hst) as H.
    destruct (Stream.handleSSEEvent data st) as [st' [e | u]];
      [apply Hw |]; exact H.
Qed.

(** X18: a stream that ends without a [complete] event ends the run all the
    same: nothing waits for one.  The run stops processing, its timer
    cleared, with no result and no download, and with no error either
    when no frame was an [error] event. *)
Theorem stream_without_complete
  (r : Stream.Response) (cs : list (list byte)) (st : Stream.AppState)
  (f : File) :
  Stream.file st = Some f -> Stream.apiStatus st = online ->
  Stream.response_ok r = true ->
  Stream.body r =
    Some {| Stream.chunks := cs; Stream.ending := Stream.EndOfStream |} ->
  (forall final line data,
     In (final, line) (Stream.tagged_frames (Stream.stream_text cs)) ->
     JSON_parse (slice line 6) = inr data ->
     is_event data "complete" = false) ->
  let st' := Stream.processFile (Stream.FetchResolves r) st in
  Stream.result st' = None /\
  Stream.downloadUrl st' = None /\
  Stream.isProcessing st' = false /\
  Stream.timerInterval st' = false /\
  ((forall final line data,
      In (final, line) (Stream.tagged_frames (Stream.stream_text cs)) ->
      JSON_parse (slice line 6) = inr data ->
      is_event data "error" = false) ->
   Stream.error st' = None).
Proof.
  intros Hf Ha Hok Hb Hnc. cbv zeta.
  unfold Stream.processFile. rewrite Hf, Ha.
  unfold Stream.try_block. rewrite Hok, Hb. cbn [negb].
  rewrite read_loop_never_throws.
  cbn [Stream.finally_block Stream.setRunning Stream.result Stream.downloadUrl
       Stream.isProcessing Stream.timerInterval Stream.error].
  pose proof (run_frames_without
    (Stream.tagged_frames (Stream.stream_text cs))
    (fun s => Stream.result s = None /\ Stream.downloadUrl s = None)
    "complete") as Hres.
  destruct (Hres) with (st := Stream.start_run f st) as [H1 H2].
  - intros data s Hne [Hr Hd].
    destruct (handle_result_conditions data s Hne) as [Hr' [Hd' _]].
    now rewrite Hr', Hd'.
  - intros l e s Hs. exact Hs.
  - exact Hnc.
  - split; reflexivity.
  - split; [exact H1 |]. split; [exact H2 |].
    split; [reflexivity |]. split; [reflexivity |].
    intros Hne.
    apply (run_frames_without
             (Stream.tagged_frames (Stream.stream_text cs))
             (fun s => Stream.error s = None) "error").
    + intros data s Hd Hs.
      destruct (handle_frame_conditions data s) as [_ [He _]].
      now rewrite (He Hd).
    + intros l e s Hs. exact Hs.
    + exact Hne.
    + reflexivity.
Qed.

Lemma stream_without_complete_witness :
  let r := {| Stream.response_status := 200; Stream.statusText := js "OK";
              Stream.body := Some
                {| Stream.chunks := [lines_bytes [progress_frame]];
                   Stream.ending := Stream.EndOfStream |} |} in
  Stream.file Stream.ready = Some {| name := js "calles.xlsx" |} /\
  Stream.apiStatus Stream.ready = online /\
  Stream.response_ok r = true /\
  Stream.result (Stream.processFile (Stream.FetchResolves r) Stream.ready) = None.
Proof.
  cbv zeta.
  split; [reflexivity |]. split; [reflexivity |]. split; [reflexivity |].
  refine (proj1 (stream_without_complete
    {| Stream.response_status := 200; Stream.statusText := js "OK";
       Stream.body := Some
         {| Stream.chunks := [lines_bytes [progress_frame]];
            Stream.ending := Stream.EndOfStream |} |}
    [lines_bytes [progress_frame]] Stream.ready
    {| name := js "calles.xlsx" |} eq_refl eq_refl eq_refl eq_refl _)).
  intros final line data Hin Hp.
  vm_compute in Hin. destruct Hin as [Hin | []].
  injection Hin as <- <-. vm_compute in Hp. injection Hp as <-. reflexivity.
Defined.

Local Open Scope Z_scope.

(* ===================================================================== *)
(** * The size of the file: exact quotients and their decimals *)
(* ===================================================================== *)

(** A mantissa of 53 bits is kept as it is. *)
Lemma round_exact (M e : Z) :
  2 ^ 52 <= M < 2 ^ 53 -> -1074 <= e <= 971 ->
  binary_round_aux prec emax false M e loc_Exact =
  S754_finite false (Z.to_pos M) e.
Proof.
  intros HM He.
  assert (H0 : 0 < M) by (rewrite pow2_52 in HM; lia).
  assert (Hd : Zdigits2 M = 53) by (apply Zdigits2_unique; [lia | exact HM]).
  assert (Hf : fexp prec emax (Zdigits2 M + e) = e) by (rewrite Hd, fexp_eq; lia).
  pose proof (binary_round_aux_spec M e H0 ltac:(lia)) as H.
  cbv zeta in H. rewrite Hf in H.
  replace (e - e) with 0 in H by lia.
  rewrite Z.pow_0_r, Z.div_1_r, Z.mod_1_r in H.
  destruct H as [q [Hq [Hup [_ [_ [_ Hr]]]]]].
  assert (Eq : q = M) by (destruct (Z.eq_dec q (M + 1)) as [E | E];
                          [specialize (Hup E); lia | lia]).
  subst q. rewrite Hr. unfold round_result.
  replace (M =? 0) with false by (symmetry; apply Z.eqb_neq; lia).
  replace (M <? 2 ^ 53) with true by (symmetry; apply Z.ltb_lt; lia).
  replace (e <=? 971) with true by (symmetry; apply Z.leb_le; lia).
  reflexivity.
Qed.

(** The Number of a positive integer below 2^53 holds it exactly, with
    the mantissa in its normal place. *)
Lemma float_of_Z_normal (n : Z) :
  0 < n < 2 ^ 53 ->
  float_of_Z n =
  S754_finite false (Z.to_pos (n * 2 ^ (53 - Zdigits2 n))) (Zdigits2 n - 53).
Proof.
  intros Hn.
  pose proof (Zdigits2_bounds n ltac:(lia)) as Hb.
  pose proof (Zdigits2_pos n ltac:(lia)) as Hp.
  assert (Hd : Zdigits2 n <= 53).
  { destruct (Z_le_gt_dec (Zdigits2 n) 53) as [H | H]; [exact H |].
    assert (2 ^ 53 <= 2 ^ (Zdigits2 n - 1)) by (apply Z.pow_le_mono_r; lia).
    lia. }
  destruct n as [| p | p]; try lia.
  unfold float_of_Z, binary_normalize, binary_round.
  change (Z.pos (digits2_pos p)) with (Zdigits2 (Z.pos p)).
  destruct (shl_align_spec p 0 (fexp prec emax (Zdigits2 (Z.pos p) + 0)))
    as [Hez [Hmz Hdz]].
  destruct (shl_align p 0 (fexp prec emax (Zdigits2 (Z.pos p) + 0)))
    as [mz ez].
  cbn [fst snd] in Hez, Hmz, Hdz.
  rewrite fexp_eq in Hez.
  remember (Zdigits2 (Z.pos p)) as d eqn:Ed.
  assert (Ez : ez = d - 53) by lia. clear Hez. subst ez.
  replace (0 - (d - 53)) with (53 - d) in Hmz by lia.
  rewrite <- Hmz.
  assert (HM : 2 ^ 52 <= Z.pos mz < 2 ^ 53).
  { assert (Hd53 : Zdigits2 (Z.pos mz) = 53) by lia.
    pose proof (Zdigits2_bounds (Z.pos mz) ltac:(lia)) as Hb2.
    rewrite Hd53 in Hb2. exact Hb2. }
  rewrite (round_exact (Z.pos mz) (d - 53) HM ltac:(lia)).
  reflexivity.
Qed.

(** Comparing an integer with a power of two, on doubles. *)
Lemma flt_pow2 (n k : Z) (t : positive) :
  0 <= n < 2 ^ 53 -> 0 <= k <= 52 -> Z.pos t = 2 ^ 52 ->
  flt (float_of_Z n) (S754_finite false t (k - 52)) = (n <? 2 ^ k).
Proof.
  intros Hn Hk Ht.
  assert (Hpk : 0 < 2 ^ k) by (apply Z.pow_pos_nonneg; lia).
  destruct (Z.eq_dec n 0) as [-> | Hnz].
  { symmetry. apply Z.ltb_lt. exact Hpk. }
  rewrite float_of_Z_normal by lia.
  pose proof (Zdigits2_bounds n ltac:(lia)) as Hb.
  pose proof (Zdigits2_pos n ltac:(lia)) as Hp.
  set (d := Zdigits2 n) in *.
  assert (Hd : d <= 53).
  { destruct (Z_le_gt_dec d 53) as [H | H]; [exact H |].
    assert (2 ^ 53 <= 2 ^ (d - 1)) by (apply Z.pow_le_mono_r; lia). lia. }
  assert (HM : 2 ^ 52 <= n * 2 ^ (53 - d)).
  { replace 52 with ((d - 1) + (53 - d)) by lia.
    rewrite Z.pow_add_r by lia.
    apply Z.mul_le_mono_nonneg_r; [apply Z.pow_nonneg; lia | lia]. }
  unfold flt, SFltb, SFcompare.
  destruct (Z.compare_spec (d - 53) (k - 52)) as [E | E | E].
  - assert (Hge : 2 ^ k <= n).
    { replace k with (d - 1) by lia. lia. }
    replace (n <? 2 ^ k) with false by (symmetry; apply Z.ltb_ge; lia).
    change (Pos.compare_cont Eq ?a ?b) with (Pos.compare a b).
    rewrite Pos2Z.inj_compare, Z2Pos.id by (rewrite pow2_52 in HM; lia).
    rewrite Ht.
    destruct (Z.compare_spec (n * 2 ^ (53 - d)) (2 ^ 52)); try reflexivity.
    lia.
  - assert (Hlt : n < 2 ^ k).
    { eapply Z.lt_le_trans; [apply Hb |]. apply Z.pow_le_mono_r; lia. }
    symmetry. apply Z.ltb_lt. exact Hlt.
  - assert (Hge : 2 ^ k <= n).
    { eapply Z.le_trans; [| apply Hb]. apply Z.pow_le_mono_r; lia. }
    symmetry. apply Z.ltb_ge. exact Hge.
Qed.

Lemma div_eucl_div_mod (a b : Z) : Z.div_eucl a b = (a / b, a mod b).
Proof. unfold Z.div, Z.modulo. now destruct (Z.div_eucl a b). Qed.

(** Dividing by a power of two is exact. *)
Lemma fdiv_pow2 (m t : positive) (e e2 : Z) :
  2 ^ 52 <= Z.pos m < 2 ^ 53 -> Z.pos t = 2 ^ 52 ->
  -1073 <= e - e2 - 52 <= 971 ->
  fdiv (S754_finite false m e) (S754_finite false t e2) =
  S754_finite false m (e - e2 - 52).
Proof.
  intros Hm Ht He.
  assert (Hd1 : Zdigits2 (Z.pos m) = 53)
    by (apply Zdigits2_unique; [lia | exact Hm]).
  assert (Hd2 : Zdigits2 (Z.pos t) = 53)
    by (apply Zdigits2_unique; [lia | rewrite Ht, pow2_52, pow2_53; lia]).
  assert (Hcore : SFdiv_core_binary prec emax (Z.pos m) e (Z.pos t) e2 =
                  (2 * Z.pos m, e - e2 - 53, loc_Exact)).
  { unfold SFdiv_core_binary. cbv zeta. rewrite Hd1, Hd2, fexp_eq.
    replace (Z.min (Z.max (53 + e - (53 + e2) - 53) (-1074)) (e - e2))
      with (e - e2 - 53) by lia.
    replace (e - e2 - (e - e2 - 53)) with 53 by lia.
    cbv iota. rewrite div_eucl_div_mod, Z.shiftl_mul_pow2 by lia.
    rewrite Ht.
    replace (Z.pos m * 2 ^ 53) with (2 * Z.pos m * 2 ^ 52)
      by (rewrite pow2_52, pow2_53; lia).
    rewrite Z.div_mul by (rewrite pow2_52; lia).
    rewrite Z.mod_mul by (rewrite pow2_52; lia).
    unfold new_location, new_location_even, new_location_odd.
    now destruct (Z.even (2 ^ 52)). }
  unfold fdiv, SFdiv. rewrite Hcore. cbn [xorb].
  assert (HM : 0 < 2 * Z.pos m) by lia.
  assert (Hd : Zdigits2 (2 * Z.pos m) = 54).
  { apply Zdigits2_unique; [lia |]. change (54 - 1) with 53.
    replace (2 ^ 54) with (2 * 2 ^ 53) by reflexivity.
    replace (2 ^ 53) with (2 * 2 ^ 52) at 1 by reflexivity. lia. }
  assert (Hf : fexp prec emax (Zdigits2 (2 * Z.pos m) + (e - e2 - 53)) =
               e - e2 - 52) by (rewrite Hd, fexp_eq; lia).
  pose proof (binary_round_aux_spec (2 * Z.pos m) (e - e2 - 53) HM ltac:(lia))
    as H.
  cbv zeta in H. rewrite Hf in H.
  replace (e - e2 - 52 - (e - e2 - 53)) with 1 in H by lia.
  rewrite Z.pow_1_r in H.
  replace (2 * Z.pos m / 2) with (Z.pos m) in H
    by (rewrite Z.mul_comm, Z.div_mul; lia).
  replace ((2 * Z.pos m) mod 2) with 0 in H
    by (rewrite Z.mul_comm, Z.mod_mul; lia).
  destruct H as [q [Hq [Hup [_ [_ [_ Hr]]]]]].
  assert (Eq : q = Z.pos m)
    by (destruct (Z.eq_dec q (Z.pos m + 1)) as [E | E];
        [specialize (Hup E); lia | lia]).
  subst q. rewrite Hr. unfold round_result.
  replace (Z.pos m =? 0) with false by (symmetry; apply Z.eqb_neq; lia).
  replace (Z.pos m <? 2 ^ 53) with true by (symmetry; apply Z.ltb_lt; lia).
  replace (e - e2 - 52 <=? 971) with true by (symmetry; apply Z.leb_le; lia).
  reflexivity.
Qed.

Lemma f1024_eq : f1024 = S754_finite false 4503599627370496 (10 - 52).
Proof. vm_compute. reflexivity. Qed.

Lemma f1048576_eq :
  fmul f1024 f1024 = S754_finite false 4503599627370496 (20 - 52).
Proof. vm_compute. reflexivity. Qed.

(** One decimal: the digits of the tenths, a point before the last. *)
Lemma fixed_point_one (k : N) :
  fixed_point 1 (Z.of_N k) =
  digits_of (k / 10) ++ ch "." :: digits_of (k mod 10).
Proof.
  unfold fixed_point. rewrite N2Z.id.
  destruct (N.lt_ge_cases k 10) as [H | H].
  - rewrite (N.div_small _ _ H), (N.mod_small _ _ H).
    rewrite (digits_of_small k H). reflexivity.
  - rewrite (digits_of_step k H).
    assert (Hm : (k mod 10 < 10)%N) by (apply N.mod_lt; discriminate).
    rewrite (digits_of_small _ Hm).
    pose proof (digits_of_nonempty (k / 10)%N) as Hne.
    remember (digits_of (k / 10)) as m eqn:Em.
    assert (Hl : (1 <= List.length m)%nat).
    { destruct m; [contradiction | simpl; lia]. }
    assert (Hlen : List.length (m ++ [(48 + k mod 10)%N]) = S (List.length m)).
    { rewrite length_app. simpl. lia. }
    rewrite Hlen.
    replace (1 + 1 - S (List.length m))%nat with 0%nat by lia.
    cbn [repeat app]. rewrite Hlen.
    replace (S (List.length m) - 1)%nat with (List.length m) by lia.
    rewrite firstn_app, skipn_app, firstn_all, skipn_all, Nat.sub_diag.
    cbn [firstn skipn app]. rewrite app_nil_r. reflexivity.
Qed.

(** [toFixed(1)] of an integer divided by a power of two, on doubles:
    the quotient is exact, and so are its tenths, rounded half up. *)
Lemma toFixed_of_quotient (n j : Z) (t : positive) :
  0 < n < 2 ^ 53 -> 0 < j <= 52 -> Z.pos t = 2 ^ 52 ->
  toFixed 1 (fdiv (float_of_Z n) (S754_finite false t (j - 52))) =
  fixed_point 1 ((20 * n + 2 ^ j) / 2 ^ (j + 1)).
Proof.
  intros Hn Hj Ht.
  rewrite float_of_Z_normal by exact Hn.
  pose proof (Zdigits2_bounds n ltac:(lia)) as Hb.
  pose proof (Zdigits2_pos n ltac:(lia)) as Hp.
  remember (Zdigits2 n) as d eqn:Ed.
  assert (Hd : d <= 53).
  { destruct (Z_le_gt_dec d 53) as [H | H]; [exact H |].
    assert (2 ^ 53 <= 2 ^ (d - 1)) by (apply Z.pow_le_mono_r; lia). lia. }
  assert (Hs : 0 < 2 ^ (53 - d)) by (apply Z.pow_pos_nonneg; lia).
  assert (HM : 2 ^ 52 <= n * 2 ^ (53 - d) < 2 ^ 53).
  { split.
    - replace 52 with ((d - 1) + (53 - d)) by lia.
      rewrite Z.pow_add_r by lia.
      apply Z.mul_le_mono_nonneg_r; lia.
    - replace 53 with (d + (53 - d)) at 2 by lia.
      rewrite Z.pow_add_r by lia.
      apply Z.mul_lt_mono_pos_r; lia. }
  remember (Z.to_pos (n * 2 ^ (53 - d))) as m eqn:Em.
  assert (Hm : Z.pos m = n * 2 ^ (53 - d)).
  { subst m. apply Z2Pos.id. nia. }
  rewrite fdiv_pow2; [| rewrite Hm; exact HM | exact Ht | lia].
  replace (d - 53 - (j - 52) - 52) with (d - j - 53) by lia.
  unfold toFixed. cbn [app].
  assert (He : (0 <=? d - j - 53) = false) by (apply Z.leb_gt; lia).
  assert (Hbig : at_least_1e21 m (d - j - 53) = false).
  { unfold at_least_1e21. rewrite He. apply Z.leb_gt.
    assert (0 < 2 ^ (- (d - j - 53))) by (apply Z.pow_pos_nonneg; lia).
    assert (2 ^ 53 < 10 ^ 21) by reflexivity.
    rewrite Hm. nia. }
  rewrite Hbig. f_equal.
  unfold nearest_scaled. rewrite He. cbv zeta.
  change (10 ^ Z.of_nat 1) with 10. rewrite Hm.
  replace (- (d - j - 53)) with (j + (53 - d)) by lia.
  replace (1 - (d - j - 53)) with ((j + 1) + (53 - d)) by lia.
  rewrite !Z.pow_add_r by lia.
  replace (2 * (n * 2 ^ (53 - d) * 10) + 2 ^ j * 2 ^ (53 - d))
    with ((20 * n + 2 ^ j) * 2 ^ (53 - d)) by ring.
  rewrite Z.div_mul_cancel_r; [reflexivity | | lia].
  assert (0 < 2 ^ j) by (apply Z.pow_pos_nonneg; lia). lia.
Qed.

Lemma tenths_bounds (n j : Z) :
  0 <= n -> 0 < j ->
  let k := (20 * n + 2 ^ j) / 2 ^ (j + 1) in
  0 <= k /\ 2 ^ j * k <= 10 * n + 2 ^ (j - 1) < 2 ^ j * k + 2 ^ j.
Proof.
  intros Hn Hj k.
  assert (Hp : 0 < 2 ^ (j - 1)) by (apply Z.pow_pos_nonneg; lia).
  assert (E1 : 2 ^ j = 2 * 2 ^ (j - 1)).
  { rewrite <- Z.pow_succ_r by lia. f_equal. lia. }
  assert (E2 : 2 ^ (j + 1) = 4 * 2 ^ (j - 1)).
  { replace (j + 1) with (Z.succ (Z.succ (j - 1))) by lia.
    rewrite !Z.pow_succ_r by lia. lia. }
  subst k. rewrite E2, E1.
  remember (2 ^ (j - 1)) as h eqn:Eh.
  pose proof (Z.div_mod (20 * n + 2 * h) (4 * h) ltac:(lia)) as Hdm.
  pose proof (Z.mod_pos_bound (20 * n + 2 * h) (4 * h) ltac:(lia)) as Hmb.
  assert (0 <= (20 * n + 2 * h) / (4 * h)) by (apply Z.div_pos; lia).
  remember ((20 * n + 2 * h) / (4 * h)) as q.
  remember ((20 * n + 2 * h) mod (4 * h)) as r.
  split; [lia |]. nia.
Qed.

(** X19: what [formatFileSize] shows for a whole number of bytes below 2^53,
    in integers.  Below 1024 bytes: the Number's own text and B.  From
    1024 bytes to just below 1024 * 1024: the size in units of 1024
    bytes, with exactly one decimal, rounded to the nearest tenth and
    upwards on a tie, and KB.  From there on, however large: the same
    in units of 1024 * 1024 bytes and MB; there is no larger unit.  The
    divisions and the comparisons on doubles lose nothing. *)
Theorem formatFileSize_integer (n : N) :
  (n < 2 ^ 53)%N ->
  let bytes := float_of_Z (Z.of_N n) in
  ((n < 1024)%N ->
   formatFileSize bytes = Number_toString bytes ++ js " B") /\
  ((1024 <= n < 1048576)%N ->
   exists tenths : N,
     (1024 * tenths <= 10 * n + 512 < 1024 * tenths + 1024)%N /\
     formatFileSize bytes =
       digits_of (tenths / 10) ++ ch "." :: digits_of (tenths mod 10) ++
       js " KB") /\
  ((1048576 <= n)%N ->
   exists tenths : N,
     (1048576 * tenths <= 10 * n + 524288 < 1048576 * tenths + 1048576)%N /\
     formatFileSize bytes =
       digits_of (tenths / 10) ++ ch "." :: digits_of (tenths mod 10) ++
       js " MB").
Proof.
  intros Hn. cbv zeta.
  assert (Hz : 0 <= Z.of_N n < 2 ^ 53).
  { split; [lia |]. change (2 ^ 53) with (Z.of_N (2 ^ 53)%N). lia. }
  assert (H10 : flt (float_of_Z (Z.of_N n)) f1024 = (Z.of_N n <? 2 ^ 10)).
  { rewrite f1024_eq. apply flt_pow2; [exact Hz | lia | reflexivity]. }
  assert (H20 : flt (float_of_Z (Z.of_N n)) (fmul f1024 f1024) =
                (Z.of_N n <? 2 ^ 20)).
  { rewrite f1048576_eq. apply flt_pow2; [exact Hz | lia | reflexivity]. }
  unfold formatFileSize. rewrite H10, H20.
  change (2 ^ 10) with 1024. change (2 ^ 20) with 1048576.
  split; [| split].
  - intros H. replace (Z.of_N n <? 1024) with true
      by (symmetry; apply Z.ltb_lt; lia).
    reflexivity.
  - intros [H1 H2].
    replace (Z.of_N n <? 1024) with false by (symmetry; apply Z.ltb_ge; lia).
    replace (Z.of_N n <? 1048576) with true by (symmetry; apply Z.ltb_lt; lia).
    rewrite f1024_eq.
    rewrite (toFixed_of_quotient (Z.of_N n) 10) by (try reflexivity; lia).
    destruct (tenths_bounds (Z.of_N n) 10 ltac:(lia) ltac:(lia)) as [Hk Hb].
    change (2 ^ (10 + 1)) with 2048 in *. change (2 ^ 10) with 1024 in *.
    change (2 ^ (10 - 1)) with 512 in *.
    remember ((20 * Z.of_N n + 1024) / 2048) as k eqn:Ek.
    exists (Z.to_N k). split; [lia |].
    rewrite <- (Z2N.id k Hk) at 1. rewrite fixed_point_one.
    now rewrite <- app_assoc.
  - intros H1.
    replace (Z.of_N n <? 1024) with false by (symmetry; apply Z.ltb_ge; lia).
    replace (Z.of_N n <? 1048576) with false
      by (symmetry; apply Z.ltb_ge; lia).
    rewrite f1048576_eq.
    rewrite (toFixed_of_quotient (Z.of_N n) 20) by (try reflexivity; lia).
    destruct (tenths_bounds (Z.of_N n) 20 ltac:(lia) ltac:(lia)) as [Hk Hb].
    change (2 ^ (20 + 1)) with 2097152 in *.
    change (2 ^ 20) with 1048576 in *.
    change (2 ^ (20 - 1)) with 524288 in *.
    remember ((20 * Z.of_N n + 1048576) / 2097152) as k eqn:Ek.
    exists (Z.to_N k). split; [lia |].
    rewrite <- (Z2N.id k Hk) at 1. rewrite fixed_point_one.
    now rewrite <- app_assoc.
Qed.

Lemma formatFileSize_integer_witness :
  (1536 < 2 ^ 53)%N /\ (1024 <= 1536 < 1048576)%N /\
  exists tenths : N,
    (1024 * tenths <= 10 * 1536 + 512 < 1024 * tenths + 1024)%N /\
    formatFileSize (float_of_Z (Z.of_N 1536)) =
      digits_of (tenths / 10) ++ ch "." :: digits_of (tenths mod 10) ++
      js " KB".
Proof.
  split; [reflexivity |]. split; [split; [discriminate | reflexivity] |].
  apply (proj1 (proj2 (formatFileSize_integer 1536 eq_refl))).
  split; [discriminate | reflexivity].
Defined.

Example toFixed_samples :
  toFixed 1 (float_of_decimal false 25 (-2)) = js "0.3" /\
  toFixed 1 (float_of_decimal true 5 (-2)) = js "-0.1" /\
  toFixed 2 (float_of_decimal false 1005 (-3)) = js "1.00" /\
  toFixed 0 (float_of_decimal false 25 (-1)) = js "3" /\
  toFixed 1 pos_zero = js "0.0" /\
  toFixed 1 NaN = js "NaN".
Proof. vm_compute. repeat split. Qed.

Example formatFileSize_samples :
  formatFileSize (float_of_Z 1023) = js "1023 B" /\
  formatFileSize (float_of_Z 1024) = js "1.0 KB" /\
  formatFileSize (float_of_Z 1075) = js "1.0 KB" /\
  formatFileSize (float_of_Z 1076) = js "1.1 KB" /\
  formatFileSize (float_of_Z 1048575) = js "1024.0 KB" /\
  formatFileSize (float_of_Z 1048576) = js "1.0 MB" /\
  formatFileSize (float_of_Z 123456789012) = js "117737.6 MB".
Proof. vm_compute. repeat split. Qed.

Example isValidFile_samples :
  map (fun n => isValidFile {| name := js n |})
    ["a.xlsx"; "A.XLSX"; "a.xls"; "a.xlsm"; ".xls"; "a.xlsb"; "xls";
     "a.xlsx "; "a.csv"]%string =
  [true; true; true; true; true; false; false; false; false].
Proof. reflexivity. Qed.

Local Close Scope Z_scope.

(* ===================================================================== *)
(** * The one-shot run as a whole *)
(* ===================================================================== *)

Lemma on_response_ok_fields (b : Blob) (sh th : option jsstring) (elapsed : N)
  (st : OneShot.AppState) :
  let st' := OneShot.on_response_ok b sh th elapsed st in
  OneShot.progress st' = f100 /\
  OneShot.downloadUrl st' = Some b /\
  OneShot.result st' <> None /\
  OneShot.error st' = OneShot.error st /\
  OneShot.isProcessing st' = OneShot.isProcessing st.
Proof.
  cbv zeta. unfold OneShot.on_response_ok.
  destruct (OneShot.stats_of_header sh) as [stats lines].
  repeat split. discriminate.
Qed.

(** X20: a one-shot run that could start ends in one of two shapes, whatever
    ticks of the simulated progress ran meanwhile.  If the fetch
    resolved with an ok status and the body could be read as a blob: the
    progress is 100, the blob is the download, there is a result and no
    error.  Otherwise (the fetch rejected, the status was not ok, or the
    body could not be read): the progress is 0, the progress text is
    empty, there is an error and neither result nor download.  Either
    way the run is no longer processing, both intervals are cleared, and
    the file and the API status are kept. *)
Theorem one_shot_run_outcome
  (JSON_stringify : value -> jsstring) (net : OneShot.settled OneShot.Response)
  (randoms : list float) (elapsed : N) (p : OneShot.Page) (f : File) :
  OneShot.file p = Some f -> OneShot.apiStatus p = online ->
  let p' := OneShot.processFile JSON_stringify net randoms elapsed p in
  let st' := OneShot.app p' in
  OneShot.isProcessing st' = false /\
  OneShot.progressInterval p' = false /\
  OneShot.timerInterval p' = false /\
  OneShot.file p' = Some f /\
  OneShot.apiStatus p' = online /\
  ((exists r b, net = OneShot.Fulfilled r /\
                OneShot.response_ok r = true /\
                OneShot.blob r = OneShot.Fulfilled b /\
                OneShot.progress st' = f100 /\
                OneShot.downloadUrl st' = Some b /\
                OneShot.result st' <> None /\
                OneShot.error st' = None) \/
   ((forall r b, net = OneShot.Fulfilled r ->
                 OneShot.response_ok r = true ->
                 OneShot.blob r <> OneShot.Fulfilled b) /\
    OneShot.progress st' = f0 /\
    OneShot.progressText st' = [] /\
    OneShot.downloadUrl st' = None /\
    OneShot.result st' = None /\
    OneShot.error st' <> None)).
Proof.
  intros Hf Ha. cbv zeta. unfold OneShot.processFile. rewrite Hf, Ha.
  destruct net as [r | err stack].
  - destruct (OneShot.response_ok r) eqn:Hok.
    + destruct (OneShot.blob r) as [b | err stack] eqn:Hb.
      * cbn -[OneShot.on_response_ok].
        match goal with
        | |- context [OneShot.on_response_ok ?b ?s ?t ?e ?st] =>
            destruct (on_response_ok_fields b s t e st)
              as [H1 [H2 [H3 [H4 _]]]]
        end.
        repeat (split; [first [reflexivity | assumption] |]).
        left. exists r, b. repeat split; assumption.
      * cbn. repeat (split; [first [reflexivity | assumption] |]).
        right. repeat split; try discriminate.
        intros r' b' Hr. injection Hr as <-. rewrite Hb. discriminate.
    + unfold OneShot.on_response_error.
      match goal with
      | |- context [let '(a, b) := ?x in _] => destruct x as [errorData errorDetails]
      end.
      cbn. repeat (split; [first [reflexivity | assumption] |]).
      right. repeat split; try discriminate.
      intros r' b' Hr. injection Hr as <-. rewrite Hok. discriminate.
  - cbn. repeat (split; [first [reflexivity | assumption] |]).
    right. repeat split; try discriminate.
Qed.

Lemma one_shot_run_outcome_witness :
  OneShot.file (OneShot.setApiStatus online
    (OneShot.setFile (Some {| name := js "calles.xlsx" |})
       OneShot.initial_page)) = Some {| name := js "calles.xlsx" |} /\
  OneShot.apiStatus (OneShot.setApiStatus online
    (OneShot.setFile (Some {| name := js "calles.xlsx" |})
       OneShot.initial_page)) = online /\
  OneShot.isProcessing
    (OneShot.app
       (OneShot.processFile (fun _ => []) (OneShot.Rejected OtherThrown None)
          [] 0
          (OneShot.setApiStatus online
             (OneShot.setFile (Some {| name := js "calles.xlsx" |})
                OneShot.initial_page)))) = false.
Proof.
  split; [reflexivity |]. split; [reflexivity |].
  exact (proj1 (one_shot_run_outcome (fun _ => [])
    (OneShot.Rejected OtherThrown None) [] 0
    (OneShot.setApiStatus online
       (OneShot.setFile (Some {| name := js "calles.xlsx" |})
          OneShot.initial_page))
    {| name := js "calles.xlsx" |} eq_refl eq_refl)).
Defined.

Lemma one_shot_error_branch
  (JSON_stringify : value -> jsstring) (r : OneShot.Response)
  (randoms : list float) (elapsed : N) (p : OneShot.Page) (f : File) :
  OneShot.file p = Some f -> OneShot.apiStatus p = online ->
  OneShot.response_ok r = false ->
  exists q,
    OneShot.processFile JSON_stringify (OneShot.Fulfilled r) randoms elapsed p =
    OneShot.with_app (OneShot.setIsProcessing false)
      (OneShot.on_response_error JSON_stringify r q).
Proof.
  intros Hf Ha Hok. unfold OneShot.processFile. rewrite Hf, Ha, Hok.
  eexists. reflexivity.
Qed.

(** X21: the error a response that is not ok leaves.  Its status is the
    response's.  When the content type holds application/json and the
    body parses, the message is the body's [detail] if that is truthy,
    else its [message] if that is truthy, else the status line; an empty
    string, a zero or a null in [detail] is passed over.  With any other
    content type the body is read as text and becomes the details, and
    the message is the status line; when the body cannot be read the
    details are a fixed text. *)
Theorem error_response_message
  (JSON_stringify : value -> jsstring) (r : OneShot.Response)
  (randoms : list float) (elapsed : N) (p : OneShot.Page) (f : File) :
  OneShot.file p = Some f -> OneShot.apiStatus p = online ->
  OneShot.response_ok r = false ->
  let p' := OneShot.processFile JSON_stringify (OneShot.Fulfilled r)
              randoms elapsed p in
  let status_line :=
    Str (js "Error " ++ digits_of (OneShot.response_status r) ++ js ": " ++
         OneShot.statusText r) in
  let is_json :=
    match OneShot.contentType r with
    | Some c => OneShot.includes c (js "application/json")
    | None => false
    end in
  exists e,
    OneShot.error (OneShot.app p') = Some e /\
    ApiError.status e = Some (OneShot.response_status r) /\
    (forall data, is_json = true -> OneShot.json r = OneShot.Fulfilled data ->
       ApiError.details e = Some (JSON_stringify data) /\
       (nullish data = false -> ToBoolean (field data "detail") = true ->
        ApiError.message e = field data "detail") /\
       (nullish data = false -> ToBoolean (field data "detail") = false ->
        ToBoolean (field data "message") = true ->
        ApiError.message e = field data "message") /\
       (nullish data = true \/
        (ToBoolean (field data "detail") = false /\
         ToBoolean (field data "message") = false) ->
        ApiError.message e = status_line)) /\
    (forall err stack, is_json = true ->
       OneShot.json r = OneShot.Rejected err stack ->
       ApiError.message e = status_line /\
       ApiError.details e =
         Some (js "No se pudo leer la respuesta del servidor")) /\
    (forall t, is_json = false -> OneShot.text r = OneShot.Fulfilled t ->
       ApiError.message e = status_line /\ ApiError.details e = Some t) /\
    (forall err stack, is_json = false ->
       OneShot.text r = OneShot.Rejected err stack ->
       ApiError.message e = status_line /\
       ApiError.details e =
         Some (js "No se pudo leer la respuesta del servidor")).
Proof.
  intros Hf Ha Hok. cbv zeta.
  destruct (one_shot_error_branch JSON_stringify r randoms elapsed p f Hf Ha Hok)
    as [q ->].
  unfold OneShot.on_response_error.
  destruct (match OneShot.contentType r with
            | Some c => OneShot.includes c (js "application/json")
            | None => false
            end).
  - destruct (OneShot.json r) as [data | err stack].
    + eexists. split; [reflexivity |]. split; [reflexivity |].
      cbn [ApiError.message ApiError.details].
      split; [| split; [| split]]; try (intros; discriminate).
      intros data' _ Hd. injection Hd as <-.
      split; [reflexivity |].
      unfold OneShot.or_value, OneShot.optional_field.
      split; [| split].
      * intros Hn Ht. now rewrite Hn, Ht.
      * intros Hn Ht Hm. now rewrite Hn, Ht, Hm.
      * intros [Hn | [Ht Hm]].
        -- now rewrite Hn.
        -- destruct (nullish data); [reflexivity |]. now rewrite Ht, Hm.
    + eexists. split; [reflexivity |]. split; [reflexivity |].
      cbn [ApiError.message ApiError.details].
      split; [| split; [| split]]; try (intros; discriminate).
      intros err' stack' _ _. split; reflexivity.
  - destruct (OneShot.text r) as [t | err stack].
    + eexists. split; [reflexivity |]. split; [reflexivity |].
      cbn [ApiError.message ApiError.details].
      split; [| split; [| split]]; try (intros; discriminate).
      intros t' _ Ht. injection Ht as <-. split; reflexivity.
    + eexists. split; [reflexivity |]. split; [reflexivity |].
      cbn [ApiError.message ApiError.details].
      split; [| split; [| split]]; try (intros; discriminate).
      intros err' stack' _ _. split; reflexivity.
Qed.

Lemma error_response_message_witness :
  let r := {| OneShot.response_status := 422;
              OneShot.statusText := js "Unprocessable Entity";
              OneShot.contentType := Some (js "application/json");
              OneShot.statsHeader := None; OneShot.timeHeader := None;
              OneShot.blob := OneShot.Rejected OtherThrown None;
              OneShot.json := OneShot.Fulfilled
                (Obj [(js "detail", Str []);
                      (js "message", Str (js "columna ausente"))]);
              OneShot.text := OneShot.Rejected OtherThrown None |} in
  let p := OneShot.setApiStatus online
             (OneShot.setFile (Some {| name := js "calles.xlsx" |})
                OneShot.initial_page) in
  OneShot.file p = Some {| name := js "calles.xlsx" |} /\
  OneShot.apiStatus p = online /\
  OneShot.response_ok r = false /\
  exists e,
    OneShot.error
      (OneShot.app
         (OneShot.processFile (fun _ => []) (OneShot.Fulfilled r) [] 0 p)) =
    Some e /\
    ApiError.message e = Str (js "columna ausente").
Proof.
  cbv zeta.
  split; [reflexivity |]. split; [reflexivity |]. split; [reflexivity |].
  destruct (error_response_message (fun _ => [])
    {| OneShot.response_status := 422;
       OneShot.statusText := js "Unprocessable Entity";
       OneShot.contentType := Some (js "application/json");
       OneShot.statsHeader := None; OneShot.timeHeader := None;
       OneShot.blob := OneShot.Rejected OtherThrown None;
       OneShot.json := OneShot.Fulfilled
         (Obj [(js "detail", Str []);
               (js "message", Str (js "columna ausente"))]);
       OneShot.text := OneShot.Rejected OtherThrown None |}
    [] 0
    (OneShot.setApiStatus online
       (OneShot.setFile (Some {| name := js "calles.xlsx" |})
          OneShot.initial_page))
    {| name := js "calles.xlsx" |} eq_refl eq_refl eq_refl)
    as [e [He [_ [Hjson _]]]].
  exists e. split; [exact He |].
  exact (proj1 (proj2 (proj2 (Hjson _ eq_refl eq_refl))) eq_refl eq_refl eq_refl).
Defined.

(** X22: what reaches the [catch]: a fetch that rejects and, on an ok
    response, a body that cannot be read as a blob.  Both are reported
    alike, as a connection error that quotes the message of what was
    thrown (a fixed text when it is not an [Error]); the error has no
    status, its details are the stack of the [Error] if the host gave
    one, and one line goes to the error console. *)
Theorem connection_error_message
  (JSON_stringify : value -> jsstring) (net : OneShot.settled OneShot.Response)
  (err : thrown) (stack : option jsstring)
  (randoms : list float) (elapsed : N) (p : OneShot.Page) (f : File) :
  OneShot.file p = Some f -> OneShot.apiStatus p = online ->
  net = OneShot.Rejected err stack \/
  (exists r, net = OneShot.Fulfilled r /\ OneShot.response_ok r = true /\
             OneShot.blob r = OneShot.Rejected err stack) ->
  let p' := OneShot.processFile JSON_stringify net randoms elapsed p in
  OneShot.error (OneShot.app p') =
    Some {| ApiError.message :=
              Str (js "Error de conexion: " ++ error_message_of err);
            ApiError.status := None;
            ApiError.details := match err with
                                | ErrorObject _ => stack
                                | OtherThrown => None
                                end |} /\
  OneShot.console_errors p' =
    OneShot.console_errors p ++ [OneShot.FetchErrorLine err] /\
  (err = OtherThrown ->
   option_map ApiError.message (OneShot.error (OneShot.app p')) =
   Some (Str (js "Error de conexion: Error desconocido"))).
Proof.
  intros Hf Ha Hnet. cbv zeta.
  unfold OneShot.processFile. rewrite Hf, Ha.
  destruct Hnet as [-> | [r [-> [Hok Hb]]]]; [| rewrite Hok, Hb];
    (split; [reflexivity | split; [reflexivity | intros ->; reflexivity]]).
Qed.

Lemma connection_error_message_witness :
  let p := OneShot.setApiStatus online
             (OneShot.setFile (Some {| name := js "calles.xlsx" |})
                OneShot.initial_page) in
  OneShot.file p = Some {| name := js "calles.xlsx" |} /\
  OneShot.apiStatus p = online /\
  (@OneShot.Rejected OneShot.Response (ErrorObject (js "Failed to fetch")) None =
     OneShot.Rejected (ErrorObject (js "Failed to fetch")) None \/
   exists r, OneShot.Rejected (ErrorObject (js "Failed to fetch")) None =
               OneShot.Fulfilled r /\
             OneShot.response_ok r = true /\
             OneShot.blob r =
               OneShot.Rejected (ErrorObject (js "Failed to fetch")) None) /\
  OneShot.error
    (OneShot.app
       (OneShot.processFile (fun _ => [])
          (OneShot.Rejected (ErrorObject (js "Failed to fetch")) None)
          [] 0 p)) =
  Some {| ApiError.message := Str (js "Error de conexion: Failed to fetch");
          ApiError.status := None; ApiError.details := None |}.
Proof.
  cbv zeta.
  split; [reflexivity |]. split; [reflexivity |].
  split; [left; reflexivity |].
  exact (proj1 (connection_error_message (fun _ => [])
    (OneShot.Rejected (ErrorObject (js "Failed to fetch")) None)
    (ErrorObject (js "Failed to fetch")) None [] 0
    (OneShot.setApiStatus online
       (OneShot.setFile (Some {| name := js "calles.xlsx" |})
          OneShot.initial_page))
    {| name := js "calles.xlsx" |} eq_refl eq_refl (or_introl eq_refl))).
Defined.

(* ===================================================================== *)
(** * The one-shot page around the run *)
(* ===================================================================== *)

(** X23: in the one-shot revision the API is online exactly when the fetch of
    the provincias resolved with an ok status and its body parsed as
    JSON; an ok response with a body that does not parse leaves it
    offline.  The provincias are replaced only when it ends online, by
    the parsed body whatever it holds, and are otherwise kept; nothing
    of the run, the file or the selections changes. *)
Theorem one_shot_check_status (net : OneShot.settled OneShot.Response)
  (p : OneShot.Page) :
  let p' := OneShot.checkApiStatus net p in
  (OneShot.apiStatus p' = online <->
   exists r data, net = OneShot.Fulfilled r /\
                  OneShot.response_ok r = true /\
                  OneShot.json r = OneShot.Fulfilled data) /\
  (OneShot.apiStatus p' <> online -> OneShot.apiStatus p' = offline) /\
  (forall r data, net = OneShot.Fulfilled r ->
     OneShot.response_ok r = true ->
     OneShot.json r = OneShot.Fulfilled data ->
     OneShot.provincias p' = data) /\
  (OneShot.apiStatus p' = offline ->
   OneShot.provincias p' = OneShot.provincias p) /\
  OneShot.app p' = OneShot.app p /\
  OneShot.file p' = OneShot.file p /\
  OneShot.selectedProvincia p' = OneShot.selectedProvincia p /\
  OneShot.selectedMunicipio p' = OneShot.selectedMunicipio p /\
  OneShot.municipios p' = OneShot.municipios p.
Proof.
  cbv zeta. unfold OneShot.checkApiStatus.
  destruct net as [r | err stack].
  - destruct (OneShot.response_ok r) eqn:Hok.
    + destruct (OneShot.json r) as [data | err stack] eqn:Hj.
      * split; [split; [intros _; now exists r, data | reflexivity] |].
        split; [intros H; now contradiction H |].
        split; [intros r' d' Hr _ Hd; injection Hr as <-; cbn; congruence |].
        split; [discriminate |]. repeat split.
      * split; [split; [discriminate |] |].
        { intros [r' [d' [Hr [_ Hd]]]]. injection Hr as <-. congruence. }
        split; [reflexivity |].
        split; [intros r' d' Hr _ Hd; injection Hr as <-; cbn; congruence |].
        repeat split.
    + split; [split; [discriminate |] |].
      { intros [r' [d' [Hr [Hok' _]]]]. injection Hr as <-. congruence. }
      split; [reflexivity |].
      split; [intros r' d' Hr Hok' _; injection Hr as <-; cbn; congruence |].
      repeat split.
  - split; [split; [discriminate |] |].
    { intros [r' [d' [Hr _]]]. discriminate Hr. }
    split; [reflexivity |].
    split; [intros r' d' Hr; discriminate Hr |].
    repeat split.
Qed.

(** X24: the municipios of the page after the effect that loads them.
    Without a provincia, or while the API is not online, they are
    emptied without a request.  Otherwise an ok response whose body
    parses replaces them, a fetch that rejects or a body that does not
    parse empties them, and a response that is not ok leaves the
    municipios of the provincia chosen before in place. *)
Theorem municipios_after_load (net : OneShot.settled OneShot.Response)
  (p : OneShot.Page) :
  let p' := OneShot.loadMunicipios net p in
  (OneShot.selectedProvincia p = [] \/ OneShot.apiStatus p <> online ->
   OneShot.municipios p' = Arr []) /\
  (OneShot.selectedProvincia p <> [] -> OneShot.apiStatus p = online ->
   (forall r data, net = OneShot.Fulfilled r ->
      OneShot.response_ok r = true ->
      OneShot.json r = OneShot.Fulfilled data ->
      OneShot.municipios p' = data) /\
   (forall r, net = OneShot.Fulfilled r ->
      OneShot.response_ok r = false -> p' = p) /\
   (forall r err stack, net = OneShot.Fulfilled r ->
      OneShot.response_ok r = true ->
      OneShot.json r = OneShot.Rejected err stack ->
      OneShot.municipios p' = Arr []) /\
   (forall err stack, net = OneShot.Rejected err stack ->
      OneShot.municipios p' = Arr [])) /\
  OneShot.selectedProvincia p' = OneShot.selectedProvincia p /\
  OneShot.selectedMunicipio p' = OneShot.selectedMunicipio p /\
  OneShot.apiStatus p' = OneShot.apiStatus p /\
  OneShot.app p' = OneShot.app p.
Proof.
  cbv zeta. unfold OneShot.loadMunicipios.
  destruct (OneShot.selectedProvincia p) as [| c s] eqn:Hs.
  { split; [reflexivity |]. split; [intros H; now contradiction H |].
    repeat split; cbn; auto. }
  destruct (OneShot.apiStatus p) eqn:Ha;
    try (split; [reflexivity |]; split; [discriminate |];
         repeat split; cbn; auto).
  split; [intros [H | H]; [discriminate H | now contradiction H] |].
  split.
  - intros _ _. split; [| split; [| split]].
    + intros r data -> Hok Hj. now rewrite Hok, Hj.
    + intros r -> Hok. now rewrite Hok.
    + intros r err stack -> Hok Hj. now rewrite Hok, Hj.
    + now intros err stack ->.
  - destruct net as [r | err stack]; [| repeat split; cbn; auto].
    destruct (OneShot.response_ok r); [| repeat split; cbn; auto].
    destruct (OneShot.json r); repeat split; cbn; auto.
Qed.

Lemma one_shot_processFile_without_file
  (JSON_stringify : value -> jsstring) (net : OneShot.settled OneShot.Response)
  (randoms : list float) (elapsed : N) (p : OneShot.Page) :
  OneShot.file p = None ->
  OneShot.processFile JSON_stringify net randoms elapsed p = p.
Proof. unfold OneShot.processFile. now intros ->. Qed.

(** X25: in the one-shot revision choosing a file and removing it differ in
    what they clear.  Dropping or selecting a valid file replaces the
    file and clears the result and the download, but keeps the error of
    the last run and the progress; an invalid or missing file changes
    nothing but the drag flag.  [removeFile] clears all of them, and
    after it [processFile] does nothing whatever the network answers. *)
Theorem one_shot_choose_and_remove (files : list File) (p : OneShot.Page) :
  let dropped := OneShot.handleDrop files p in
  let removed := OneShot.removeFile p in
  OneShot.isDragging dropped = false /\
  OneShot.error (OneShot.app dropped) = OneShot.error (OneShot.app p) /\
  OneShot.progress (OneShot.app dropped) = OneShot.progress (OneShot.app p) /\
  OneShot.progressText (OneShot.app dropped) =
    OneShot.progressText (OneShot.app p) /\
  OneShot.handleFileSelect (Some files) (OneShot.setIsDragging false p) =
    dropped /\
  (forall f rest, files = f :: rest -> isValidFile f = true ->
     OneShot.file dropped = Some f /\
     OneShot.result (OneShot.app dropped) = None /\
     OneShot.downloadUrl (OneShot.app dropped) = None) /\
  (forall f rest, files = f :: rest -> isValidFile f = false ->
     dropped = OneShot.setIsDragging false p) /\
  (files = [] -> dropped = OneShot.setIsDragging false p) /\
  OneShot.file removed = None /\
  OneShot.result (OneShot.app removed) = None /\
  OneShot.downloadUrl (OneShot.app removed) = None /\
  OneShot.error (OneShot.app removed) = None /\
  OneShot.progress (OneShot.app removed) = f0 /\
  OneShot.progressText (OneShot.app removed) = [] /\
  (forall JSON_stringify net randoms elapsed,
     OneShot.processFile JSON_stringify net randoms elapsed removed = removed).
Proof.
  cbv zeta.
  assert (Hrem :
    OneShot.file (OneShot.removeFile p) = None /\
    OneShot.result (OneShot.app (OneShot.removeFile p)) = None /\
    OneShot.downloadUrl (OneShot.app (OneShot.removeFile p)) = None /\
    OneShot.error (OneShot.app (OneShot.removeFile p)) = None /\
    OneShot.progress (OneShot.app (OneShot.removeFile p)) = f0 /\
    OneShot.progressText (OneShot.app (OneShot.removeFile p)) = [] /\
    (forall JSON_stringify net randoms elapsed,
       OneShot.processFile JSON_stringify net randoms elapsed
         (OneShot.removeFile p) = OneShot.removeFile p)).
  { repeat (split; [reflexivity |]).
    intros. now apply one_shot_processFile_without_file. }
  unfold OneShot.handleDrop, OneShot.handleFileSelect.
  destruct files as [| f rest]; cbn [hd_error].
  - repeat (split; [reflexivity |]).
    split; [intros f rest H; discriminate H |].
    split; [intros f rest H; discriminate H |].
    split; [reflexivity | exact Hrem].
  - destruct (isValidFile f) eqn:Hv.
    + repeat (split; [reflexivity |]).
      split; [intros f' rest' H _; injection H as <- <-; repeat split |].
      split; [intros f' rest' H Hv'; injection H as <- <-; congruence |].
      split; [discriminate | exact Hrem].
    + repeat (split; [reflexivity |]).
      split; [intros f' rest' H Hv'; injection H as <- <-; congruence |].
      split; [reflexivity |].
      split; [discriminate | exact Hrem].
Qed.

(* ===================================================================== *)
(** * The page between events *)
(* ===================================================================== *)

(** What a one-shot run leaves, in the terms of [at_rest]. *)
Lemma processFile_settles
  (JSON_stringify : value -> jsstring) (net : OneShot.settled OneShot.Response)
  (randoms : list float) (elapsed : N) (p : OneShot.Page) (f : File) :
  OneShot.file p = Some f -> OneShot.apiStatus p = online ->
  let p' := OneShot.processFile JSON_stringify net randoms elapsed p in
  let st' := OneShot.app p' in
  OneShot.selectedProvincia p' = OneShot.selectedProvincia p /\
  OneShot.selectedMunicipio p' = OneShot.selectedMunicipio p /\
  OneShot.isProcessing st' = false /\
  OneShot.progressInterval p' = false /\
  OneShot.timerInterval p' = false /\
  ((OneShot.progress st' = f100 /\ OneShot.downloadUrl st' <> None /\
    OneShot.result st' <> None /\ OneShot.error st' = None) \/
   (OneShot.progress st' = f0 /\ OneShot.downloadUrl st' = None /\
    OneShot.result st' = None)).
Proof.
  intros Hf Ha. cbv zeta. unfold OneShot.processFile. rewrite Hf, Ha.
  destruct net as [r | err stack].
  - destruct (OneShot.response_ok r) eqn:Hok.
    + destruct (OneShot.blob r) as [b | err stack] eqn:Hb.
      * cbn -[OneShot.on_response_ok].
        match goal with
        | |- context [OneShot.on_response_ok ?b ?s ?t ?e ?st] =>
            destruct (on_response_ok_fields b s t e st)
              as [H1 [H2 [H3 [H4 _]]]]
        end.
        repeat (split; [reflexivity |]).
        left. rewrite H2. repeat split; try assumption. discriminate.
      * cbn. repeat (split; [reflexivity |]). right. repeat split.
    + unfold OneShot.on_response_error.
      match goal with
      | |- context [let '(a, b) := ?x in _] => destruct x as [errorData errorDetails]
      end.
      cbn. repeat (split; [reflexivity |]). right. repeat split.
  - cbn. repeat (split; [reflexivity |]). right. repeat split.
Qed.

Lemma handle_at_rest (JSON_stringify : value -> jsstring)
  (p : OneShot.Page) (e : OneShot.page_event) :
  OneShot.at_rest p -> OneShot.at_rest (OneShot.handle JSON_stringify p e).
Proof.
  intros Hp. pose proof Hp as [H1 [H2 [H3 [H4 [H5 [H6 H7]]]]]].
  destruct e as [v | v | net | net | files | files | | | net randoms elapsed];
    cbn [OneShot.handle].
  - (* a provincia is picked *)
    destruct (OneShot.provincia_disabled p); [exact Hp |].
    repeat (split; [assumption |]). intros H. now contradiction H.
  - (* a municipio is picked *)
    destruct (OneShot.municipio_disabled p) eqn:Hd; [exact Hp |].
    repeat (split; [assumption |]). intros _.
    unfold OneShot.municipio_disabled in Hd. cbn.
    destruct (OneShot.selectedProvincia p); discriminate.
  - (* the status is checked *)
    unfold OneShot.checkApiStatus.
    destruct net as [r | err stack]; [| exact Hp].
    destruct (OneShot.response_ok r); [| exact Hp].
    destruct (OneShot.json r); exact Hp.
  - (* the municipios are loaded *)
    unfold OneShot.loadMunicipios.
    destruct (OneShot.selectedProvincia p) as [| c s]; [exact Hp |].
    destruct (OneShot.apiStatus p); try exact Hp.
    destruct net as [r | err stack]; [| exact Hp].
    destruct (OneShot.response_ok r); [| exact Hp].
    destruct (OneShot.json r); exact Hp.
  - (* files are dropped *)
    unfold OneShot.handleDrop.
    destruct (hd_error files) as [f |]; [| exact Hp].
    destruct (isValidFile f); [| exact Hp].
    split; [exact H1 |]. split; [exact H2 |]. split; [exact H3 |].
    split; [split; reflexivity |].
    split; [intros He; split; [reflexivity | now apply H5] |].
    split; [exact H6 | exact H7].
  - (* files are selected *)
    unfold OneShot.handleFileSelect.
    destruct files as [l |]; [| exact Hp].
    destruct (hd_error l) as [f |]; [| exact Hp].
    destruct (isValidFile f); [| exact Hp].
    split; [exact H1 |]. split; [exact H2 |]. split; [exact H3 |].
    split; [split; reflexivity |].
    split; [intros He; split; [reflexivity | now apply H5] |].
    split; [exact H6 | exact H7].
  - (* the file is removed *)
    split; [exact H1 |]. split; [exact H2 |]. split; [exact H3 |].
    split; [split; reflexivity |].
    split; [intros He; now contradiction He |].
    split; [now left | exact H7].
  - (* the error is dismissed *)
    split; [exact H1 |]. split; [exact H2 |]. split; [exact H3 |].
    split; [exact H4 |].
    split; [intros He; now contradiction He |].
    split; [exact H6 | exact H7].
  - (* a run *)
    destruct (OneShot.file p) as [f |] eqn:Hf; [| exact Hp].
    destruct (OneShot.apiStatus p) eqn:Ha; try exact Hp.
    rewrite H1. cbn [orb].
    destruct (processFile_settles JSON_stringify net randoms elapsed p f Hf Ha)
      as [Hs [Hm [Hi [Hpi [Hti Hsh]]]]].
    cbv zeta in Hs, Hm, Hi, Hpi, Hti, Hsh.
    unfold OneShot.at_rest. rewrite Hs, Hm.
    split; [exact Hi |]. split; [exact Hpi |]. split; [exact Hti |].
    destruct Hsh as [[Hpr [Hd [Hr He]]] | [Hpr [Hd Hr]]].
    + rewrite He, Hpr.
      split; [split; intros H; now contradiction |].
      split; [intros H; now contradiction H |].
      split; [now right | exact H7].
    + rewrite Hr, Hd, Hpr.
      split; [split; reflexivity |].
      split; [intros _; split; reflexivity |].
      split; [now left | exact H7].
Qed.

Lemma after_at_rest (JSON_stringify : value -> jsstring)
  (events : list OneShot.page_event) : forall p : OneShot.Page,
  OneShot.at_rest p -> OneShot.at_rest (OneShot.after JSON_stringify events p).
Proof.
  unfold OneShot.after.
  induction events as [| e events IH]; intros p Hp; simpl; [exact Hp |].
  apply IH. now apply handle_at_rest.
Qed.

Lemma initial_page_at_rest : OneShot.at_rest OneShot.initial_page.
Proof.
  unfold OneShot.at_rest. cbn.
  repeat split; try (intros H; now contradiction H). now left.
Qed.

(** X26: between events the one-shot page is at rest, from the mount on and
    after any sequence of events, each run taken whole with whatever
    the network and the ticks gave it: no run is going on and both
    intervals are cleared, a result is there exactly when a download is,
    an error excludes both and leaves the progress at 0, the progress is
    0 or 100, and a municipio is chosen only under a provincia. *)
Theorem page_at_rest_between_events (JSON_stringify : value -> jsstring)
  (events : list OneShot.page_event) :
  let p := OneShot.after JSON_stringify events OneShot.initial_page in
  OneShot.isProcessing (OneShot.app p) = false /\
  OneShot.progressInterval p = false /\
  OneShot.timerInterval p = false /\
  (OneShot.result (OneShot.app p) = None <->
   OneShot.downloadUrl (OneShot.app p) = None) /\
  (OneShot.error (OneShot.app p) <> None ->
   OneShot.result (OneShot.app p) = None /\
   OneShot.progress (OneShot.app p) = f0) /\
  (OneShot.progress (OneShot.app p) = f0 \/
   OneShot.progress (OneShot.app p) = f100) /\
  (OneShot.selectedMunicipio p <> [] -> OneShot.selectedProvincia p <> []).
Proof.
  exact (after_at_rest JSON_stringify events _ initial_page_at_rest).
Qed.

Lemma formData_names (p : OneShot.Page) (f : File) :
  map fst (OneShot.formData p f) =
  [js "file"] ++
  (if match OneShot.selectedProvincia p with [] => true | _ => false end
   then [] else [js "filtro_provincia"]) ++
  (if match OneShot.selectedMunicipio p with [] => true | _ => false end
   then [] else [js "filtro_municipio"]).
Proof.
  unfold OneShot.formData.
  destruct (OneShot.selectedProvincia p); destruct (OneShot.selectedMunicipio p);
    reflexivity.
Qed.

(** X27: the request of a run always carries the file, first; it carries the
    provincia filter exactly when a provincia is chosen and the
    municipio filter exactly when a municipio is.  On the page as it
    can be reached from the mount, a request never carries a municipio
    filter without a provincia filter. *)
Theorem request_filters (JSON_stringify : value -> jsstring)
  (events : list OneShot.page_event) (p : OneShot.Page) (f : File) :
  let fields := map fst (OneShot.formData p f) in
  hd_error (OneShot.formData p f) = Some (js "file", OneShot.FileField f) /\
  (In (js "filtro_provincia") fields <-> OneShot.selectedProvincia p <> []) /\
  (In (js "filtro_municipio") fields <-> OneShot.selectedMunicipio p <> []) /\
  (p = OneShot.after JSON_stringify events OneShot.initial_page ->
   In (js "filtro_municipio") fields -> In (js "filtro_provincia") fields).
Proof.
  cbv zeta.
  assert (Hp : In (js "filtro_provincia") (map fst (OneShot.formData p f)) <->
               OneShot.selectedProvincia p <> []).
  { rewrite formData_names.
    destruct (OneShot.selectedProvincia p);
      destruct (OneShot.selectedMunicipio p); split; intros H;
      vm_compute in H |- *; intuition (try discriminate; try congruence). }
  assert (Hm : In (js "filtro_municipio") (map fst (OneShot.formData p f)) <->
               OneShot.selectedMunicipio p <> []).
  { rewrite formData_names.
    destruct (OneShot.selectedProvincia p);
      destruct (OneShot.selectedMunicipio p); split; intros H;
      vm_compute in H |- *; intuition (try discriminate; try congruence). }
  split; [reflexivity |]. split; [exact Hp |]. split; [exact Hm |].
  intros -> H. apply Hp. apply Hm in H.
  now apply (after_at_rest JSON_stringify events _ initial_page_at_rest).
Qed.

Lemma endsWith_longer (a s suffix : jsstring) :
  endsWith s suffix = true -> endsWith (a ++ s) suffix = true.
Proof.
  intros H. apply endsWith_spec in H. destruct H as [stem ->].
  apply endsWith_spec. exists (a ++ stem). now rewrite app_assoc.
Qed.

(** X28: the download of the one-shot revision is named after the chosen
    file, geocodificado_ put before its name, and after resultado.xlsx
    when there is no file any more or its name is empty.  The name
    offered is one [isValidFile] accepts whenever the chosen file was,
    and without a download nothing is offered. *)
Theorem one_shot_download_name (p : OneShot.Page) :
  (OneShot.downloadUrl (OneShot.app p) = None ->
   OneShot.downloadFile p = None) /\
  (forall url, OneShot.downloadUrl (OneShot.app p) = Some url ->
   exists a,
     OneShot.downloadFile p = Some a /\
     OneShot.href a = url /\
     (forall f, OneShot.file p = Some f -> name f <> [] ->
        OneShot.download a = js "geocodificado_" ++ name f) /\
     (OneShot.file p = None \/ OneShot.file p = Some {| name := [] |} ->
        OneShot.download a = js "geocodificado_resultado.xlsx") /\
     (forall f, OneShot.file p = Some f -> is_ascii (name f) = true ->
        isValidFile f = true ->
        isValidFile {| name := OneShot.download a |} = true) /\
     (OneShot.file p = None ->
        isValidFile {| name := OneShot.download a |} = true)).
Proof.
  unfold OneShot.downloadFile. split; [now intros -> |].
  intros url ->. eexists. split; [reflexivity |]. split; [reflexivity |].
  cbn [OneShot.download].
  split; [| split; [| split]].
  - intros f -> Hn. destruct f as [[| c s]]; [now contradiction Hn | reflexivity].
  - intros [-> | ->]; reflexivity.
  - intros f -> _ Hv. destruct f as [[| c s]]; [discriminate Hv |].
    unfold isValidFile in *. cbn [name] in *.
    apply existsb_exists in Hv. destruct Hv as [ext [Hin He]].
    apply existsb_exists. exists ext. split; [exact Hin |].
    rewrite toLowerCase_app. now apply endsWith_longer.
  - intros ->. reflexivity.
Qed.
